(** * Receipt tracker: a shallow embedding of the scraping pipeline

  The Python sources embedded here are [receipt_models.py],
  [receipt_scraper.py], [authenticator.py], [error_handler.py],
  [database.py] and the end of [main.py].

  Conventions of the embedding.
  - A Python [str] is a [string]; its characters are the code points
    0..255 (the Latin-1 range), so [\d], [\s], [str.split], [str.strip]
    and [str.lower] are the restrictions of the Unicode ones to that range.
  - A Python [float] is a binary64 [float] of the kernel; [float(s)] of a
    decimal literal is its correctly rounded value.
  - A function that can raise returns an [option], [None] standing for the
    exception; a function whose exceptions the source catches returns the
    value of the handler.
  - The browser driver, the clock and the random generator are explicit
    inputs.
  - The SQLite file is an explicit state, the table [receipts] as a map
    from its primary key; whether a call meets a database error is an
    explicit input, and a call that does leaves the state as it was. *)

From Stdlib Require Import ZArith NArith List Bool Ascii String Lia.
From Stdlib Require Import Floats.PrimFloat Floats.SpecFloat Floats.FloatOps.
From stdpp Require Import gmap strings.
Import ListNotations.

Set Warnings "-inexact-float".

Local Open Scope Z_scope.

(* ===================================================================== *)
(** ** Characters and the [str] methods the sources use *)
(* ===================================================================== *)

Module Text.

Definition code (c : ascii) : N := N_of_ascii c.

Definition between (lo hi : N) (c : ascii) : bool :=
  ((lo <=? code c) && (code c <=? hi))%N.

(** [\d] and [str.isdigit] on the Latin-1 range. *)
Definition is_digit (c : ascii) : bool := between 48 57 c.

(** [\s] and [str.isspace]: TAB..CR, FS..US, SPACE, NEL and NBSP. *)
Definition is_space (c : ascii) : bool :=
  between 9 13 c || between 28 32 c || (code c =? 133)%N || (code c =? 160)%N.

Definition is_upper (c : ascii) : bool :=
  between 65 90 c || (between 192 222 c && negb (code c =? 215)%N).

Definition is_lower (c : ascii) : bool :=
  between 97 122 c || (between 224 254 c && negb (code c =? 247)%N).

Definition lower_char (c : ascii) : ascii :=
  if is_upper c then ascii_of_N (code c + 32) else c.

Definition upper_char (c : ascii) : ascii :=
  if is_lower c then ascii_of_N (code c - 32) else c.

Definition chars (s : string) : list ascii := list_ascii_of_string s.
Definition str (l : list ascii) : string := string_of_list_ascii l.

(** [s.lower()] *)
Definition lower (s : string) : string := str (map lower_char (chars s)).

Fixpoint starts_with (p s : list ascii) : bool :=
  match p, s with
  | [], _ => true
  | a :: p', b :: s' => Ascii.eqb a b && starts_with p' s'
  | _ :: _, [] => false
  end.

Fixpoint contains_chars (p s : list ascii) : bool :=
  starts_with p s ||
  match s with
  | [] => false
  | _ :: s' => contains_chars p s'
  end.

(** [p in s] *)
Definition contains (p s : string) : bool := contains_chars (chars p) (chars s).

(** [s.split()]: the maximal runs of characters that are not whitespace. *)
Fixpoint split_chars (word : list ascii) (s : list ascii) : list (list ascii) :=
  match s with
  | [] => match word with [] => [] | _ => [rev word] end
  | c :: s' =>
      if is_space c
      then match word with
           | [] => split_chars [] s'
           | _ => rev word :: split_chars [] s'
           end
      else split_chars (c :: word) s'
  end.

Definition split (s : string) : list string := map str (split_chars [] (chars s)).

(** [sep.join(words)] *)
Fixpoint join_chars (sep : list ascii) (words : list (list ascii)) : list ascii :=
  match words with
  | [] => []
  | [w] => w
  | w :: rest => w ++ sep ++ join_chars sep rest
  end.

Definition join (sep : string) (words : list string) : string :=
  str (join_chars (chars sep) (map chars words)).

Fixpoint lstrip_chars (s : list ascii) : list ascii :=
  match s with
  | c :: s' => if is_space c then lstrip_chars s' else s
  | [] => []
  end.

Definition strip_chars (s : list ascii) : list ascii :=
  rev (lstrip_chars (rev (lstrip_chars s))).

(** [s.strip()] *)
Definition strip (s : string) : string := str (strip_chars (chars s)).

(** [s.replace(c, '')] for a one-character [c]. *)
Definition remove_char (c : ascii) (s : list ascii) : list ascii :=
  List.filter (fun a => negb (Ascii.eqb a c)) s.

(** The value of a run of decimal digits, [None] when a character is not
    a digit or the run is empty. *)
Fixpoint digits_value (acc : Z) (s : list ascii) : option Z :=
  match s with
  | [] => Some acc
  | c :: s' =>
      if is_digit c
      then digits_value (10 * acc + Z.of_N (code c - 48)) s'
      else None
  end.

Definition nat_of_digits (s : list ascii) : option Z :=
  match s with
  | [] => None
  | _ => digits_value 0 s
  end.

(** [str(n)] for an [int]. *)
Definition digit_char (d : Z) : ascii := ascii_of_N (48 + Z.to_N d).

Fixpoint digits_of (fuel : nat) (n : Z) (acc : list ascii) : list ascii :=
  match fuel with
  | O => acc
  | S fuel' =>
      let acc' := digit_char (n mod 10) :: acc in
      if n <? 10 then acc' else digits_of fuel' (n / 10) acc'
  end.

Definition str_of_int (n : Z) : string :=
  if n <? 0
  then String "-" (str (digits_of (S (Z.to_nat (Z.log2 (- n)))) (- n) []))
  else str (digits_of (S (Z.to_nat (Z.log2 n))) n []).

(** [float(s)] for [s] a decimal literal [digits] or [digits.digits]:
    the binary64 nearest to the rational it denotes (ties to even).
    [None] is the [ValueError] of an [s] outside that grammar. *)
Fixpoint split_at_dot (int_part : list ascii) (s : list ascii)
  : list ascii * option (list ascii) :=
  match s with
  | [] => (rev int_part, None)
  | c :: s' =>
      if Ascii.eqb c "."%char then (rev int_part, Some s')
      else split_at_dot (c :: int_part) s'
  end.

Definition round_ratio (num den : Z) : float :=
  match num, den with
  | Zpos n, Zpos d =>
      SF2Prim (SFdiv prec emax (S754_finite false n 0) (S754_finite false d 0))
  | _, _ => 0%float
  end.

Definition float_of_chars (s : list ascii) : option float :=
  match split_at_dot [] s with
  | (ip, None) =>
      match nat_of_digits ip with
      | Some n => Some (round_ratio n 1)
      | None => None
      end
  | (ip, Some fp) =>
      match ip, fp with
      | [], [] => None
      | _, _ =>
          match digits_value 0 ip, digits_value 0 fp with
          | Some n, Some f =>
              let scale := 10 ^ Z.of_nat (length fp) in
              Some (round_ratio (n * scale + f) scale)
          | _, _ => None
          end
      end
  end.

End Text.

(* ===================================================================== *)
(** ** The fragment of Python's [re] the sources use *)
(* ===================================================================== *)

Module Re.

(** An item of a bracketed class, or an escape class. *)
Inductive citem : Type :=
| IChar (c : ascii)
| IRange (lo hi : ascii)
| IDigit
| ISpace.

Inductive regex : Type :=
| Eps
| Lit (c : ascii)
| Class (negated : bool) (items : list citem)
| Cat (r1 r2 : regex)
| Alt (r1 r2 : regex)
| Star (r : regex)              (* greedy *)
| Group (n : nat) (r : regex)   (* the n-th capturing group *)
| Bol                           (* ^ *)
| Eol.                          (* $ *)

(** A compiled pattern: the expression, how many capturing groups it has,
    and whether [re.IGNORECASE] is set. *)
Record pattern : Type := Pattern {
  expr : regex;
  groups : nat;
  ignorecase : bool
}.

Definition caps : Type := list (nat * list ascii).

Fixpoint group_text (n : nat) (cs : caps) : option (list ascii) :=
  match cs with
  | [] => None
  | (m, t) :: cs' => if Nat.eqb n m then Some t else group_text n cs'
  end.

Definition char_eq (ic : bool) (c a : ascii) : bool :=
  if ic then Ascii.eqb (Text.lower_char c) (Text.lower_char a) else Ascii.eqb c a.

Definition item_has (it : citem) (a : ascii) : bool :=
  match it with
  | IChar c => Ascii.eqb c a
  | IRange lo hi => Text.between (Text.code lo) (Text.code hi) a
  | IDigit => Text.is_digit a
  | ISpace => Text.is_space a
  end.

(** Under IGNORECASE a character is in a class when one of its case
    variants is. *)
Definition in_class (ic : bool) (items : list citem) (a : ascii) : bool :=
  existsb (fun it =>
    item_has it a ||
    (ic && (item_has it (Text.lower_char a) || item_has it (Text.upper_char a))))
    items.

Definition at_eol (s : list ascii) : bool :=
  match s with
  | [] => true
  | [c] => Ascii.eqb c "010"%char
  | _ => false
  end.

(** Backtracking matcher in continuation style: [rmatch ic total r s cs k]
    matches [r] at the head of [s], the alternatives in the order of
    Python's engine (left alternative first, the longest repetition
    first), and passes the rest of the text and the captures to [k].
    [total] is the length of the whole subject, so that [^] can tell its
    start. An iteration of a repetition that consumes nothing ends it. *)
Fixpoint rmatch {A : Type} (ic : bool) (total : nat) (r : regex)
    (s : list ascii) (cs : caps)
    (k : list ascii -> caps -> option A) {struct r} : option A :=
  match r with
  | Eps => k s cs
  | Lit c =>
      match s with
      | a :: s' => if char_eq ic c a then k s' cs else None
      | [] => None
      end
  | Class negated items =>
      match s with
      | a :: s' => if xorb negated (in_class ic items a) then k s' cs else None
      | [] => None
      end
  | Cat r1 r2 =>
      rmatch ic total r1 s cs (fun s' cs' => rmatch ic total r2 s' cs' k)
  | Alt r1 r2 =>
      match rmatch ic total r1 s cs k with
      | Some x => Some x
      | None => rmatch ic total r2 s cs k
      end
  | Star r1 =>
      (fix loop (fuel : nat) (s : list ascii) (cs : caps) : option A :=
         match fuel with
         | O => k s cs
         | S fuel' =>
             match rmatch ic total r1 s cs
                     (fun s' cs' =>
                        if (length s' <? length s)%nat
                        then loop fuel' s' cs' else None) with
             | Some x => Some x
             | None => k s cs
             end
         end) (length s) s cs
  | Group n r1 =>
      rmatch ic total r1 s cs
        (fun s' cs' => k s' ((n, firstn (length s - length s') s) :: cs'))
  | Bol => if (length s =? total)%nat then k s cs else None
  | Eol => if at_eol s then k s cs else None
  end.

(** The first way [r] matches at the head of [s]: the rest and the captures. *)
Definition match_here (p : pattern) (total : nat) (s : list ascii)
  : option (list ascii * caps) :=
  rmatch (ignorecase p) total (expr p) s [] (fun s' cs => Some (s', cs)).

(** What [findall] reports for one match: the whole match for a pattern
    without groups, the text of group 1 (empty when unset) otherwise. *)
Definition reported (p : pattern) (whole : list ascii) (cs : caps) : list ascii :=
  match groups p with
  | O => whole
  | _ => match group_text 1 cs with Some t => t | None => [] end
  end.

(** The scan shared by [findall] and [sub]: non-overlapping matches from
    left to right; after an empty match the scan moves on by one
    character. *)
Fixpoint findall_from (fuel : nat) (p : pattern) (total : nat) (s : list ascii)
  : list (list ascii) :=
  match fuel with
  | O => []
  | S fuel' =>
      match match_here p total s with
      | Some (s', cs) =>
          let whole := firstn (length s - length s') s in
          reported p whole cs ::
            (if (length s' <? length s)%nat
             then findall_from fuel' p total s'
             else match s with
                  | [] => []
                  | _ :: t => findall_from fuel' p total t
                  end)
      | None =>
          match s with
          | [] => []
          | _ :: t => findall_from fuel' p total t
          end
      end
  end.

(** [re.findall(p, s)] for a pattern with at most one group. *)
Definition findall (p : pattern) (s : string) : list string :=
  let l := Text.chars s in
  map Text.str (findall_from (S (length l)) p (length l) l).

Fixpoint sub_from (fuel : nat) (p : pattern) (repl : list ascii)
    (total : nat) (s : list ascii) : list ascii :=
  match fuel with
  | O => s
  | S fuel' =>
      match match_here p total s with
      | Some (s', _) =>
          if (length s' <? length s)%nat
          then repl ++ sub_from fuel' p repl total s'
          else repl ++ match s with
                       | [] => []
                       | c :: t => c :: sub_from fuel' p repl total t
                       end
      | None =>
          match s with
          | [] => []
          | c :: t => c :: sub_from fuel' p repl total t
          end
      end
  end.

(** [re.sub(p, repl, s)] for a literal replacement. *)
Definition sub (p : pattern) (repl : string) (s : string) : string :=
  let l := Text.chars s in
  Text.str (sub_from (S (length l)) p (Text.chars repl) (length l) l).

(** [re.match(p, s)] that must reach the end of [s]
    ([m is not None and m.end() == len(s)]), with its captures. *)
Definition fullmatch_first (p : pattern) (s : list ascii) : option caps :=
  match match_here p (length s) s with
  | Some ([], cs) => Some cs
  | _ => None
  end.

(** Derived forms. *)
Definition Plus (r : regex) : regex := Cat r (Star r).
Definition Opt (r : regex) : regex := Alt r Eps.

Fixpoint times (n : nat) (r : regex) : regex :=
  match n with
  | O => Eps
  | S O => r
  | S n' => Cat r (times n' r)
  end.

Fixpoint upto (n : nat) (r : regex) : regex :=
  match n with
  | O => Eps
  | S n' => Opt (Cat r (upto n' r))
  end.

(** [r{lo,hi}], greedy. *)
Definition Rep (lo hi : nat) (r : regex) : regex :=
  match (hi - lo)%nat with
  | O => times lo r
  | d => Cat (times lo r) (upto d r)
  end.

Fixpoint word_chars (s : list ascii) : regex :=
  match s with
  | [] => Eps
  | [c] => Lit c
  | c :: s' => Cat (Lit c) (word_chars s')
  end.

(** A literal word. *)
Definition Word (s : string) : regex := word_chars (Text.chars s).

Fixpoint alts (rs : list regex) : regex :=
  match rs with
  | [] => Class false []
  | [r] => r
  | r :: rs' => Alt r (alts rs')
  end.

Definition digit : regex := Class false [IDigit].
Definition space : regex := Class false [ISpace].

End Re.

(* ===================================================================== *)
(** ** [datetime]: calendar dates, differences and [strptime] *)
(* ===================================================================== *)

Module Datetime.

Record datetime : Type := mk_datetime {
  year : Z; month : Z; day : Z;
  hour : Z; minute : Z; second : Z; microsecond : Z
}.

(** [dt.date()] *)
Definition date (dt : datetime) : Z * Z * Z := (year dt, month dt, day dt).

Definition is_leap (y : Z) : bool :=
  (y mod 4 =? 0) && (negb (y mod 100 =? 0) || (y mod 400 =? 0)).

Definition days_in_month (y m : Z) : Z :=
  if m =? 2 then (if is_leap y then 29 else 28)
  else if (m =? 4) || (m =? 6) || (m =? 9) || (m =? 11) then 30
  else 31.

(** What the constructor of [datetime.date] accepts. *)
Definition valid_date (y m d : Z) : bool :=
  (1 <=? y) && (y <=? 9999) && (1 <=? m) && (m <=? 12) &&
  (1 <=? d) && (d <=? days_in_month y m).

Definition valid_time (dt : datetime) : bool :=
  (0 <=? hour dt) && (hour dt <? 24) && (0 <=? minute dt) && (minute dt <? 60) &&
  (0 <=? second dt) && (second dt <? 60) &&
  (0 <=? microsecond dt) && (microsecond dt <? 1000000).

Definition valid (dt : datetime) : bool :=
  valid_date (year dt) (month dt) (day dt) && valid_time dt.

(** Proleptic Gregorian ordinal of a date, as [date.toordinal]. *)
Definition days_before_year (y : Z) : Z :=
  let y1 := y - 1 in y1 * 365 + y1 / 4 - y1 / 100 + y1 / 400.

Fixpoint days_before_month_nat (y : Z) (m : nat) : Z :=
  match m with
  | O => 0
  | S m' => days_before_month_nat y m' + days_in_month y (Z.of_nat m)
  end.

Definition days_before_month (y m : Z) : Z :=
  days_before_month_nat y (Z.to_nat (m - 1)).

Definition toordinal (dt : datetime) : Z :=
  days_before_year (year dt) + days_before_month (year dt) (month dt) + day dt.

(** Microseconds since the start of day 0 of the ordinal count. *)
Definition to_microseconds (dt : datetime) : Z :=
  ((toordinal dt * 24 + hour dt) * 60 + minute dt) * 60 * 1000000
  + second dt * 1000000 + microsecond dt.

(** A normalized [timedelta]: [0 <= seconds < 86400],
    [0 <= microseconds < 1000000], the sign carried by [days]. *)
Record timedelta : Type := mk_timedelta {
  days : Z; seconds : Z; microseconds : Z
}.

Definition timedelta_of_microseconds (us : Z) : timedelta :=
  {| days := us / 86400000000;
     seconds := (us mod 86400000000) / 1000000;
     microseconds := us mod 1000000 |}.

(** [a - b] *)
Definition sub (a b : datetime) : timedelta :=
  timedelta_of_microseconds (to_microseconds a - to_microseconds b).

(** [td.total_seconds()], rounded down to whole seconds. *)
Definition whole_total_seconds (td : timedelta) : Z :=
  days td * 86400 + seconds td.

(** [a < b] *)
Definition ltb (a b : datetime) : bool := to_microseconds a <? to_microseconds b.

(** *** [datetime.strptime] for the directives the scraper uses *)

Definition month_names : list string :=
  ["january"; "february"; "march"; "april"; "may"; "june"; "july";
   "august"; "september"; "october"; "november"; "december"]%string.

Definition month_abbrs : list string :=
  ["jan"; "feb"; "mar"; "apr"; "may"; "jun"; "jul"; "aug"; "sep"; "oct";
   "nov"; "dec"]%string.

(** [sorted(names, key=len, reverse=True)]: a stable sort. *)
Fixpoint insert_by_length (x : string) (l : list string) : list string :=
  match l with
  | [] => [x]
  | y :: l' =>
      if (String.length y <? String.length x)%nat
      then x :: l
      else y :: insert_by_length x l'
  end.

Definition sort_by_length_desc (l : list string) : list string :=
  fold_left (fun acc x => insert_by_length x acc) l [].

Definition names_regex (names : list string) : Re.regex :=
  Re.alts (map Re.Word (sort_by_length_desc names)).

Definition digit_range (lo hi : ascii) : Re.regex := Re.Class false [Re.IRange lo hi].

(** The groups of the regular expression [strptime] builds. *)
Definition gY : nat := 1.
Definition gy : nat := 2.
Definition gm : nat := 3.
Definition gB : nat := 4.
Definition gb : nat := 5.
Definition gd : nat := 6.

Definition directive_regex (c : ascii) : option Re.regex :=
  if Ascii.eqb c "d" then
    (* 3[0-1]|[1-2]\d|0[1-9]|[1-9]| [1-9] *)
    Some (Re.Group gd (Re.alts
      [Re.Cat (Re.Lit "3") (digit_range "0" "1");
       Re.Cat (digit_range "1" "2") Re.digit;
       Re.Cat (Re.Lit "0") (digit_range "1" "9");
       digit_range "1" "9";
       Re.Cat (Re.Lit " ") (digit_range "1" "9")]))
  else if Ascii.eqb c "m" then
    (* 1[0-2]|0[1-9]|[1-9] *)
    Some (Re.Group gm (Re.alts
      [Re.Cat (Re.Lit "1") (digit_range "0" "2");
       Re.Cat (Re.Lit "0") (digit_range "1" "9");
       digit_range "1" "9"]))
  else if Ascii.eqb c "Y" then Some (Re.Group gY (Re.times 4 Re.digit))
  else if Ascii.eqb c "y" then Some (Re.Group gy (Re.times 2 Re.digit))
  else if Ascii.eqb c "B" then Some (Re.Group gB (names_regex month_names))
  else if Ascii.eqb c "b" then Some (Re.Group gb (names_regex month_abbrs))
  else None.

(** The expression for a format: a directive becomes its group, a run of
    whitespace becomes [\s+], any other character stands for itself.
    [None] is the [ValueError] of a directive outside the table. *)
Fixpoint format_regex (fmt : list ascii) : option Re.regex :=
  match fmt with
  | [] => Some Re.Eps
  | c :: rest =>
      if Ascii.eqb c "%" then
        match rest with
        | d :: rest' =>
            match directive_regex d, format_regex rest' with
            | Some r, Some r' => Some (Re.Cat r r')
            | _, _ => None
            end
        | [] => None
        end
      else
        match format_regex rest with
        | Some r' =>
            if Text.is_space c then
              match rest with
              | c' :: _ =>
                  if Text.is_space c' then Some r'
                  else Some (Re.Cat (Re.Plus Re.space) r')
              | [] => Some (Re.Cat (Re.Plus Re.space) r')
              end
            else Some (Re.Cat (Re.Lit c) r')
        | None => None
        end
  end.

Fixpoint index_of (x : string) (l : list string) (i : Z) : option Z :=
  match l with
  | [] => None
  | y :: l' => if String.eqb x y then Some i else index_of x l' (i + 1)
  end.

Definition group_int (n : nat) (cs : Re.caps) : option Z :=
  match Re.group_text n cs with
  | Some t => Text.nat_of_digits (Text.lstrip_chars t)
  | None => None
  end.

Definition group_month (n : nat) (names : list string) (cs : Re.caps) : option Z :=
  match Re.group_text n cs with
  | Some t => index_of (Text.lower (Text.str t)) names 1
  | None => None
  end.

Definition first_some {A : Type} (a b : option A) : option A :=
  match a with Some _ => a | None => b end.

Definition or_default {A : Type} (a : option A) (d : A) : A :=
  match a with Some x => x | None => d end.

(** [%y]: 00..68 are 2000..2068, 69..99 are 1969..1999. *)
Definition expand_year (y : Z) : Z := if y <=? 68 then y + 2000 else y + 1900.

(** [datetime.strptime(s, fmt)]; [None] is its [ValueError]: the text
    does not match the format, text is left after the match, or the
    fields are not a date. Fields the format does not set default to
    1900-01-01, and the time of day is midnight. *)
Definition strptime (s fmt : string) : option datetime :=
  match format_regex (Text.chars fmt) with
  | None => None
  | Some r =>
      match Re.fullmatch_first (Re.Pattern r 6 true) (Text.chars s) with
      | None => None
      | Some cs =>
          let y := or_default
                     (first_some (group_int gY cs)
                        (option_map expand_year (group_int gy cs))) 1900 in
          let m := or_default
                     (first_some (group_int gm cs)
                        (first_some (group_month gB month_names cs)
                                    (group_month gb month_abbrs cs))) 1 in
          let d := or_default (group_int gd cs) 1 in
          if valid_date y m d
          then Some (mk_datetime y m d 0 0 0 0)
          else None
      end
  end.

End Datetime.

(* ===================================================================== *)
(** ** receipt_models.py *)
(* ===================================================================== *)

(** One element of the list the page script of [_scrape_current_page]
  returns. The script always sets [index], [html], [text] and
  [attributes]; [dateText], [amountText] and [locationText] only when an
  element of the container matched. *)
Record ScrapedData : Type := mk_scraped {
sd_index : Z;
sd_html : string;
sd_text : string;
sd_attributes : gmap string string;
sd_dateText : option string;
sd_amountText : option string;
sd_locationText : option string
}.

Module Receipt.

Record t : Type := mk {
  id : string;
  date : Datetime.datetime;
  location : string;
  total_amount : float;
  currency : string;
  receipt_number : option string;
  member_number : option string;
  items : list (gmap string string);
  tax_amount : option float;
  subtotal_amount : option float;
  pdf_path : option string;
  raw_data : option ScrapedData
}.

(** The first pattern of [_clean_location]: at the start of the text, the
    group of the alternatives [Costco\s*Wholesale\s*] and [Costco\s*];
    IGNORECASE. *)
Definition prefix_pattern : Re.pattern :=
  Re.Pattern
    (Re.Cat Re.Bol
       (Re.Group 1
          (Re.Alt
             (Re.Cat (Re.Word "Costco")
                (Re.Cat (Re.Star Re.space)
                   (Re.Cat (Re.Word "Wholesale") (Re.Star Re.space))))
             (Re.Cat (Re.Word "Costco") (Re.Star Re.space)))))
    1 true.

(** The second pattern: [\s*], the group (Warehouse|Store), [\s*] and the
    end of the text; IGNORECASE. *)
Definition suffix_pattern : Re.pattern :=
  Re.Pattern
    (Re.Cat (Re.Star Re.space)
       (Re.Cat (Re.Group 1 (Re.Alt (Re.Word "Warehouse") (Re.Word "Store")))
          (Re.Cat (Re.Star Re.space) Re.Eol)))
    1 true.

Definition _clean_location (location : string) : string :=
  let location := Text.join " " (Text.split location) in
  let location := Re.sub prefix_pattern "" location in
  let location := Re.sub suffix_pattern "" location in
  Text.strip location.

(** The constructor followed by [__post_init__], for the keyword
    arguments the scraper passes; the other fields take their defaults.
    [total_amount] is a [float] there, so the branch of [__post_init__]
    for a [str] amount is not taken. An empty location is falsy and is
    left as it is. *)
Definition create (id : string) (date : Datetime.datetime) (location : string)
    (total_amount : float) (raw_data : ScrapedData) : t :=
  {| id := id;
     date := date;
     location := if String.eqb location "" then location
                 else _clean_location location;
     total_amount := total_amount;
     currency := "USD";
     receipt_number := None;
     member_number := None;
     items := [];
     tax_amount := None;
     subtotal_amount := None;
     pdf_path := None;
     raw_data := Some raw_data |}.

End Receipt.

Module ReceiptBatch.

Record t : Type := mk {
  receipts : list Receipt.t;
  total_count : Z;
  scraped_count : Z;
  failed_count : Z;
  duplicate_count : Z;
  date_range_start : option Datetime.datetime;
  date_range_end : option Datetime.datetime
}.

(** [ReceiptBatch()] *)
Definition empty : t :=
  {| receipts := []; total_count := 0; scraped_count := 0; failed_count := 0;
     duplicate_count := 0; date_range_start := None; date_range_end := None |}.

(** A [datetime] is always truthy, so [not self.date_range_start] tests
    for [None]. *)
Definition add_receipt (self : t) (receipt : Receipt.t) (is_duplicate : bool) : t :=
  let receipts' :=
    if negb is_duplicate then receipts self ++ [receipt] else receipts self in
  let scraped' :=
    if negb is_duplicate then scraped_count self + 1 else scraped_count self in
  let duplicate' :=
    if negb is_duplicate then duplicate_count self else duplicate_count self + 1 in
  let total' := total_count self + 1 in
  let start' :=
    match date_range_start self with
    | None => Some (Receipt.date receipt)
    | Some s =>
        if Datetime.ltb (Receipt.date receipt) s
        then Some (Receipt.date receipt) else Some s
    end in
  let end' :=
    match date_range_end self with
    | None => Some (Receipt.date receipt)
    | Some e =>
        if Datetime.ltb e (Receipt.date receipt)
        then Some (Receipt.date receipt) else Some e
    end in
  {| receipts := receipts';
     total_count := total';
     scraped_count := scraped';
     failed_count := failed_count self;
     duplicate_count := duplicate';
     date_range_start := start';
     date_range_end := end' |}.

Definition add_failed (self : t) : t :=
  {| receipts := receipts self;
     total_count := total_count self + 1;
     scraped_count := scraped_count self;
     failed_count := failed_count self + 1;
     duplicate_count := duplicate_count self;
     date_range_start := date_range_start self;
     date_range_end := date_range_end self |}.

(** A call on a batch. *)
Inductive op : Type :=
| AddReceipt (receipt : Receipt.t) (is_duplicate : bool)
| AddFailed.

Definition apply (self : t) (o : op) : t :=
  match o with
  | AddReceipt r d => add_receipt self r d
  | AddFailed => add_failed self
  end.

Definition run (ops : list op) : t := fold_left apply ops empty.

End ReceiptBatch.

(* ===================================================================== *)
(** ** receipt_scraper.py *)
(* ===================================================================== *)

Module ReceiptScraper.

(** *** The pattern tables *)

Definition d12 : Re.regex := Re.Rep 1 2 Re.digit.
Definition d4 : Re.regex := Re.times 4 Re.digit.
Definition d2 : Re.regex := Re.times 2 Re.digit.
Definition digits1 : Re.regex := Re.Plus Re.digit.

Definition cat_all (rs : list Re.regex) : Re.regex :=
  fold_right Re.Cat Re.Eps rs.

Definition months3 : Re.regex :=
  Re.alts (map Re.Word
    ["Jan"; "Feb"; "Mar"; "Apr"; "May"; "Jun"; "Jul"; "Aug"; "Sep"; "Oct";
     "Nov"; "Dec"]%string).

(** [date_patterns], each compiled with IGNORECASE:
      (\d{1,2}/\d{1,2}/\d{4})
      (\d{1,2}-\d{1,2}-\d{4})
      (\d{4}-\d{1,2}-\d{1,2})
      (\d{1,2}/\d{1,2}/\d{2})
      (Jan|Feb|Mar|Apr|May|Jun|Jul|Aug|Sep|Oct|Nov|Dec)[a-z]*\s+\d{1,2},?\s+\d{4}
    In the last one the only group is the month abbreviation. *)
Definition date_patterns : list Re.pattern :=
  [ Re.Pattern (Re.Group 1 (cat_all [d12; Re.Lit "/"; d12; Re.Lit "/"; d4])) 1 true;
    Re.Pattern (Re.Group 1 (cat_all [d12; Re.Lit "-"; d12; Re.Lit "-"; d4])) 1 true;
    Re.Pattern (Re.Group 1 (cat_all [d4; Re.Lit "-"; d12; Re.Lit "-"; d12])) 1 true;
    Re.Pattern (Re.Group 1 (cat_all [d12; Re.Lit "/"; d12; Re.Lit "/"; d2])) 1 true;
    Re.Pattern
      (cat_all [Re.Group 1 months3;
            Re.Star (Re.Class false [Re.IRange "a" "z"]);
            Re.Plus Re.space; d12; Re.Opt (Re.Lit ",");
            Re.Plus Re.space; d4]) 1 true ].

Definition formats : list string :=
  ["%m/%d/%Y"; "%m-%d-%Y"; "%Y-%m-%d"; "%m/%d/%y";
   "%B %d, %Y"; "%b %d, %Y"; "%B %d %Y"; "%b %d %Y"]%string.

(** [amount_patterns], each compiled with IGNORECASE:
      \$(\d+\.\d{2})
      \$(\d+,\d+\.\d{2})
      \$(\d+)
      (\d+\.\d{2})
      Total[:\s]*\$?(\d+\.\d{2})                                          *)
Definition cents : Re.regex := cat_all [digits1; Re.Lit "."; d2].

Definition amount_patterns : list Re.pattern :=
  [ Re.Pattern (cat_all [Re.Lit "$"; Re.Group 1 cents]) 1 true;
    Re.Pattern
      (cat_all [Re.Lit "$";
            Re.Group 1 (cat_all [digits1; Re.Lit ","; digits1; Re.Lit "."; d2])]) 1 true;
    Re.Pattern (cat_all [Re.Lit "$"; Re.Group 1 digits1]) 1 true;
    Re.Pattern (Re.Group 1 cents) 1 true;
    Re.Pattern
      (cat_all [Re.Word "Total";
            Re.Star (Re.Class false [Re.IChar ":"; Re.ISpace]);
            Re.Opt (Re.Lit "$");
            Re.Group 1 cents]) 1 true ].

(** [location_patterns], each compiled with IGNORECASE:
      Costco\s+([^,\n]+)
      Store[:\s]+([^,\n]+)
      Location[:\s]+([^,\n]+)
      Warehouse[:\s]+([^,\n]+)                                            *)
Definition name_chars : Re.regex :=
  Re.Group 1 (Re.Plus (Re.Class true [Re.IChar ","; Re.IChar "010"])).

Definition colon_or_space : Re.regex :=
  Re.Plus (Re.Class false [Re.IChar ":"; Re.ISpace]).

Definition location_patterns : list Re.pattern :=
  [ Re.Pattern (cat_all [Re.Word "Costco"; Re.Plus Re.space; name_chars]) 1 true;
    Re.Pattern (cat_all [Re.Word "Store"; colon_or_space; name_chars]) 1 true;
    Re.Pattern (cat_all [Re.Word "Location"; colon_or_space; name_chars]) 1 true;
    Re.Pattern (cat_all [Re.Word "Warehouse"; colon_or_space; name_chars]) 1 true ].

(** The f-string that joins two texts with one space. *)
Definition combine (a b : string) : string :=
  String.append a (String.append " " b).

(** *** [_parse_date] *)

(** The inner loop: the first format that parses; a [ValueError] moves on
    to the next format. *)
Fixpoint try_formats (date_str : string) (fmts : list string)
  : option Datetime.datetime :=
  match fmts with
  | [] => None
  | fmt :: rest =>
      match Datetime.strptime date_str fmt with
      | Some d => Some d
      | None => try_formats date_str rest
      end
  end.

(** The outer loop: a pattern whose first match no format parses is passed
    over like one without a match. *)
Fixpoint try_date_patterns (combined_text : string) (ps : list Re.pattern)
  : option Datetime.datetime :=
  match ps with
  | [] => None
  | p :: rest =>
      match Re.findall p combined_text with
      | date_str :: _ =>
          match try_formats date_str formats with
          | Some d => Some d
          | None => try_date_patterns combined_text rest
          end
      | [] => try_date_patterns combined_text rest
      end
  end.

Definition _parse_date (date_text full_text : string) : option Datetime.datetime :=
  try_date_patterns (combine date_text full_text) date_patterns.

(** *** [_parse_amount] *)

Fixpoint try_amount_patterns (combined_text : string) (ps : list Re.pattern) : float :=
  match ps with
  | [] => 0%float
  | p :: rest =>
      match Re.findall p combined_text with
      | m :: _ =>
          let amount_str := Text.remove_char "," (Text.chars m) in
          match Text.float_of_chars amount_str with
          | Some x => x
          | None => try_amount_patterns combined_text rest
          end
      | [] => try_amount_patterns combined_text rest
      end
  end.

Definition _parse_amount (amount_text full_text : string) : float :=
  try_amount_patterns (combine amount_text full_text) amount_patterns.

(** *** [_parse_location] *)

Fixpoint try_location_patterns (combined_text : string) (ps : list Re.pattern)
  : option string :=
  match ps with
  | [] => None
  | p :: rest =>
      match Re.findall p combined_text with
      | m :: _ => Some (Text.strip m)
      | [] => try_location_patterns combined_text rest
      end
  end.

Definition is_keyword (word : string) : bool :=
  let w := Text.lower word in
  String.eqb w "costco" || String.eqb w "warehouse" || String.eqb w "store".

(** The fallback scan over [words]: at a keyword that is not the last
    word, the next three words at most. *)
Fixpoint scan_words (words : list string) : option string :=
  match words with
  | [] => None
  | word :: rest =>
      match rest with
      | _ :: _ =>
          if is_keyword word then Some (Text.join " " (firstn 3 rest))
          else scan_words rest
      | [] => None
      end
  end.

Definition _parse_location (location_text full_text : string) : string :=
  let combined_text := combine location_text full_text in
  match try_location_patterns combined_text location_patterns with
  | Some l => l
  | None =>
      match scan_words (Text.split combined_text) with
      | Some l => l
      | None => "Unknown Location"%string
      end
  end.

(** *** [_parse_receipt_data] *)

(** [d.get(key) or ...]: a missing key and an empty string are both falsy. *)
Definition truthy (o : option string) : option string :=
  match o with
  | Some s => if String.eqb s "" then None else Some s
  | None => None
  end.

Definition text_or_empty (o : option string) : string :=
  match o with Some s => s | None => ""%string end.

(** [now] is [int(time.time())] at the call. *)
Definition receipt_id_of (data : ScrapedData) (now : Z) : string :=
  let attrs := sd_attributes data in
  match truthy (attrs !! "data-receipt-id"%string) with
  | Some i => i
  | None =>
  match truthy (attrs !! "data-order-id"%string) with
  | Some i => i
  | None =>
  match truthy (attrs !! "data-transaction-id"%string) with
  | Some i => i
  | None =>
  match truthy (attrs !! "id"%string) with
  | Some i => i
  | None =>
      String.append "receipt_"
        (String.append (Text.str_of_int (sd_index data))
           (String.append "_" (Text.str_of_int now)))
  end end end end.

(** [None] is the [None] the source returns for a rejected candidate. *)
Definition _parse_receipt_data (data : ScrapedData) (now : Z) : option Receipt.t :=
  let receipt_id := receipt_id_of data now in
  let date_text := text_or_empty (sd_dateText data) in
  match _parse_date date_text (sd_text data) with
  | None => None
  | Some receipt_date =>
      let amount_text := text_or_empty (sd_amountText data) in
      let total_amount := _parse_amount amount_text (sd_text data) in
      if PrimFloat.leb total_amount 0 then None
      else
        let location_text := text_or_empty (sd_locationText data) in
        let location := _parse_location location_text (sd_text data) in
        let location :=
          if String.eqb location "" then "Unknown Location"%string else location in
        Some (Receipt.create receipt_id receipt_date location total_amount data)
  end.

(** *** Pages, time ranges and the batch *)

(** What the browser shows for one page: the containers the page script
    returns, each with the clock value at its parse, and whether a next
    page control is visible and enabled. *)
Record page : Type := mk_page {
  scan : list (ScrapedData * Z);
  has_next : bool
}.

Fixpoint _scrape_current_page (receipt_data : list (ScrapedData * Z)) : list Receipt.t :=
  match receipt_data with
  | [] => []
  | (data, now) :: rest =>
      match _parse_receipt_data data now with
      | Some receipt => receipt :: _scrape_current_page rest
      | None => _scrape_current_page rest
      end
  end.

(** The pagination loop over the pages the browser shows in turn. *)
Fixpoint _scrape_time_range (pages : list page) : list Receipt.t :=
  match pages with
  | [] => []
  | p :: rest =>
      match _scrape_current_page (scan p) with
      | [] => []
      | page_receipts =>
          page_receipts ++ (if has_next p then _scrape_time_range rest else [])
      end
  end.

Definition same_receipt (existing receipt : Receipt.t) : bool :=
  let '(y1, m1, d1) := Datetime.date (Receipt.date existing) in
  let '(y2, m2, d2) := Datetime.date (Receipt.date receipt) in
  ((y1 =? y2) && (m1 =? m2) && (d1 =? d2)) &&
  String.eqb (Receipt.location existing) (Receipt.location receipt) &&
  PrimFloat.ltb
    (PrimFloat.abs
       (PrimFloat.sub (Receipt.total_amount existing) (Receipt.total_amount receipt)))
    0.01%float.

Fixpoint any_same (receipts : list Receipt.t) (receipt : Receipt.t) : bool :=
  match receipts with
  | [] => false
  | existing :: rest =>
      if same_receipt existing receipt then true else any_same rest receipt
  end.

Definition _is_duplicate_receipt (receipt_batch : ReceiptBatch.t) (receipt : Receipt.t)
  : bool :=
  any_same (ReceiptBatch.receipts receipt_batch) receipt.

(** The body of the loop over [range_receipts]. *)
Definition add_with_detection (receipt_batch : ReceiptBatch.t) (receipt : Receipt.t)
  : ReceiptBatch.t :=
  let is_duplicate := _is_duplicate_receipt receipt_batch receipt in
  ReceiptBatch.add_receipt receipt_batch receipt is_duplicate.

(** What happens in one time range: whether [_select_time_range] selected
    it, the pages then shown ([None] when the pagination raises), and
    whether the delay that ends the iteration raises. *)
Record range_run : Type := mk_range_run {
  selected : bool;
  pages : option (list page);
  delay_raises : bool
}.

Definition process_range (receipt_batch : ReceiptBatch.t) (r : range_run)
  : ReceiptBatch.t :=
  if selected r then
    match pages r with
    | None => ReceiptBatch.add_failed receipt_batch
    | Some ps =>
        let b := fold_left add_with_detection (_scrape_time_range ps) receipt_batch in
        if delay_raises r then ReceiptBatch.add_failed b else b
    end
  else
    if delay_raises r then ReceiptBatch.add_failed receipt_batch else receipt_batch.

Definition time_ranges : list string :=
  ["Last 3 Months"; "Last 6 Months"; "Last 12 Months"; "2024"; "2023"; "2022"]%string.

(** [discover_all_receipts]: the loop over [time_ranges], [browser] telling
    what happens in each of them, from the empty batch of [__init__]. *)
Definition discover_all_receipts (browser : string -> range_run) : ReceiptBatch.t :=
  fold_left (fun receipt_batch time_range =>
               process_range receipt_batch (browser time_range))
    time_ranges ReceiptBatch.empty.

End ReceiptScraper.

(* ===================================================================== *)
(** ** authenticator.py *)
(* ===================================================================== *)

(** The state of the page as the driver reports it. A probe that raises
    is [None]. The sources wrap [is_visible] and [inner_text] in
    [try]/[except]; [count] is called outside of one, so that its
    exception leaves the caller. Selectors are the keys of the probes; they
    are written here without the quotation marks they carry in the
    sources. *)
Record Page : Type := mk_page_state {
  url : string;
  is_visible : string -> option bool;    (* page.locator(sel).is_visible() *)
  inner_text : string -> option string;  (* page.locator(sel).inner_text() *)
  count : string -> option Z             (* page.locator(sel).count() *)
}.

Module AuthResult.

Record t : Type := mk {
  success : bool;
  message : string;
  requires_2fa : bool;
  session_saved : bool
}.

(** [AuthResult(success, message)] with the defaults of the other fields. *)
Definition make (success : bool) (message : string) : t :=
  {| success := success; message := message;
     requires_2fa := false; session_saved := false |}.

Definition with_session_saved (r : t) : t :=
  {| success := success r; message := message r;
     requires_2fa := requires_2fa r; session_saved := true |}.

End AuthResult.

Module CostcoAuthenticator.

Definition error_indicators : list string :=
  [".error"; ".alert-danger"; ".field-validation-error"; "[role=alert]";
   ".invalid-feedback"]%string.

Definition tfa_indicators : list string :=
  ["input[placeholder*=code i]"; "input[placeholder*=verification i]";
   ":has-text(verification code)"; ":has-text(two-factor)";
   ":has-text(authenticator)"]%string.

Definition login_fields : string :=
  "input[type=email], input[type=password], input[name=logonId]"%string.

Definition success_indicators : list string :=
  [":has-text(Welcome)"; ":has-text(My Account)"; ":has-text(Sign Out)";
   ":has-text(Logout)"; ".user-info"; ".account-info"]%string.

Definition logged_in_indicators : list string :=
  [":has-text(Sign Out)"; ":has-text(My Account)"; ".user-info"]%string.

Definition email_selectors : list string :=
  ["input[type=email]"; "input[name=logonId]"; "input[id=signInName]";
   "input[autocomplete=email]"; "input[autocomplete=username]";
   "input[placeholder*=email i]"; "input[placeholder*=username i]"]%string.

Definition password_selectors : list string :=
  ["input[type=password]"; "input[name=password]"; "input[id=password]";
   "input[autocomplete=current-password]"]%string.

Definition submit_selectors : list string :=
  ["button[type=submit]"; "input[type=submit]"; "button:has-text(Sign In)";
   "button:has-text(Log In)"; "button:has-text(Continue)"; ".signin-button";
   "#signInBtn"]%string.

(** The loop over [error_indicators]: the text of the first selector that
    is visible and whose text can be read; a probe that raises moves on to
    the next selector. *)
Fixpoint first_error_text (page : Page) (selectors : list string) : option string :=
  match selectors with
  | [] => None
  | selector :: rest =>
      match is_visible page selector with
      | Some true =>
          match inner_text page selector with
          | Some error_text => Some error_text
          | None => first_error_text page rest
          end
      | _ => first_error_text page rest
      end
  end.

(** A loop that returns at the first visible selector. *)
Fixpoint any_visible (page : Page) (selectors : list string) : bool :=
  match selectors with
  | [] => false
  | selector :: rest =>
      match is_visible page selector with
      | Some true => true
      | _ => any_visible page rest
      end
  end.

(** The first visible selector, as the field searches keep it. *)
Fixpoint first_visible (page : Page) (selectors : list string) : option string :=
  match selectors with
  | [] => None
  | selector :: rest =>
      match is_visible page selector with
      | Some true => Some selector
      | _ => first_visible page rest
      end
  end.

Definition on_login_url (current_url : string) : bool :=
  let u := Text.lower current_url in
  Text.contains "login" u || Text.contains "signin" u || Text.contains "logon" u.

(** The end of [_check_login_result], from the loop over
    [success_indicators] on. *)
Definition success_or_unclear (page : Page) : AuthResult.t :=
  if any_visible page success_indicators then
    AuthResult.make true "Login successful"
  else if negb (on_login_url (url page)) then
    AuthResult.make true "Login successful - redirected"
  else
    AuthResult.make false "Login status unclear".

(** [page] is the page as it is after the three seconds the source waits.
    [None] is the exception of [login_fields.count()], which is called,
    outside of any [try], when the address is still a login address. *)
Definition _check_login_result (page : Page) : option AuthResult.t :=
  let current_url := url page in
  match first_error_text page error_indicators with
  | Some error_text =>
      Some (AuthResult.make false (String.append "Login error: " error_text))
  | None =>
      if any_visible page tfa_indicators then
        Some {| AuthResult.success := false;
                AuthResult.message := "2FA verification required";
                AuthResult.requires_2fa := true;
                AuthResult.session_saved := false |}
      else if on_login_url current_url then
        match count page login_fields with
        | None => None
        | Some n =>
            if 0 <? n then
              Some (AuthResult.make false "Still on login page after submission")
            else Some (success_or_unclear page)
        end
      else Some (success_or_unclear page)
  end.

Definition _is_logged_in (page : Page) : bool :=
  any_visible page logged_in_indicators.

(** What the driver does during one attempt: the page after [goto] and
    the delay that follows it (or that one of them raises), which driver
    actions raise while the form is filled and submitted, and the page
    after the submission. *)
Record attempt_env : Type := mk_attempt_env {
  goto_raises : bool;
  landing : Page;
  wait_for_form_raises : bool;
  type_raises : string -> bool;      (* human_type(selector, ...) *)
  click_raises : string -> bool;     (* human_click(selector) *)
  press_enter_raises : bool;
  response_wait_raises : bool;
  after_submit : Page
}.

Definition _fill_login_form (env : attempt_env) : bool :=
  if wait_for_form_raises env then false
  else
    match first_visible (landing env) email_selectors with
    | None => false
    | Some email_field =>
        if type_raises env email_field then false
        else
          match first_visible (landing env) password_selectors with
          | None => false
          | Some password_field => negb (type_raises env password_field)
          end
    end.

(** The loop over [submit_selectors]: a click that raises is caught and the
    next selector is tried. *)
Fixpoint click_first (env : attempt_env) (selectors : list string) : bool :=
  match selectors with
  | [] => false
  | selector :: rest =>
      match is_visible (landing env) selector with
      | Some true =>
          if click_raises env selector then click_first env rest else true
      | _ => click_first env rest
      end
  end.

Definition _submit_login_form (env : attempt_env) : bool :=
  let submitted := click_first env submit_selectors in
  if negb submitted && press_enter_raises env then false
  else negb (response_wait_raises env).

(** [None] is an exception that leaves [_attempt_login]: that of [goto]
    or of the delay after it, or that of [_check_login_result].
    [_handle_popups] catches what its probes and clicks raise and returns
    nothing. *)
Definition _attempt_login (env : attempt_env) : option AuthResult.t :=
  if goto_raises env then None
  else if _is_logged_in (landing env) then
    Some (AuthResult.make true "Already logged in")
  else if negb (_fill_login_form env) then
    Some (AuthResult.make false "Could not find or fill login form")
  else if negb (_submit_login_form env) then
    Some (AuthResult.make false "Failed to submit login form")
  else _check_login_result (after_submit env).

(** What [login] does besides returning. *)
Inductive event : Type :=
| EAttempt (attempt : Z)        (* _attempt_login(username, password, attempt) *)
| ESaveSession                  (* self.browser.save_session() *)
| EBackoffSleep (attempt : Z)   (* time.sleep(random.uniform(3, 8) * attempt) *)
| EErrorSleep.                  (* time.sleep(random.uniform(5, 10)) *)

Definition failed_message (max_retries : Z) : string :=
  String.append "Login failed after "
    (String.append (Text.str_of_int max_retries) " attempts").

(** The [for] loop of [login] from [attempt] on, [remaining] iterations
    left; [envs n] is what the driver does during attempt [n]. *)
Fixpoint login_from (remaining : nat) (attempt max_retries : Z)
    (envs : Z -> attempt_env) (trace : list event)
  : AuthResult.t * list event :=
  match remaining with
  | O => (AuthResult.make false (failed_message max_retries), trace)
  | S remaining' =>
      let trace := trace ++ [EAttempt attempt] in
      match _attempt_login (envs attempt) with
      | Some result =>
          if AuthResult.success result then
            (AuthResult.with_session_saved result, trace ++ [ESaveSession])
          else if AuthResult.requires_2fa result then
            (result, trace)
          else
            let trace :=
              if attempt <? max_retries
              then trace ++ [EBackoffSleep attempt] else trace in
            login_from remaining' (attempt + 1) max_retries envs trace
      | None =>
          let trace :=
            if attempt <? max_retries then trace ++ [EErrorSleep] else trace in
          login_from remaining' (attempt + 1) max_retries envs trace
      end
  end.

(** [login]: [range(1, max_retries + 1)] has [max_retries] iterations, none
    when [max_retries <= 0]. *)
Definition login (max_retries : Z) (envs : Z -> attempt_env)
  : AuthResult.t * list event :=
  login_from (Z.to_nat max_retries) 1 max_retries envs [].

End CostcoAuthenticator.

(* ===================================================================== *)
(** ** error_handler.py *)
(* ===================================================================== *)

(** Durations in microseconds. *)
Definition seconds (n : Z) : Z := n * 1000000.

(** *** The clock of the rate limiter

    [time.time()], the recorded request times and the durations are
    binary64 numbers of seconds in the source. Here they are whole numbers
    of ticks of 2^-22 second, which is the spacing of binary64 between
    2^30 and 2^31 seconds, where the clock reads from 2004 to 2038. A
    whole number of ticks below 2^53 in absolute value is a binary64
    number; so on times between 0 and [clock_bound] every subtraction of
    [wait_if_needed] has a result that is a binary64 number, is therefore
    exact, and is written as the subtraction of [Z], and the comparisons
    are those of [Z]. The delays drawn at random are taken at the
    resolution of a tick; the source only passes them to [time.sleep]. *)
Definition ticks_per_second : Z := 4194304.

Definition clock_seconds (n : Z) : Z := n * ticks_per_second.

(** 2^31 seconds less two minutes: for times below it,
    [60 - (now - oldest_request)] stays below 2^53 ticks. *)
Definition clock_bound : Z := clock_seconds (2 ^ 31 - 120).

(** What a rate-limited call does to the outside, in the order it does it. *)
Inductive effect : Type :=
| Slept (d : Z)        (* time.sleep(d) *)
| Recorded (t : Z).    (* self.last_request_times.append(t) *)

(** The clock and the log of the effects so far, oldest first. *)
Record world : Type := mk_world {
  clock : Z;
  log : list effect
}.

(** The world after a sleep of [d]. *)
Definition slept (d : Z) (w : world) : world :=
  {| clock := clock w + d; log := log w ++ [Slept d] |}.

(** [time.sleep(d)]; [None] is the [ValueError] of a negative [d]. *)
Definition sleep (d : Z) (w : world) : option world :=
  if d <? 0 then None else Some (slept d w).

Definition record (t : Z) (w : world) : world :=
  {| clock := clock w; log := log w ++ [Recorded t] |}.

Module RateLimiter.

Record t : Type := mk {
  min_delay : Z;
  max_delay : Z;
  requests_per_minute : Z;
  last_request_times : list Z
}.

(** [RateLimiter()] *)
Definition default : t :=
  {| min_delay := clock_seconds 2; max_delay := clock_seconds 8;
     requests_per_minute := 10; last_request_times := [] |}.

(** [min(l)]; [None] is the [ValueError] of an empty list. *)
Definition list_min (l : list Z) : option Z :=
  match l with
  | [] => None
  | x :: rest => Some (fold_left Z.min rest x)
  end.

(** The list comprehension that drops the old requests. *)
Definition recent (now : Z) (times : list Z) : list Z :=
  let cutoff := now - clock_seconds 60 in
  List.filter (fun t => cutoff <? t) times.

(** The rate-limit block of [wait_if_needed]: the world when the block is
    left. *)
Definition limit (self : t) (times : list Z) (w : world) : option world :=
  let now := clock w in
  if requests_per_minute self <=? Z.of_nat (length times) then
    match list_min times with
    | None => None
    | Some oldest_request =>
        let wait_time := clock_seconds 60 - (now - oldest_request) in
        if 0 <? wait_time then sleep wait_time w else Some w
    end
  else Some w.

(** [wait_if_needed], [delay] being the draw of
    [random.uniform(self.min_delay, self.max_delay)]. [None] is an
    exception that leaves the call before the request is recorded: that
    of [min] in the rate-limit block, or that of [time.sleep] for a
    negative [delay]. *)
Definition wait_if_needed (self : t) (delay : Z) (w : world) : option (t * world) :=
  let now := clock w in
  let times := recent now (last_request_times self) in
  match limit self times w with
  | None => None
  | Some w1 =>
      match sleep delay w1 with
      | None => None
      | Some w2 =>
          Some ({| min_delay := min_delay self;
                   max_delay := max_delay self;
                   requests_per_minute := requests_per_minute self;
                   last_request_times := times ++ [now] |}, record now w2)
      end
  end.

(** A gated call: the work done before the gate is reached takes [idle],
    and the gate draws [delay]. *)
Record call : Type := mk_call {
  idle : Z;
  delay : Z
}.

Definition gated_call (st : t * world) (c : call) : option (t * world) :=
  let '(self, w) := st in
  wait_if_needed self (delay c) {| clock := clock w + idle c; log := log w |}.

(** The calls in turn; an exception ends the run. *)
Fixpoint gated_calls (st : t * world) (cs : list call) : option (t * world) :=
  match cs with
  | [] => Some st
  | c :: rest =>
      match gated_call st c with
      | Some st' => gated_calls st' rest
      | None => None
      end
  end.

End RateLimiter.

Module ErrorRecovery.

Record t : Type := mk {
  error_counts : gmap string Z;
  last_error_time : gmap string Datetime.datetime
}.

(** [ErrorRecovery()] *)
Definition new : t := {| error_counts := ∅; last_error_time := ∅ |}.

(** [now] is [datetime.now()] at the call. *)
Definition record_error (self : t) (error_type : string) (now : Datetime.datetime) : t :=
  {| error_counts :=
       <[error_type := default 0 (error_counts self !! error_type) + 1]>
         (error_counts self);
     last_error_time := <[error_type := now]> (last_error_time self) |}.

Definition should_continue (self : t) (error_type : string)
    (max_errors time_window : Z) (now : Datetime.datetime) : bool :=
  let error_count := default 0 (error_counts self !! error_type) in
  let last_error := last_error_time self !! error_type in
  if max_errors <=? error_count then
    match last_error with
    | Some last =>
        if Datetime.seconds (Datetime.sub now last) <? time_window
        then false else true
    | None => true
    end
  else true.

Definition reset_error_count (self : t) (error_type : string) : t :=
  {| error_counts := <[error_type := 0]> (error_counts self);
     last_error_time := delete error_type (last_error_time self) |}.

End ErrorRecovery.

(** *** Exceptions and the decorators of error_handler.py *)

(** The exception classes the decorators tell apart; [OtherError] is any
    other subclass of [Exception], by its name. *)
Inductive exception_class : Type :=
| CostcoScrapingError
| AuthenticationError
| BotDetectionError
| RateLimitError
| PageNavigationError
| DataExtractionError
| TypeError
| OtherError (name : string).

(** An exception: its class and [str(e)]. *)
Record exception : Type := mk_exception {
  exc_class : exception_class;
  exc_message : string
}.

(** What a call does: it returns a value or raises. *)
Inductive outcome (V : Type) : Type :=
| Returned (v : V)
| Raised (e : exception).

Arguments Returned {V} v.
Arguments Raised {V} e.

(** [time.sleep] of a negative duration. *)
Definition sleep_error : exception :=
  {| exc_class := OtherError "ValueError";
     exc_message := "sleep length must be non-negative" |}.

(** [raise None], which is what [raise last_exception] does when no
    exception was kept. *)
Definition raise_none : exception :=
  {| exc_class := TypeError;
     exc_message := "exceptions must derive from BaseException" |}.

(** What [retry_on_failure] did: the outcome, how many times it called
    the function, and the sleeps it completed, oldest first. *)
Record retry_run (V : Type) : Type := mk_retry_run {
  retry_outcome : outcome V;
  retry_calls : nat;
  retry_sleeps : list Z
}.

Arguments mk_retry_run {V} _ _ _.
Arguments retry_outcome {V} _.
Arguments retry_calls {V} _.
Arguments retry_sleeps {V} _.

Section RetryOnFailure.

Variable V : Type.

(** The arguments of the decorator: [exceptions] as the test
    [isinstance(e, exceptions)], durations in microseconds. *)
Variable max_retries : Z.
Variable delay : Z.
Variable exponential_backoff : bool.
Variable catches : exception -> bool.

(** The decorated function, by the outcome of its n-th call (from 0), and
    the draw of [random.uniform(0, wait_time * 0.1)] before the retry that
    follows the n-th call. *)
Variable func : nat -> outcome V.
Variable jitter : nat -> Z.

Definition wait_before_retry (attempt : nat) : Z :=
  let wait_time := delay in
  let wait_time :=
    if exponential_backoff then wait_time * 2 ^ Z.of_nat attempt else wait_time in
  wait_time + jitter attempt.

(** The loop of [wrapper] from [attempt] on, [remaining] iterations left.
    [time.sleep] raises for a negative duration; it is called in the
    [except] block, so that its exception leaves the wrapper. *)
Fixpoint retry_from (remaining attempt : nat) (last_exception : option exception)
    (sleeps : list Z) : retry_run V :=
  match remaining with
  | O =>
      mk_retry_run
        (Raised (match last_exception with Some e => e | None => raise_none end))
        attempt sleeps
  | S remaining' =>
      match func attempt with
      | Returned v => mk_retry_run (Returned v) (S attempt) sleeps
      | Raised e =>
          if catches e then
            if Z.of_nat attempt =? max_retries
            then mk_retry_run (Raised e) (S attempt) sleeps
            else
              let wait_time := wait_before_retry attempt in
              if wait_time <? 0
              then mk_retry_run (Raised sleep_error) (S attempt) sleeps
              else retry_from remaining' (S attempt) (Some e)
                     (sleeps ++ [wait_time])
          else mk_retry_run (Raised e) (S attempt) sleeps
      end
  end.

(** [retry_on_failure(max_retries, delay, exponential_backoff,
    exceptions)(func)(...)]: [range(max_retries + 1)] iterations. *)
Definition retry_on_failure : retry_run V :=
  retry_from (Z.to_nat (max_retries + 1)) 0 None [].

End RetryOnFailure.

Arguments retry_from {V} max_retries delay exponential_backoff catches func jitter
  remaining attempt last_exception sleeps.
Arguments retry_on_failure {V} max_retries delay exponential_backoff catches func jitter.

Definition bot_indicators : list string :=
  ["captcha"; "bot detected"; "automated"; "suspicious activity"; "rate limit";
   "too many requests"; "blocked"; "access denied"]%string.

(** [any(indicator in error_msg for indicator in indicators)] *)
Definition mentions_any (indicators : list string) (error_msg : string) : bool :=
  existsb (fun indicator => Text.contains indicator error_msg) indicators.

(** [handle_bot_detection(func)(...)], on the outcome of [func]. *)
Definition handle_bot_detection {V : Type} (o : outcome V) : outcome V :=
  match o with
  | Returned v => Returned v
  | Raised e =>
      let error_msg := Text.lower (exc_message e) in
      if mentions_any bot_indicators error_msg then
        Raised {| exc_class := BotDetectionError;
                  exc_message :=
                    String.append "Bot detection triggered: " (exc_message e) |}
      else Raised e
  end.

(** [safe_page_operation(timeout)(func)(...)], on the outcome of [func];
    [timeout] is in seconds, [elapsed] is the time the call took, in
    microseconds. *)
Definition safe_page_operation {V : Type} (timeout : Z) (elapsed : Z)
    (o : outcome V) : outcome V :=
  match o with
  | Returned v => Returned v
  | Raised e =>
      if seconds timeout <=? elapsed then
        Raised {| exc_class := PageNavigationError;
                  exc_message :=
                    String.append "Operation timed out after "
                      (String.append (Text.str_of_int timeout)
                         (String.append "s: " (exc_message e))) |}
      else
        let error_msg := Text.lower (exc_message e) in
        if Text.contains "timeout" error_msg then
          Raised {| exc_class := PageNavigationError;
                    exc_message :=
                      String.append "Page operation timeout: " (exc_message e) |}
        else if Text.contains "not found" error_msg
                || Text.contains "element not found" error_msg then
          Raised {| exc_class := DataExtractionError;
                    exc_message :=
                      String.append "Required element not found: " (exc_message e) |}
        else if Text.contains "navigation" error_msg then
          Raised {| exc_class := PageNavigationError;
                    exc_message :=
                      String.append "Navigation failed: " (exc_message e) |}
        else Raised e
  end.

(** [record_error] for each event of the list in turn; an event is the
    kind of the error and [datetime.now()] at the call. *)
Definition record_all (self : ErrorRecovery.t)
    (events : list (string * Datetime.datetime)) : ErrorRecovery.t :=
  fold_left (fun s ev => ErrorRecovery.record_error s (fst ev) (snd ev)) events self.

(** *** The SQLite store of database.py *)

Module ReceiptDatabase.

(** A row of the table [receipts]: the values the INSERT of [save_receipt]
    binds, the date kept as the [datetime] whose [isoformat()] is stored
    and the raw data as the value whose JSON text is stored. *)
Record receipt_row : Type := mk_receipt_row {
  row_id : string;
  row_date : Datetime.datetime;
  row_location : string;
  row_total_amount : float;
  row_currency : string;
  row_receipt_number : option string;
  row_member_number : option string;
  row_tax_amount : option float;
  row_subtotal_amount : option float;
  row_pdf_path : option string;
  row_raw_data : option ScrapedData
}.

(** A row of the table [receipt_items], without its AUTOINCREMENT key. *)
Record item_row : Type := mk_item_row {
  item_receipt_id : string;
  item_name : option string;
  item_price : option string;
  item_quantity : option string;
  item_number : option string;
  item_department : option string
}.

(** The database file: [receipts] by its primary key, and the rows of
    [receipt_items] in the order of their insertion. *)
Record t : Type := mk {
  receipts : gmap string receipt_row;
  receipt_items : list item_row
}.

(** The tables as [_init_database] creates them. *)
Definition empty : t := {| receipts := ∅; receipt_items := [] |}.

(** SQLite binds a NaN as NULL. *)
Definition null_if_nan (x : option float) : option float :=
  match x with
  | Some f => if PrimFloat.is_nan f then None else Some f
  | None => None
  end.

Definition row_of (receipt : Receipt.t) : receipt_row :=
  {| row_id := Receipt.id receipt;
     row_date := Receipt.date receipt;
     row_location := Receipt.location receipt;
     row_total_amount := Receipt.total_amount receipt;
     row_currency := Receipt.currency receipt;
     row_receipt_number := Receipt.receipt_number receipt;
     row_member_number := Receipt.member_number receipt;
     row_tax_amount := null_if_nan (Receipt.tax_amount receipt);
     row_subtotal_amount := null_if_nan (Receipt.subtotal_amount receipt);
     row_pdf_path := Receipt.pdf_path receipt;
     row_raw_data := Receipt.raw_data receipt |}.

(** [item.get(...)] for the five columns. *)
Definition item_row_of (receipt_id : string) (item : gmap string string) : item_row :=
  {| item_receipt_id := receipt_id;
     item_name := item !! "name"%string;
     item_price := item !! "price"%string;
     item_quantity := item !! "quantity"%string;
     item_number := item !! "item_number"%string;
     item_department := item !! "department"%string |}.

(** [save_receipt(receipt)]. [raises] tells whether the connection or one
    of the statements raises; the transaction is then rolled back, as it
    is when the NOT NULL constraint of [total_amount] rejects a NaN. The
    result is the database after the call and the value returned. *)
Definition save_receipt (self : t) (raises : bool) (receipt : Receipt.t) : t * bool :=
  if raises then (self, false)
  else
    match receipts self !! Receipt.id receipt with
    | Some _ => (self, false)
    | None =>
        if PrimFloat.is_nan (Receipt.total_amount receipt) then (self, false)
        else
          ({| receipts := <[Receipt.id receipt := row_of receipt]> (receipts self);
              receipt_items :=
                receipt_items self
                ++ map (item_row_of (Receipt.id receipt)) (Receipt.items receipt) |},
           true)
    end.

Record stats : Type := mk_stats {
  saved : Z;
  skipped : Z;
  failed : Z
}.

(** The loop of [save_batch] from receipt number [i] on; [raises i] is
    the [raises] of the call for receipt [i]. [save_receipt] catches
    every exception, so the [except] branch of the loop is never
    entered. *)
Fixpoint save_from (self : t) (raises : nat -> bool) (i : nat)
    (receipts : list Receipt.t) (st : stats) : t * stats :=
  match receipts with
  | [] => (self, st)
  | receipt :: rest =>
      let (self', ok) := save_receipt self (raises i) receipt in
      let st' :=
        if ok
        then {| saved := saved st + 1; skipped := skipped st; failed := failed st |}
        else {| saved := saved st; skipped := skipped st + 1; failed := failed st |} in
      save_from self' raises (S i) rest st'
  end.

(** [save_batch(batch)] *)
Definition save_batch (self : t) (raises : nat -> bool) (batch : ReceiptBatch.t)
  : t * stats :=
  save_from self raises 0 (ReceiptBatch.receipts batch)
    {| saved := 0; skipped := 0; failed := 0 |}.

(** [receipt_exists(receipt_id)] *)
Definition receipt_exists (self : t) (raises : bool) (receipt_id : string) : bool :=
  if raises then false
  else match receipts self !! receipt_id with Some _ => true | None => false end.

(** [delete_receipt(receipt_id)]: the two DELETEs are committed only when
    the second one removed a row; otherwise the connection is closed
    without a commit and nothing is changed. *)
Definition delete_receipt (self : t) (raises : bool) (receipt_id : string) : t * bool :=
  if raises then (self, false)
  else
    match receipts self !! receipt_id with
    | Some _ =>
        ({| receipts := delete receipt_id (receipts self);
            receipt_items :=
              List.filter
                (fun item => negb (String.eqb (item_receipt_id item) receipt_id))
                (receipt_items self) |},
         true)
    | None => (self, false)
    end.

(** A call that writes. *)
Inductive op : Type :=
| Save (raises : bool) (receipt : Receipt.t)
| Delete (raises : bool) (receipt_id : string).

Definition apply (self : t) (o : op) : t :=
  match o with
  | Save raises receipt => fst (save_receipt self raises receipt)
  | Delete raises receipt_id => fst (delete_receipt self raises receipt_id)
  end.

(** The database after the calls, from a new file. *)
Definition run (ops : list op) : t := fold_left apply ops empty.

End ReceiptDatabase.

(** *** The end of [main] *)

(** [main] from [discover_all_receipts] on: the batch found, and the
    database and statistics after [save_batch], or [None] when the batch
    holds no receipt and [main] returns before saving. A [ReceiptBatch]
    is falsy exactly when its [__len__] is 0. *)
Definition scrape_and_save (browser : string -> ReceiptScraper.range_run)
    (db : ReceiptDatabase.t) (raises : nat -> bool)
  : ReceiptBatch.t * option (ReceiptDatabase.t * ReceiptDatabase.stats) :=
  let receipt_batch := ReceiptScraper.discover_all_receipts browser in
  if (length (ReceiptBatch.receipts receipt_batch) =? 0)%nat
  then (receipt_batch, None)
  else (receipt_batch, Some (ReceiptDatabase.save_batch db raises receipt_batch)).

(* ===================================================================== *)
(** ** The properties, as predicates over the embedding *)
(* ===================================================================== *)

(** The counters of a batch agree with each other and with the list. *)
Definition counters_consistent (b : ReceiptBatch.t) : Prop :=
  ReceiptBatch.total_count b =
    ReceiptBatch.scraped_count b + ReceiptBatch.duplicate_count b
    + ReceiptBatch.failed_count b
  /\ ReceiptBatch.scraped_count b = Z.of_nat (length (ReceiptBatch.receipts b)).

(** Same calendar date, identical location, amounts less than 0.01 apart
    (the subtraction and the comparison are those of binary64). *)
Definition same_purchase (existing candidate : Receipt.t) : Prop :=
  Datetime.date (Receipt.date existing) = Datetime.date (Receipt.date candidate)
  /\ Receipt.location existing = Receipt.location candidate
  /\ PrimFloat.ltb
       (PrimFloat.abs
          (PrimFloat.sub (Receipt.total_amount existing)
             (Receipt.total_amount candidate)))
       0.01%float = true.

(** No pattern of the list has a match in the text. *)
Definition no_match (ps : list Re.pattern) (combined_text : string) : Prop :=
  Forall (fun p => Re.findall p combined_text = []) ps.

Definition march_15_2024 : Datetime.datetime :=
  Datetime.mk_datetime 2024 3 15 0 0 0 0.

(** A container whose only text is a banner naming the store. *)
Definition store_banner : ScrapedData :=
  {| sd_index := 0;
     sd_html := "<div class=receipt>Costco Store, 03/15/2024 $45.67</div>";
     sd_text := "Costco Store, 03/15/2024 $45.67";
     sd_attributes := ∅;
     sd_dateText := Some "03/15/2024"%string;
     sd_amountText := Some "$45.67"%string;
     sd_locationText := Some "Costco Store, 03/15/2024 $45.67"%string |}.

(** A container dated in words. *)
Definition worded_date : ScrapedData :=
  {| sd_index := 0;
     sd_html := "<div class=receipt>March 15, 2024 Seattle $45.67</div>";
     sd_text := "March 15, 2024 Seattle $45.67";
     sd_attributes := ∅;
     sd_dateText := None;
     sd_amountText := Some "$45.67"%string;
     sd_locationText := None |}.

(** A time range showing one page with the given containers. *)
Definition one_page_run (containers : list (ScrapedData * Z)) : ReceiptScraper.range_run :=
  {| ReceiptScraper.selected := true;
     ReceiptScraper.pages :=
       Some [ {| ReceiptScraper.scan := containers;
                 ReceiptScraper.has_next := false |} ];
     ReceiptScraper.delay_raises := false |}.

(** A time range the selector does not offer. *)
Definition unselected_run : ReceiptScraper.range_run :=
  {| ReceiptScraper.selected := false;
     ReceiptScraper.pages := None;
     ReceiptScraper.delay_raises := false |}.

(** A browser that shows the containers under "Last 3 Months" only. *)
Definition last_3_months_only (containers : list (ScrapedData * Z))
  : string -> ReceiptScraper.range_run :=
  fun time_range =>
    if String.eqb time_range "Last 3 Months" then one_page_run containers
    else unselected_run.

(** A browser that shows the same page under every time range. *)
Definition same_page_everywhere (containers : list (ScrapedData * Z))
  : string -> ReceiptScraper.range_run :=
  fun _ => one_page_run containers.

(** The text has no decimal digit. *)
Definition digit_free (s : list ascii) : Prop :=
  Forall (fun c => Text.is_digit c = false) s.

(** Every match of the expression consumes a decimal digit: a syntactic
    sufficient condition. *)
Fixpoint needs_digit (r : Re.regex) : bool :=
  match r with
  | Re.Class false [Re.IDigit] => true
  | Re.Cat r1 r2 => needs_digit r1 || needs_digit r2
  | Re.Alt r1 r2 => needs_digit r1 && needs_digit r2
  | Re.Group _ r1 => needs_digit r1
  | _ => false
  end.

(** What the extraction promises of a receipt it emits. *)
Definition amount_positive (r : Receipt.t) : Prop :=
  PrimFloat.ltb 0 (Receipt.total_amount r) = true.

Definition date_valid (r : Receipt.t) : Prop :=
  Datetime.valid (Receipt.date r) = true.

Definition location_nonempty (r : Receipt.t) : Prop :=
  Receipt.location r <> ""%string.

(** What the two guards of [_parse_receipt_data] establish: the date is a
    calendar date and the comparison [total_amount <= 0] is false. *)
Definition passed_guards (r : Receipt.t) : Prop :=
  date_valid r /\ PrimFloat.leb (Receipt.total_amount r) 0 = false.

(** A receipt as the scraper builds it, and a batch that has accepted it. *)
Definition seattle_receipt : Receipt.t :=
  Receipt.create "r-1001" march_15_2024 "Costco Seattle Warehouse" 45.67%float
    worded_date.

Definition seattle_batch : ReceiptBatch.t :=
  ReceiptBatch.add_receipt ReceiptBatch.empty seattle_receipt false.

(** *** Login-result evaluation, in the words of the decision list *)

(** The selector shows a visible element whose text is [text]. *)
Definition shows (page : Page) (selector text : string) : Prop :=
  is_visible page selector = Some true /\ inner_text page selector = Some text.

(** Some selector of the list shows a visible element. *)
Definition some_visible (page : Page) (selectors : list string) : Prop :=
  exists selector, In selector selectors /\ is_visible page selector = Some true.

(** An error indicator is visible. *)
Definition error_shown (page : Page) : Prop :=
  exists selector text,
    In selector CostcoAuthenticator.error_indicators /\ shows page selector text.

(** [text] is the text of the first error indicator, in the order of the
    list, that is visible. *)
Definition first_error_shown (page : Page) (text : string) : Prop :=
  exists before selector after,
    CostcoAuthenticator.error_indicators = before ++ selector :: after
    /\ shows page selector text
    /\ forall s, In s before -> ~ exists t, shows page s t.

(** The address still reads as a login, sign-in or logon page. *)
Definition login_url (current_url : string) : Prop :=
  exists term, In term ["login"; "signin"; "logon"]%string
               /\ Text.contains term (Text.lower current_url) = true.

(** Rule 3: still at a login address, a login-form field present. *)
Definition still_on_login (page : Page) : Prop :=
  login_url (url page)
  /\ exists n, count page CostcoAuthenticator.login_fields = Some n /\ 0 < n.

(** Still at a login address, and counting the login-form fields raises. *)
Definition form_check_raises (page : Page) : Prop :=
  login_url (url page) /\ count page CostcoAuthenticator.login_fields = None.

(** What [_check_login_result] does once neither an error text nor a
    two-factor indicator was found. *)
Definition form_check (page : Page) : option AuthResult.t :=
  if CostcoAuthenticator.on_login_url (url page) then
    match count page CostcoAuthenticator.login_fields with
    | None => None
    | Some n =>
        if 0 <? n then
          Some (AuthResult.make false "Still on login page after submission")
        else Some (CostcoAuthenticator.success_or_unclear page)
    end
  else Some (CostcoAuthenticator.success_or_unclear page).

Definition two_factor_result : AuthResult.t :=
  {| AuthResult.success := false;
     AuthResult.message := "2FA verification required";
     AuthResult.requires_2fa := true;
     AuthResult.session_saved := false |}.

(** A page with an error banner and a sign-out link, away from the login
    address. *)
Definition banner_page : Page :=
  {| url := "https://www.costco.com/myaccount";
     is_visible := fun selector =>
       if String.eqb selector ".alert-danger" then Some true
       else if String.eqb selector ":has-text(Sign Out)" then Some true
       else Some false;
     inner_text := fun selector =>
       if String.eqb selector ".alert-danger"
       then Some "Invalid email or password"%string else None;
     count := fun _ => Some 0 |}.

(** A page with an error banner whose text cannot be read and a sign-out
    link, away from the login address. *)
Definition unreadable_banner_page : Page :=
  {| url := "https://www.costco.com/myaccount";
     is_visible := fun selector =>
       if String.eqb selector ".error" then Some true
       else if String.eqb selector ":has-text(Sign Out)" then Some true
       else Some false;
     inner_text := fun _ => None;
     count := fun _ => Some 0 |}.

(** A login page on which nothing is visible and the login-form fields
    cannot be counted. *)
Definition uncountable_form_page : Page :=
  {| url := "https://www.costco.com/LogonForm";
     is_visible := fun _ => Some false;
     inner_text := fun _ => None;
     count := fun _ => None |}.

(** A page that asks for a verification code. *)
Definition code_page : Page :=
  {| url := "https://www.costco.com/LogonForm";
     is_visible := fun selector =>
       if String.eqb selector "input[placeholder*=code i]" then Some true
       else Some false;
     inner_text := fun _ => None;
     count := fun _ => Some 1 |}.

(** A login page on which nothing of interest is visible but the form. *)
Definition form_page : Page :=
  {| url := "https://www.costco.com/LogonForm";
     is_visible := fun selector =>
       if String.eqb selector "input[type=email]" then Some true
       else if String.eqb selector "input[type=password]" then Some true
       else if String.eqb selector "button[type=submit]" then Some true
       else Some false;
     inner_text := fun _ => None;
     count := fun _ => Some 2 |}.

(** *** Login attempts *)

(** An attempt whose navigation raises. *)
Definition broken_attempt : CostcoAuthenticator.attempt_env :=
  {| CostcoAuthenticator.goto_raises := true;
     CostcoAuthenticator.landing := form_page;
     CostcoAuthenticator.wait_for_form_raises := false;
     CostcoAuthenticator.type_raises := fun _ => false;
     CostcoAuthenticator.click_raises := fun _ => false;
     CostcoAuthenticator.press_enter_raises := false;
     CostcoAuthenticator.response_wait_raises := false;
     CostcoAuthenticator.after_submit := form_page |}.

(** An attempt that fills and submits the form and lands on [after]. *)
Definition submitted_attempt (after : Page) : CostcoAuthenticator.attempt_env :=
  {| CostcoAuthenticator.goto_raises := false;
     CostcoAuthenticator.landing := form_page;
     CostcoAuthenticator.wait_for_form_raises := false;
     CostcoAuthenticator.type_raises := fun _ => false;
     CostcoAuthenticator.click_raises := fun _ => false;
     CostcoAuthenticator.press_enter_raises := false;
     CostcoAuthenticator.response_wait_raises := false;
     CostcoAuthenticator.after_submit := after |}.

(** First attempt raises, second is rejected, third asks for a code. *)
Definition three_attempts (attempt : Z) : CostcoAuthenticator.attempt_env :=
  if attempt =? 1 then broken_attempt
  else if attempt =? 2 then submitted_attempt form_page
  else submitted_attempt code_page.

(** *** Rate limiting and error tracking *)

(** A time the clock of the rate limiter can read. *)
Definition representable (t : Z) : Prop := 0 <= t < clock_bound.




(** A limiter with a cap of two requests per minute, and three calls made
    ten, five and five seconds apart. *)
Definition cap_two : RateLimiter.t :=
  {| RateLimiter.min_delay := clock_seconds 2;
     RateLimiter.max_delay := clock_seconds 8;
     RateLimiter.requests_per_minute := 2;
     RateLimiter.last_request_times := [] |}.

(** The clock at 2024-01-01 00:00:00 UTC, and nothing done yet. *)
Definition new_year : Z := clock_seconds 1704067200.

Definition midnight : world := {| clock := new_year; log := [] |}.

Definition call_1 : RateLimiter.call :=
  {| RateLimiter.idle := clock_seconds 10; RateLimiter.delay := clock_seconds 3 |}.
Definition call_2 : RateLimiter.call :=
  {| RateLimiter.idle := clock_seconds 5; RateLimiter.delay := clock_seconds 4 |}.
Definition call_3 : RateLimiter.call :=
  {| RateLimiter.idle := clock_seconds 5; RateLimiter.delay := clock_seconds 2 |}.

(** Five errors of one kind, the last at noon of 2024-01-01. *)
Definition noon : Datetime.datetime := Datetime.mk_datetime 2024 1 1 12 0 0 0.

Fixpoint record_errors (n : nat) (self : ErrorRecovery.t) (error_type : string)
    (now : Datetime.datetime) : ErrorRecovery.t :=
  match n with
  | O => self
  | S n' => record_errors n' (ErrorRecovery.record_error self error_type now)
              error_type now
  end.

Definition five_timeouts : ErrorRecovery.t :=
  record_errors 5 ErrorRecovery.new "timeout" noon.

(** Ten seconds, and one day and ten seconds, after [noon]. *)
Definition ten_seconds_later : Datetime.datetime :=
  Datetime.mk_datetime 2024 1 1 12 0 10 0.
Definition next_day : Datetime.datetime :=
  Datetime.mk_datetime 2024 1 2 12 0 10 0.

(** The last occurrence lies within the trailing window of [time_window]
    seconds before [now]. *)
Definition within_window (now last : Datetime.datetime) (time_window : Z) : Prop :=
  Datetime.whole_total_seconds (Datetime.sub now last) < time_window.

(** *** The trace of [login] *)

Definition is_attempt (e : CostcoAuthenticator.event) : bool :=
  match e with CostcoAuthenticator.EAttempt _ => true | _ => false end.

Definition is_sleep (e : CostcoAuthenticator.event) : bool :=
  match e with
  | CostcoAuthenticator.EBackoffSleep _ | CostcoAuthenticator.EErrorSleep => true
  | _ => false
  end.

Definition count_events (f : CostcoAuthenticator.event -> bool)
    (trace : list CostcoAuthenticator.event) : nat :=
  length (List.filter f trace).

(** The sleep [login] takes after attempt [attempt] has failed: the
    backoff after a rejected attempt, the error sleep after one that
    raised. *)
Definition sleep_after (envs : Z -> CostcoAuthenticator.attempt_env) (attempt : Z)
  : CostcoAuthenticator.event :=
  match CostcoAuthenticator._attempt_login (envs attempt) with
  | Some _ => CostcoAuthenticator.EBackoffSleep attempt
  | None => CostcoAuthenticator.EErrorSleep
  end.

(** The attempts [attempt], [attempt + 1], ... ([remaining] of them), each
    followed by its sleep unless it is attempt [max_retries]. *)
Fixpoint failing_trace (remaining : nat) (attempt max_retries : Z)
    (envs : Z -> CostcoAuthenticator.attempt_env)
  : list CostcoAuthenticator.event :=
  match remaining with
  | O => []
  | S remaining' =>
      CostcoAuthenticator.EAttempt attempt
      :: (if attempt <? max_retries then [sleep_after envs attempt] else [])
      ++ failing_trace remaining' (attempt + 1) max_retries envs
  end.

(** The attempt is neither a success nor a request for the second factor:
    it raises, or its result has both flags false. *)
Definition retryable (env : CostcoAuthenticator.attempt_env) : Prop :=
  match CostcoAuthenticator._attempt_login env with
  | Some r => AuthResult.success r = false /\ AuthResult.requires_2fa r = false
  | None => True
  end.

(** First attempt raises, second is rejected, third lands on the account
    page. *)
Definition welcome_page : Page :=
  {| url := "https://www.costco.com/myaccount";
     is_visible := fun selector =>
       if String.eqb selector ":has-text(Sign Out)" then Some true else Some false;
     inner_text := fun _ => None;
     count := fun _ => Some 0 |}.

Definition third_time_lucky (attempt : Z) : CostcoAuthenticator.attempt_env :=
  if attempt =? 1 then broken_attempt
  else if attempt =? 2 then submitted_attempt form_page
  else submitted_attempt welcome_page.

(** Every attempt is rejected or raises. *)
Definition always_rejected (attempt : Z) : CostcoAuthenticator.attempt_env :=
  if Z.even attempt then broken_attempt else submitted_attempt form_page.

(** *** The date range and the accepted list of a batch *)

(** The dates of the receipts a sequence of calls adds, accepted or not. *)
Fixpoint added_dates (ops : list ReceiptBatch.op) : list Datetime.datetime :=
  match ops with
  | [] => []
  | ReceiptBatch.AddReceipt r _ :: rest => Receipt.date r :: added_dates rest
  | ReceiptBatch.AddFailed :: rest => added_dates rest
  end.

(** The date range of the batch is the span of the dates: unset when there
    is none, and otherwise the earliest and the latest of them. *)
Definition spans (b : ReceiptBatch.t) (dates : list Datetime.datetime) : Prop :=
  match dates with
  | [] => ReceiptBatch.date_range_start b = None
          /\ ReceiptBatch.date_range_end b = None
  | _ :: _ =>
      exists s e,
        ReceiptBatch.date_range_start b = Some s
        /\ ReceiptBatch.date_range_end b = Some e
        /\ In s dates /\ In e dates
        /\ forall d, In d dates ->
              Datetime.to_microseconds s <= Datetime.to_microseconds d
              /\ Datetime.to_microseconds d <= Datetime.to_microseconds e
  end.

(** No receipt of the list is the same purchase as one before it. *)
Definition no_earlier_same (l : list Receipt.t) : Prop :=
  forall before r after,
    l = before ++ r :: after ->
    forall e, In e before -> ~ same_purchase e r.

(** A page on which no container parses. *)
Definition blank_page : ReceiptScraper.page :=
  {| ReceiptScraper.scan := [(worded_date, 1700000000)];
     ReceiptScraper.has_next := true |}.

Definition banner_listing (next : bool) : ReceiptScraper.page :=
  {| ReceiptScraper.scan := [(store_banner, 1700000000)];
     ReceiptScraper.has_next := next |}.

(** *** Shapes of texts *)

(** [part] is a run of consecutive characters of [whole]. *)
Definition is_part (part whole : list ascii) : Prop :=
  exists before after, whole = before ++ part ++ after.

(** [s] ends [whole]. *)
Definition is_suffix (s whole : list ascii) : Prop :=
  exists before, whole = before ++ s.

(** The text neither starts nor ends with whitespace. *)
Definition trimmed (s : list ascii) : Prop :=
  (forall c rest, s = c :: rest -> Text.is_space c = false)
  /\ (forall init c, s = init ++ [c] -> Text.is_space c = false).

(** Every whitespace character of the text is a plain space. *)
Definition only_plain_spaces (s : list ascii) : Prop :=
  Forall (fun c => Text.is_space c = true -> c = " "%char) s.

(** *** The retry loop, the exception decorators and the error tracking *)

(** The call [n] ends the retry loop: it returned, it raised an exception
    the decorator does not catch, or it was call number [max_retries]. *)
Definition ends_retrying {V : Type} (max_retries : Z) (catches : exception -> bool)
    (func : nat -> outcome V) (n : nat) : Prop :=
  match func n with
  | Returned _ => True
  | Raised e => catches e = false \/ Z.of_nat n = max_retries
  end.

(** The waits before the retries that follow the calls 0 .. n-1 are
    durations [time.sleep] accepts. *)
Definition waits_accepted (delay : Z) (exponential_backoff : bool)
    (jitter : nat -> Z) (n : nat) : Prop :=
  forall i, (i < n)%nat -> 0 <= wait_before_retry delay exponential_backoff jitter i.

(** The wait computed after call [n], which raised an exception the
    decorator catches and was not call number [max_retries], is negative:
    [time.sleep] raises. *)
Definition sleep_refused {V : Type} (max_retries delay : Z)
    (exponential_backoff : bool) (catches : exception -> bool)
    (func : nat -> outcome V) (jitter : nat -> Z) (n : nat) : Prop :=
  (exists e, func n = Raised e /\ catches e = true)
  /\ Z.of_nat n < max_retries
  /\ wait_before_retry delay exponential_backoff jitter n < 0.

(** Each of the calls before call [n] raised an exception the decorator
    catches. *)
Definition caught_before {V : Type} (catches : exception -> bool)
    (func : nat -> outcome V) (n : nat) : Prop :=
  forall i, (i < n)%nat -> exists e, func i = Raised e /\ catches e = true.

(** The sleeps before the retries that follow the calls 0 .. n-1. *)
Definition backoff_sleeps (delay : Z) (exponential_backoff : bool)
    (jitter : nat -> Z) (n : nat) : list Z :=
  map (wait_before_retry delay exponential_backoff jitter) (seq 0 n).

Definition total_slept (sleeps : list Z) : Z := fold_right Z.add 0 sleeps.

(** [random.uniform(0, wait_time * 0.1)] lies between its bounds. *)
Definition jitter_in_range (delay : Z) (exponential_backoff : bool)
    (jitter : nat -> Z) : Prop :=
  forall attempt,
    0 <= jitter attempt /\
    10 * jitter attempt <=
      (if exponential_backoff then delay * 2 ^ Z.of_nat attempt else delay).

(** The waits before [n] retries, without the jitter. *)
Definition planned_wait (delay : Z) (exponential_backoff : bool) (n : nat) : Z :=
  if exponential_backoff then delay * (2 ^ Z.of_nat n - 1) else delay * Z.of_nat n.

(** [word in str(e).lower()] *)
Definition mentions (word message : string) : bool :=
  Text.contains word (Text.lower message).

(** The message sets off [handle_bot_detection]. *)
Definition bot_like (message : string) : Prop :=
  mentions_any bot_indicators (Text.lower message) = true.

(** The class of the exception a call raised. *)
Definition raised_class {V : Type} (o : outcome V) : option exception_class :=
  match o with
  | Returned _ => None
  | Raised e => Some (exc_class e)
  end.

(** The class [safe_page_operation] gives to an exception of class [c]
    with message [message]. *)
Definition page_error_class (timeout elapsed : Z) (c : exception_class)
    (message : string) : exception_class :=
  if seconds timeout <=? elapsed then PageNavigationError
  else if mentions "timeout" message then PageNavigationError
  else if mentions "not found" message then DataExtractionError
  else if mentions "navigation" message then PageNavigationError
  else c.

(** How many of the events are of the kind. *)
Definition occurrences (error_type : string)
    (events : list (string * Datetime.datetime)) : nat :=
  length (List.filter (fun ev => String.eqb (fst ev) error_type) events).

(** The time of the last event of the kind. *)
Fixpoint last_occurrence (error_type : string)
    (events : list (string * Datetime.datetime)) : option Datetime.datetime :=
  match events with
  | [] => None
  | ev :: rest =>
      match last_occurrence error_type rest with
      | Some t => Some t
      | None => if String.eqb (fst ev) error_type then Some (snd ev) else None
      end
  end.

Definition connection_reset : exception :=
  {| exc_class := OtherError "ConnectionError"; exc_message := "connection reset" |}.

(** A function whose first two calls raise and whose third returns 42. *)
Definition third_call_returns (n : nat) : outcome Z :=
  if (n <? 2)%nat then Raised connection_reset else Returned 42.

(** [exceptions=(Exception,)], the default. *)
Definition catches_all (e : exception) : bool := true.

Definition no_jitter (attempt : nat) : Z := 0.

(** An exception whose message sets off both decorators. *)
Definition denied_on_timeout : exception :=
  {| exc_class := OtherError "TimeoutError";
     exc_message := "Access denied: navigation timeout" |}.

(** *** The store *)

(** Every row of [receipt_items] belongs to a stored receipt. *)
Definition items_owned (db : ReceiptDatabase.t) : Prop :=
  Forall (fun item =>
            is_Some (ReceiptDatabase.receipts db !! ReceiptDatabase.item_receipt_id item))
    (ReceiptDatabase.receipt_items db).

(** The receipt can be stored by a call that meets no database error. *)
Definition storable (r : Receipt.t) : Prop :=
  PrimFloat.is_nan (Receipt.total_amount r) = false.

(** Every receipt is stored under its own id. *)
Definition rows_keyed (db : ReceiptDatabase.t) : Prop :=
  forall id row,
    ReceiptDatabase.receipts db !! id = Some row -> ReceiptDatabase.row_id row = id.

Definition never_raises (i : nat) : bool := false.

Definition seattle_twice : ReceiptBatch.t :=
  ReceiptBatch.add_receipt seattle_batch seattle_receipt false.

(** Closed goals are settled by evaluation, conjunct by conjunct. *)
Ltac by_evaluation :=
  repeat match goal with |- _ /\ _ => split end;
  vm_compute; reflexivity.

(** [no_match] on a closed text: one evaluation per pattern. *)
Ltac no_match_by_evaluation :=
  unfold no_match;
  repeat (apply List.Forall_cons; [vm_compute; reflexivity|]);
  apply List.Forall_nil.

(* ===================================================================== *)
(** ** Batch accumulator *)
(* ===================================================================== *)

Lemma empty_consistent : counters_consistent ReceiptBatch.empty.
Proof. split; reflexivity. Qed.

Lemma add_receipt_consistent (b : ReceiptBatch.t) (r : Receipt.t) (d : bool) :
  counters_consistent b -> counters_consistent (ReceiptBatch.add_receipt b r d).
Proof.
  intros [Htotal Hlen]. unfold counters_consistent, ReceiptBatch.add_receipt.
  destruct d; cbn [negb ReceiptBatch.total_count ReceiptBatch.scraped_count
                   ReceiptBatch.duplicate_count ReceiptBatch.failed_count
                   ReceiptBatch.receipts].
  - split; lia.
  - rewrite length_app. cbn [length]. split; lia.
Qed.

Lemma add_failed_consistent (b : ReceiptBatch.t) :
  counters_consistent b -> counters_consistent (ReceiptBatch.add_failed b).
Proof.
  intros [Htotal Hlen]. unfold counters_consistent, ReceiptBatch.add_failed.
  cbn. split; lia.
Qed.

Lemma apply_consistent (b : ReceiptBatch.t) (o : ReceiptBatch.op) :
  counters_consistent b -> counters_consistent (ReceiptBatch.apply b o).
Proof.
  destruct o as [r d|]; cbn [ReceiptBatch.apply].
  - apply add_receipt_consistent.
  - apply add_failed_consistent.
Qed.

Lemma fold_apply_consistent (ops : list ReceiptBatch.op) (b : ReceiptBatch.t) :
  counters_consistent b -> counters_consistent (fold_left ReceiptBatch.apply ops b).
Proof.
  revert b. induction ops as [|o ops IH]; intros b Hb; cbn [fold_left].
  - exact Hb.
  - apply IH, apply_consistent, Hb.
Qed.

(** C10. From the empty batch, every sequence of [add_receipt] and
    [add_failed] calls leaves [total_count = scraped_count +
    duplicate_count + failed_count] and [scraped_count] equal to the length
    of the accepted list; each of the two operations preserves this. *)
Theorem batch_counters_invariant :
  (forall ops : list ReceiptBatch.op, counters_consistent (ReceiptBatch.run ops))
  /\ (forall b r d, counters_consistent b ->
        counters_consistent (ReceiptBatch.add_receipt b r d))
  /\ (forall b, counters_consistent b ->
        counters_consistent (ReceiptBatch.add_failed b)).
Proof.
  split; [|split].
  - intros ops. apply fold_apply_consistent, empty_consistent.
  - apply add_receipt_consistent.
  - apply add_failed_consistent.
Qed.

(* ===================================================================== *)
(** ** Deduplication *)
(* ===================================================================== *)

Lemma same_receipt_spec (existing candidate : Receipt.t) :
  ReceiptScraper.same_receipt existing candidate = true <->
  same_purchase existing candidate.
Proof.
  unfold ReceiptScraper.same_receipt, same_purchase, Datetime.date.
  rewrite !andb_true_iff, !Z.eqb_eq, String.eqb_eq.
  split.
  - intros [[[[Hy Hm] Hd] Hl] Ha]. repeat split; congruence.
  - intros [Hdate [Hl Ha]]. inversion Hdate. repeat split; assumption.
Qed.

Lemma any_same_spec (receipts : list Receipt.t) (candidate : Receipt.t) :
  ReceiptScraper.any_same receipts candidate = true <->
  exists existing, In existing receipts /\ same_purchase existing candidate.
Proof.
  induction receipts as [|e rest IH]; cbn [ReceiptScraper.any_same In].
  - split; [discriminate | intros [? [[] _]]].
  - destruct (ReceiptScraper.same_receipt e candidate) eqn:He.
    + split; [|reflexivity]. intros _. exists e. split; [now left|].
      now apply same_receipt_spec.
    + rewrite IH. split.
      * intros [x [Hin Hx]]. exists x. split; [now right | exact Hx].
      * intros [x [[->|Hin] Hx]].
        -- apply same_receipt_spec in Hx. congruence.
        -- exists x. split; assumption.
Qed.

(** C2. [_is_duplicate_receipt] answers true exactly when an accepted
    receipt of the batch has the same calendar date (the time of day is
    not compared), the identical location and an amount less than 0.01
    away; and adding a candidate flagged as duplicate adds one to
    [duplicate_count] and leaves the accepted list as it is. *)
Theorem duplicate_detection (batch : ReceiptBatch.t) (candidate : Receipt.t) :
  (ReceiptScraper._is_duplicate_receipt batch candidate = true <->
   exists existing,
     In existing (ReceiptBatch.receipts batch) /\ same_purchase existing candidate)
  /\ (ReceiptScraper._is_duplicate_receipt batch candidate = true ->
      let batch' := ReceiptScraper.add_with_detection batch candidate in
      ReceiptBatch.duplicate_count batch' = ReceiptBatch.duplicate_count batch + 1
      /\ ReceiptBatch.receipts batch' = ReceiptBatch.receipts batch
      /\ ReceiptBatch.scraped_count batch' = ReceiptBatch.scraped_count batch)
  /\ (let batch' := ReceiptBatch.add_receipt batch candidate true in
      ReceiptBatch.duplicate_count batch' = ReceiptBatch.duplicate_count batch + 1
      /\ ReceiptBatch.receipts batch' = ReceiptBatch.receipts batch).
Proof.
  split; [|split].
  - apply any_same_spec.
  - intros Hdup. unfold ReceiptScraper.add_with_detection. rewrite Hdup.
    cbn. repeat split.
  - cbn. split; reflexivity.
Qed.

Lemma duplicate_detection_witness :
  ReceiptScraper._is_duplicate_receipt seattle_batch seattle_receipt = true
  /\ ReceiptBatch.duplicate_count
       (ReceiptScraper.add_with_detection seattle_batch seattle_receipt) = 1
  /\ ReceiptBatch.receipts
       (ReceiptScraper.add_with_detection seattle_batch seattle_receipt)
     = [seattle_receipt].
Proof.
  destruct (duplicate_detection seattle_batch seattle_receipt) as [_ [Hadd _]].
  assert (Hdup : ReceiptScraper._is_duplicate_receipt seattle_batch seattle_receipt = true)
    by (vm_compute; reflexivity).
  destruct (Hadd Hdup) as [Hcount [Hlist _]].
  split; [exact Hdup|]. split; [exact Hcount | exact Hlist].
Defined.

(** Scraping the same container twice: the second candidate is counted as
    a duplicate and the accepted list keeps one receipt. *)
Example repeated_container_is_duplicate :
  let b := ReceiptScraper.discover_all_receipts
             (last_3_months_only
                [(store_banner, 1700000000); (store_banner, 1700000001)]) in
  length (ReceiptBatch.receipts b) = 1%nat
  /\ ReceiptBatch.duplicate_count b = 1
  /\ ReceiptBatch.total_count b = 2.
Proof. vm_compute. repeat split. Qed.

(** The same page under each of the six time ranges: one receipt accepted,
    five duplicates. *)
Example same_page_in_every_range :
  let b := ReceiptScraper.discover_all_receipts
             (same_page_everywhere [(store_banner, 1700000000)]) in
  length (ReceiptBatch.receipts b) = 1%nat
  /\ ReceiptBatch.scraped_count b = 1
  /\ ReceiptBatch.duplicate_count b = 5
  /\ ReceiptBatch.total_count b = 6.
Proof. vm_compute. repeat split. Qed.

(** Binary64 rounding shows in the comparison: 45.68 and 45.67 are less
    than 0.01 apart, 0.02 and 0.01 are not. *)
Example one_cent_apart :
  PrimFloat.ltb (PrimFloat.abs (PrimFloat.sub 45.68 45.67)) 0.01 = true
  /\ PrimFloat.ltb (PrimFloat.abs (PrimFloat.sub 0.02 0.01)) 0.01 = false.
Proof. split; vm_compute; reflexivity. Qed.

(* ===================================================================== *)
(** ** Location normalization *)
(* ===================================================================== *)

(** C6. Normalization maps "Costco Wholesale #123 Warehouse" to "#123". *)
Theorem clean_location_example :
  Receipt._clean_location "Costco Wholesale #123 Warehouse" = "#123"%string.
Proof. vm_compute. reflexivity. Qed.

(** The steps of that normalization, one by one. *)
Example clean_location_steps :
  Text.join " " (Text.split "Costco Wholesale #123 Warehouse")
    = "Costco Wholesale #123 Warehouse"%string
  /\ Re.sub Receipt.prefix_pattern "" "Costco Wholesale #123 Warehouse"
    = "#123 Warehouse"%string
  /\ Re.sub Receipt.suffix_pattern "" "#123 Warehouse" = "#123"%string
  /\ Text.strip "#123" = "#123"%string.
Proof. by_evaluation. Qed.

Example clean_location_collapses_whitespace :
  Receipt._clean_location "  costco   Seattle   store " = "Seattle"%string.
Proof. vm_compute. reflexivity. Qed.

(** Normalization can leave nothing. *)
Example clean_location_can_be_empty :
  Receipt._clean_location "Store" = ""%string
  /\ Receipt._clean_location "Costco Wholesale" = ""%string.
Proof. split; vm_compute; reflexivity. Qed.

(* ===================================================================== *)
(** ** Matching facts shared by the parsing properties *)
(* ===================================================================== *)

Lemma case_variants_not_digit (a : ascii) :
  Text.is_digit a = false ->
  Text.is_digit (Text.lower_char a) = false
  /\ Text.is_digit (Text.upper_char a) = false.
Proof.
  destruct a as [[] [] [] [] [] [] [] []]; vm_compute; intros H;
    first [discriminate H | split; reflexivity].
Qed.

Lemma digit_class_rejects (ic : bool) (a : ascii) :
  Text.is_digit a = false -> Re.in_class ic [Re.IDigit] a = false.
Proof.
  intros Ha. destruct (case_variants_not_digit a Ha) as [Hl Hu].
  unfold Re.in_class. cbn [existsb Re.item_has]. rewrite Ha, Hl, Hu.
  now destruct ic.
Qed.

Lemma digit_free_tail (a : ascii) (s : list ascii) :
  digit_free (a :: s) -> digit_free s.
Proof. intros H. now inversion H. Qed.

(** The matcher calls its continuation on texts cut from the subject only:
    a continuation that fails on every text without digits makes the match
    fail on such a text. *)
Lemma rmatch_fails_with_continuation {A : Type} (ic : bool) (total : nat) (r : Re.regex) :
  forall (s : list ascii) (cs : Re.caps) (k : list ascii -> Re.caps -> option A),
    digit_free s ->
    (forall s' cs', digit_free s' -> k s' cs' = None) ->
    Re.rmatch ic total r s cs k = None.
Proof.
  induction r as [|c|neg items|r1 IH1 r2 IH2|r1 IH1 r2 IH2|r1 IH1|n r1 IH1| |];
    intros s cs k Hs Hk; cbn [Re.rmatch].
  - now apply Hk.
  - destruct s as [|a s']; [reflexivity|].
    destruct (Re.char_eq ic c a); [|reflexivity].
    apply Hk. eapply digit_free_tail, Hs.
  - destruct s as [|a s']; [reflexivity|].
    destruct (xorb neg (Re.in_class ic items a)); [|reflexivity].
    apply Hk. eapply digit_free_tail, Hs.
  - apply IH1; [exact Hs|]. intros s' cs' Hs'. now apply IH2.
  - rewrite IH1 by assumption. now apply IH2.
  - generalize (length s) as fuel. intros fuel. revert s cs Hs.
    induction fuel as [|fuel IHf]; intros s cs Hs.
    + now apply Hk.
    + rewrite IH1; [now apply Hk | exact Hs |].
      intros s' cs' Hs'. destruct (length s' <? length s)%nat; [|reflexivity].
      now apply IHf.
  - apply IH1; [exact Hs|]. intros s' cs' Hs'. now apply Hk.
  - destruct (length s =? total)%nat; [now apply Hk | reflexivity].
  - destruct (Re.at_eol s); [now apply Hk | reflexivity].
Qed.

Lemma rmatch_needs_digit {A : Type} (ic : bool) (total : nat) (r : Re.regex) :
  needs_digit r = true ->
  forall (s : list ascii) (cs : Re.caps) (k : list ascii -> Re.caps -> option A),
    digit_free s -> Re.rmatch ic total r s cs k = None.
Proof.
  induction r as [|c|neg items|r1 IH1 r2 IH2|r1 IH1 r2 IH2|r1 IH1|n r1 IH1| |];
    cbn [needs_digit]; try discriminate; intros Hr s cs k Hs; cbn [Re.rmatch].
  - destruct neg; [discriminate|].
    destruct items as [|[| | |] [|? ?]]; try discriminate.
    destruct s as [|a s']; [reflexivity|].
    rewrite digit_class_rejects; [reflexivity|]. now inversion Hs.
  - apply orb_true_iff in Hr as [Hr|Hr].
    + now apply IH1.
    + apply rmatch_fails_with_continuation; [exact Hs|].
      intros s' cs' Hs'. now apply IH2.
  - apply andb_true_iff in Hr as [Hr1 Hr2].
    rewrite IH1 by assumption. now apply IH2.
  - now apply IH1.
Qed.

Lemma findall_from_digit_free (p : Re.pattern) (total : nat) :
  needs_digit (Re.expr p) = true ->
  forall (fuel : nat) (s : list ascii),
    digit_free s -> Re.findall_from fuel p total s = [].
Proof.
  intros Hp. induction fuel as [|fuel IH]; intros s Hs; cbn [Re.findall_from].
  - reflexivity.
  - unfold Re.match_here. rewrite rmatch_needs_digit by assumption.
    destruct s as [|a s']; [reflexivity|].
    apply IH. eapply digit_free_tail, Hs.
Qed.

Lemma findall_digit_free (p : Re.pattern) (s : string) :
  needs_digit (Re.expr p) = true ->
  digit_free (Text.chars s) -> Re.findall p s = [].
Proof.
  intros Hp Hs. unfold Re.findall.
  now rewrite findall_from_digit_free.
Qed.

Lemma amount_patterns_need_digit :
  Forall (fun p => needs_digit (Re.expr p) = true) ReceiptScraper.amount_patterns.
Proof. repeat constructor. Qed.

Lemma date_patterns_need_digit :
  Forall (fun p => needs_digit (Re.expr p) = true) ReceiptScraper.date_patterns.
Proof. repeat constructor. Qed.

Lemma digit_free_no_match (ps : list Re.pattern) (s : string) :
  Forall (fun p => needs_digit (Re.expr p) = true) ps ->
  digit_free (Text.chars s) -> no_match ps s.
Proof.
  intros Hps Hs. unfold no_match. induction Hps as [|p ps Hp _ IH].
  - constructor.
  - constructor; [now apply findall_digit_free | exact IH].
Qed.

(* ===================================================================== *)
(** ** Amount resolution *)
(* ===================================================================== *)

Lemma try_amount_patterns_no_match (combined_text : string) (ps : list Re.pattern) :
  no_match ps combined_text ->
  ReceiptScraper.try_amount_patterns combined_text ps = 0%float.
Proof.
  induction 1 as [|p ps Hp _ IH]; cbn [ReceiptScraper.try_amount_patterns].
  - reflexivity.
  - now rewrite Hp.
Qed.

Lemma try_amount_patterns_first (combined_text : string)
    (before after : list Re.pattern) (p : Re.pattern)
    (m : string) (ms : list string) (x : float) :
  no_match before combined_text ->
  Re.findall p combined_text = m :: ms ->
  Text.float_of_chars (Text.remove_char "," (Text.chars m)) = Some x ->
  ReceiptScraper.try_amount_patterns combined_text (before ++ p :: after) = x.
Proof.
  intros Hbefore Hp Hx.
  induction Hbefore as [|q qs Hq _ IH]; cbn [app ReceiptScraper.try_amount_patterns].
  - now rewrite Hp, Hx.
  - now rewrite Hq.
Qed.

Lemma zero_amount_rejected (data : ScrapedData) (now : Z) :
  ReceiptScraper._parse_amount
    (ReceiptScraper.text_or_empty (sd_amountText data)) (sd_text data) = 0%float ->
  ReceiptScraper._parse_receipt_data data now = None.
Proof.
  intros Hzero. unfold ReceiptScraper._parse_receipt_data.
  destruct (ReceiptScraper._parse_date _ _); [|reflexivity].
  rewrite Hzero. reflexivity.
Qed.

(** C5. The amount patterns are tried in their order and the first match
    that reads as a number, its commas removed, is the amount: "$45.67"
    gives 45.67 and "$1,234.56" gives 1234.56. A text in which no pattern
    matches gives 0, and a candidate with such a text is rejected. *)
Theorem amount_resolution :
  ReceiptScraper._parse_amount "$45.67" "" = 45.67%float
  /\ ReceiptScraper._parse_amount "$1,234.56" "" = 1234.56%float
  /\ (forall amount_text full_text before p after m ms x,
        ReceiptScraper.amount_patterns = before ++ p :: after ->
        no_match before (ReceiptScraper.combine amount_text full_text) ->
        Re.findall p (ReceiptScraper.combine amount_text full_text) = m :: ms ->
        Text.float_of_chars (Text.remove_char "," (Text.chars m)) = Some x ->
        ReceiptScraper._parse_amount amount_text full_text = x)
  /\ (forall amount_text full_text,
        no_match ReceiptScraper.amount_patterns
          (ReceiptScraper.combine amount_text full_text) ->
        ReceiptScraper._parse_amount amount_text full_text = 0%float)
  /\ (forall data now,
        no_match ReceiptScraper.amount_patterns
          (ReceiptScraper.combine
             (ReceiptScraper.text_or_empty (sd_amountText data)) (sd_text data)) ->
        PrimFloat.leb
          (ReceiptScraper._parse_amount
             (ReceiptScraper.text_or_empty (sd_amountText data)) (sd_text data))
          0 = true
        /\ ReceiptScraper._parse_receipt_data data now = None).
Proof.
  split; [vm_compute; reflexivity|].
  split; [vm_compute; reflexivity|].
  split; [|split].
  - intros amount_text full_text before p after m ms x Hsplit Hbefore Hp Hx.
    unfold ReceiptScraper._parse_amount. rewrite Hsplit.
    eapply try_amount_patterns_first; eassumption.
  - intros amount_text full_text Hnone.
    now apply try_amount_patterns_no_match.
  - intros data now Hnone.
    assert (Hzero : ReceiptScraper._parse_amount
                      (ReceiptScraper.text_or_empty (sd_amountText data))
                      (sd_text data) = 0%float)
      by now apply try_amount_patterns_no_match.
    split; [rewrite Hzero; reflexivity | now apply zero_amount_rejected].
Qed.

(** A text without any digit has no match of an amount pattern. *)
Lemma digit_free_amount_is_zero (amount_text full_text : string) :
  digit_free (Text.chars (ReceiptScraper.combine amount_text full_text)) ->
  ReceiptScraper._parse_amount amount_text full_text = 0%float.
Proof.
  intros Hfree. apply try_amount_patterns_no_match.
  apply digit_free_no_match; [apply amount_patterns_need_digit | exact Hfree].
Qed.

Lemma amount_resolution_witness :
  ReceiptScraper._parse_amount "Total due: forty dollars" "" = 0%float
  /\ ReceiptScraper._parse_amount "" "Subtotal 40.00 Total: $45.67" = 45.67%float.
Proof.
  destruct amount_resolution as [_ [_ [Hfirst [Hnone _]]]].
  split.
  - apply Hnone. no_match_by_evaluation.
  - apply (Hfirst ""%string "Subtotal 40.00 Total: $45.67"%string []
             (nth 0 ReceiptScraper.amount_patterns (Re.Pattern Re.Eps 0 true))
             (tl ReceiptScraper.amount_patterns) "45.67"%string []);
      [vm_compute; reflexivity | apply List.Forall_nil
      | vm_compute; reflexivity | vm_compute; reflexivity].
Defined.

(** The amount in running text, and where the order of the patterns
    decides: a later "$" pattern is not reached once an earlier one
    matches. *)
Example amount_in_context :
  ReceiptScraper._parse_amount "$45.67" "Costco Seattle 03/15/2024 $45.67" = 45.67%float
  /\ ReceiptScraper._parse_amount "" "Costco Seattle 03/15/2024 $1,234.56"
     = 1234.56%float
  /\ ReceiptScraper._parse_amount "" "Total: 12.50" = 12.5%float
  /\ ReceiptScraper._parse_amount "" "$12" = 12%float
  /\ ReceiptScraper._parse_amount "" "$1,234,567.89" = 1%float
  /\ ReceiptScraper._parse_amount "" "$5.00 then $1,234.56" = 5%float.
Proof. by_evaluation. Qed.

(* ===================================================================== *)
(** ** Date resolution *)
(* ===================================================================== *)

Lemma strptime_valid (s fmt : string) (d : Datetime.datetime) :
  Datetime.strptime s fmt = Some d -> Datetime.valid d = true.
Proof.
  unfold Datetime.strptime.
  destruct (Datetime.format_regex _); [|discriminate].
  destruct (Re.fullmatch_first _ _); [|discriminate].
  match goal with
  | |- context [Datetime.valid_date ?y ?m ?dd] =>
      destruct (Datetime.valid_date y m dd) eqn:Hvalid
  end; [|discriminate].
  intros [= <-]. unfold Datetime.valid. cbn. now rewrite Hvalid.
Qed.

Lemma try_formats_valid (date_str : string) (fmts : list string) (d : Datetime.datetime) :
  ReceiptScraper.try_formats date_str fmts = Some d -> Datetime.valid d = true.
Proof.
  induction fmts as [|fmt rest IH]; cbn [ReceiptScraper.try_formats]; [discriminate|].
  destruct (Datetime.strptime date_str fmt) eqn:Hparse.
  - intros [= <-]. eapply strptime_valid, Hparse.
  - exact IH.
Qed.

Lemma try_date_patterns_valid (combined_text : string) (ps : list Re.pattern)
    (d : Datetime.datetime) :
  ReceiptScraper.try_date_patterns combined_text ps = Some d ->
  Datetime.valid d = true.
Proof.
  induction ps as [|p rest IH]; cbn [ReceiptScraper.try_date_patterns]; [discriminate|].
  destruct (Re.findall p combined_text) as [|date_str ?]; [exact IH|].
  destruct (ReceiptScraper.try_formats date_str ReceiptScraper.formats) eqn:Hfmt.
  - intros [= <-]. eapply try_formats_valid, Hfmt.
  - exact IH.
Qed.

Lemma try_date_patterns_no_match (combined_text : string) (ps : list Re.pattern) :
  no_match ps combined_text ->
  ReceiptScraper.try_date_patterns combined_text ps = None.
Proof.
  induction 1 as [|p ps Hp _ IH]; cbn [ReceiptScraper.try_date_patterns].
  - reflexivity.
  - now rewrite Hp.
Qed.

(** A text without any digit has no date, so its candidate is rejected. *)
Lemma digit_free_date_rejected (data : ScrapedData) (now : Z) :
  digit_free
    (Text.chars (ReceiptScraper.combine
                   (ReceiptScraper.text_or_empty (sd_dateText data)) (sd_text data))) ->
  ReceiptScraper._parse_receipt_data data now = None.
Proof.
  intros Hfree. unfold ReceiptScraper._parse_receipt_data, ReceiptScraper._parse_date.
  rewrite try_date_patterns_no_match; [reflexivity|].
  apply digit_free_no_match; [apply date_patterns_need_digit | exact Hfree].
Qed.

(** C4, as the code has it. "03/15/2024" resolves to 2024-03-15 and "abc"
    matches no pattern. "March 15, 2024" matches the fifth pattern, but
    [findall] reports the only group of that pattern, the abbreviation
    "Mar", which no format parses: the date is not resolved and the
    candidate is rejected, although the formats of the list would parse
    the whole matched text. *)
Theorem date_resolution_examples :
  ReceiptScraper._parse_date "03/15/2024" "" = Some march_15_2024
  /\ no_match ReceiptScraper.date_patterns (ReceiptScraper.combine "abc" "")
  /\ ReceiptScraper._parse_date "abc" "" = None
  /\ Re.findall (nth 4 ReceiptScraper.date_patterns (Re.Pattern Re.Eps 0 true))
       (ReceiptScraper.combine "March 15, 2024" "") = ["Mar"%string]
  /\ ReceiptScraper.try_formats "Mar" ReceiptScraper.formats = None
  /\ ReceiptScraper._parse_date "March 15, 2024" "" = None
  /\ ReceiptScraper._parse_receipt_data worded_date 1700000000 = None
  /\ Datetime.strptime "March 15, 2024" "%B %d, %Y" = Some march_15_2024.
Proof.
  split; [vm_compute; reflexivity|].
  split; [no_match_by_evaluation|].
  by_evaluation.
Qed.

(** Dates in running text, in each numeric form of the pattern list. *)
Example dates_in_context :
  ReceiptScraper._parse_date "" "Order 3-5-2024 paid"
    = Some (Datetime.mk_datetime 2024 3 5 0 0 0 0)
  /\ ReceiptScraper._parse_date "" "Order 2024-03-15 paid" = Some march_15_2024
  /\ ReceiptScraper._parse_date "" "Order 03/15/24 paid" = Some march_15_2024
  /\ ReceiptScraper._parse_date "" "Mar 15, 2024 and 03/16/2024"
    = Some (Datetime.mk_datetime 2024 3 16 0 0 0 0)
  /\ ReceiptScraper._parse_date "" "02/30/2024" = None.
Proof. by_evaluation. Qed.

(* ===================================================================== *)
(** ** What an emitted receipt satisfies *)
(* ===================================================================== *)

Lemma emitted_receipt_fields (data : ScrapedData) (now : Z) (r : Receipt.t) :
  ReceiptScraper._parse_receipt_data data now = Some r ->
  date_valid r /\ PrimFloat.leb (Receipt.total_amount r) 0 = false.
Proof.
  unfold ReceiptScraper._parse_receipt_data, date_valid.
  destruct (ReceiptScraper._parse_date _ _) as [d|] eqn:Hdate; [|discriminate].
  destruct (PrimFloat.leb _ 0) eqn:Hamount; [discriminate|].
  intros [= <-]. cbn [Receipt.create Receipt.date Receipt.total_amount].
  split; [|exact Hamount].
  eapply try_date_patterns_valid, Hdate.
Qed.

(** C1, as the code has it. The container [store_banner] is emitted as a
    receipt of the produced batch: its date is valid and its amount is
    positive, but its location is the empty string. The location pattern
    captures "Store", which is not empty, so the "Unknown Location"
    default is not used; normalization then strips the whole of it. *)
Theorem store_banner_location_empty :
  ReceiptScraper._parse_location
    (ReceiptScraper.text_or_empty (sd_locationText store_banner))
    (sd_text store_banner) = "Store"%string
  /\ Receipt._clean_location "Store" = ""%string
  /\ exists r,
       ReceiptScraper._parse_receipt_data store_banner 1700000000 = Some r
       /\ ReceiptBatch.receipts
            (ReceiptScraper.discover_all_receipts
               (last_3_months_only [(store_banner, 1700000000)])) = [r]
       /\ date_valid r
       /\ amount_positive r
       /\ Receipt.location r = ""%string
       /\ ~ location_nonempty r.
Proof.
  split; [vm_compute; reflexivity|].
  split; [vm_compute; reflexivity|].
  eexists. split; [vm_compute; reflexivity|].
  split; [vm_compute; reflexivity|].
  split; [vm_compute; reflexivity|].
  split; [vm_compute; reflexivity|].
  split; [vm_compute; reflexivity|].
  unfold location_nonempty. intros H. apply H. vm_compute. reflexivity.
Qed.

(* ===================================================================== *)
(** ** Login-result evaluation *)
(* ===================================================================== *)

Lemma any_visible_spec (page : Page) (selectors : list string) :
  CostcoAuthenticator.any_visible page selectors = true <->
  some_visible page selectors.
Proof.
  unfold some_visible.
  induction selectors as [|s rest IH]; cbn [CostcoAuthenticator.any_visible In].
  - split; [discriminate | intros [? [[] _]]].
  - destruct (is_visible page s) as [[|]|] eqn:Hs.
    + split; [|reflexivity]. intros _. exists s. split; [now left | exact Hs].
    + rewrite IH. split.
      * intros [x [Hin Hx]]. exists x. split; [now right | exact Hx].
      * intros [x [[->|Hin] Hx]]; [congruence|]. exists x. now split.
    + rewrite IH. split.
      * intros [x [Hin Hx]]. exists x. split; [now right | exact Hx].
      * intros [x [[->|Hin] Hx]]; [congruence|]. exists x. now split.
Qed.

Lemma any_visible_false (page : Page) (selectors : list string) :
  ~ some_visible page selectors ->
  CostcoAuthenticator.any_visible page selectors = false.
Proof.
  intros Hnone.
  destruct (CostcoAuthenticator.any_visible page selectors) eqn:Hany; [|reflexivity].
  exfalso. now apply Hnone, any_visible_spec.
Qed.

Lemma first_error_text_none (page : Page) (selectors : list string) :
  (forall s, In s selectors -> ~ exists t, shows page s t) ->
  CostcoAuthenticator.first_error_text page selectors = None.
Proof.
  induction selectors as [|s rest IH]; intros Hnone;
    cbn [CostcoAuthenticator.first_error_text]; [reflexivity|].
  assert (Hrest : CostcoAuthenticator.first_error_text page rest = None)
    by (apply IH; intros x Hx; apply Hnone; now right).
  destruct (is_visible page s) as [[|]|] eqn:Hs; try exact Hrest.
  destruct (inner_text page s) as [t|] eqn:Ht; [|exact Hrest].
  exfalso. apply (Hnone s); [now left|]. exists t. now split.
Qed.

Lemma first_error_text_found (page : Page) (before after : list string)
    (selector text : string) :
  shows page selector text ->
  (forall s, In s before -> ~ exists t, shows page s t) ->
  CostcoAuthenticator.first_error_text page (before ++ selector :: after) = Some text.
Proof.
  intros [Hvis Htext] Hbefore.
  induction before as [|s rest IH]; cbn [app CostcoAuthenticator.first_error_text].
  - now rewrite Hvis, Htext.
  - assert (Hrest : CostcoAuthenticator.first_error_text page
                      (rest ++ selector :: after) = Some text)
      by (apply IH; intros x Hx; apply Hbefore; now right).
    destruct (is_visible page s) as [[|]|] eqn:Hs; try exact Hrest.
    destruct (inner_text page s) as [t|] eqn:Ht; [|exact Hrest].
    exfalso. apply (Hbefore s); [now left|]. exists t. now split.
Qed.

(** A visible error indicator gives the loop a text to return. *)
Lemma first_error_text_some (page : Page) (selectors : list string) :
  (exists s t, In s selectors /\ shows page s t) ->
  exists text, CostcoAuthenticator.first_error_text page selectors = Some text.
Proof.
  induction selectors as [|s rest IH]; intros [x [t [Hin Hshow]]];
    cbn [CostcoAuthenticator.first_error_text]; [destruct Hin|].
  destruct Hin as [->|Hin].
  - destruct Hshow as [Hvis Htext]. rewrite Hvis, Htext. now exists t.
  - assert (Hrest : exists text,
               CostcoAuthenticator.first_error_text page rest = Some text)
      by (apply IH; exists x, t; now split).
    destruct (is_visible page s) as [[|]|]; try exact Hrest.
    destruct (inner_text page s) as [t'|]; [now exists t' | exact Hrest].
Qed.

Lemma no_error_text (page : Page) :
  ~ error_shown page ->
  CostcoAuthenticator.first_error_text page CostcoAuthenticator.error_indicators = None.
Proof.
  intros Hnone. apply first_error_text_none.
  intros s Hs [t Ht]. apply Hnone. exists s, t. now split.
Qed.

Lemma on_login_url_spec (current_url : string) :
  CostcoAuthenticator.on_login_url current_url = true <-> login_url current_url.
Proof.
  unfold CostcoAuthenticator.on_login_url, login_url.
  rewrite !orb_true_iff. cbn [In]. split.
  - intros [[H|H]|H]; eexists; (split; [|exact H]); tauto.
  - intros [term [[<-|[<-|[<-|[]]]] H]]; tauto.
Qed.

Lemma still_on_login_spec (page : Page) :
  CostcoAuthenticator.on_login_url (url page) = true
  /\ (exists n, count page CostcoAuthenticator.login_fields = Some n
                /\ (0 <? n) = true)
  <-> still_on_login page.
Proof.
  unfold still_on_login. rewrite on_login_url_spec.
  split; intros [Hurl [n [Hn Hpos]]]; (split; [exact Hurl|]); exists n;
    (split; [exact Hn|]); now apply Z.ltb_lt.
Qed.

Lemma check_login_result_unseen (page : Page) :
  ~ error_shown page ->
  ~ some_visible page CostcoAuthenticator.tfa_indicators ->
  CostcoAuthenticator._check_login_result page = form_check page.
Proof.
  intros Herr Htfa. unfold CostcoAuthenticator._check_login_result.
  rewrite no_error_text by assumption.
  rewrite any_visible_false by assumption. reflexivity.
Qed.

Lemma form_check_still (page : Page) :
  still_on_login page ->
  form_check page
  = Some (AuthResult.make false "Still on login page after submission").
Proof.
  intros Hstill. apply still_on_login_spec in Hstill as [Hurl [n [Hn Hpos]]].
  unfold form_check. now rewrite Hurl, Hn, Hpos.
Qed.

Lemma form_check_raises_spec (page : Page) :
  form_check_raises page -> form_check page = None.
Proof.
  intros [Hurl Hcount]. apply on_login_url_spec in Hurl.
  unfold form_check. now rewrite Hurl, Hcount.
Qed.

Lemma form_check_passed (page : Page) :
  ~ still_on_login page -> ~ form_check_raises page ->
  form_check page = Some (CostcoAuthenticator.success_or_unclear page).
Proof.
  intros Hstill Hraises. unfold form_check.
  destruct (CostcoAuthenticator.on_login_url (url page)) eqn:Hurl; [|reflexivity].
  destruct (count page CostcoAuthenticator.login_fields) as [n|] eqn:Hcount.
  - destruct (0 <? n) eqn:Hpos; [|reflexivity].
    exfalso. apply Hstill, still_on_login_spec. split; [exact Hurl|]. now exists n.
  - exfalso. apply Hraises. split; [now apply on_login_url_spec | exact Hcount].
Qed.

(** What is left of the three outcomes of the form check when a result is
    returned that is not the failure of rule 3. *)
Lemma form_check_some (page : Page) (r : AuthResult.t) :
  form_check page = Some r ->
  (still_on_login page
   /\ r = AuthResult.make false "Still on login page after submission")
  \/ (~ still_on_login page /\ ~ form_check_raises page
      /\ r = CostcoAuthenticator.success_or_unclear page).
Proof.
  unfold form_check.
  destruct (CostcoAuthenticator.on_login_url (url page)) eqn:Hurl.
  - destruct (count page CostcoAuthenticator.login_fields) as [n|] eqn:Hcount;
      [|discriminate].
    destruct (0 <? n) eqn:Hpos; intros [= <-].
    + left. split; [|reflexivity]. apply still_on_login_spec.
      split; [exact Hurl|]. now exists n.
    + right. split; [|split; [|reflexivity]].
      * intros H. apply still_on_login_spec in H as [_ [m [Hm Hmpos]]]. congruence.
      * intros [_ H]. congruence.
  - intros [= <-]. right. split; [|split; [|reflexivity]].
    + intros H. apply still_on_login_spec in H as [H _]. congruence.
    + intros [H _]. apply on_login_url_spec in H. congruence.
Qed.

(** C3. [_check_login_result] is the ordered decision list, the first rule
    that applies deciding: (1) the first error indicator that is visible
    and whose text can be read gives a failure whose message carries its
    text; (2) otherwise a visible two-factor indicator gives the two-factor
    result; (3) otherwise a login address with a login-form field present
    gives a failure, and a login address at which counting the login-form
    fields raises makes the evaluation raise; (4) otherwise a visible
    success indicator gives success; (5) otherwise an address that is no
    login address gives success; (6) otherwise the result is the failure
    "Login status unclear". In particular an error indicator that is
    visible and whose text can be read gives a failure whatever the
    address and the success indicators are. *)
Theorem login_result_decision_list (page : Page) :
  let result := CostcoAuthenticator._check_login_result page in
  (forall text, first_error_shown page text ->
     result = Some (AuthResult.make false (String.append "Login error: " text)))
  /\ (~ error_shown page ->
      some_visible page CostcoAuthenticator.tfa_indicators ->
      result = Some two_factor_result)
  /\ (~ error_shown page ->
      ~ some_visible page CostcoAuthenticator.tfa_indicators ->
      still_on_login page ->
      result = Some (AuthResult.make false "Still on login page after submission"))
  /\ (~ error_shown page ->
      ~ some_visible page CostcoAuthenticator.tfa_indicators ->
      form_check_raises page ->
      result = None)
  /\ (~ error_shown page ->
      ~ some_visible page CostcoAuthenticator.tfa_indicators ->
      ~ still_on_login page ->
      ~ form_check_raises page ->
      some_visible page CostcoAuthenticator.success_indicators ->
      result = Some (AuthResult.make true "Login successful"))
  /\ (~ error_shown page ->
      ~ some_visible page CostcoAuthenticator.tfa_indicators ->
      ~ still_on_login page ->
      ~ form_check_raises page ->
      ~ some_visible page CostcoAuthenticator.success_indicators ->
      ~ login_url (url page) ->
      result = Some (AuthResult.make true "Login successful - redirected"))
  /\ (~ error_shown page ->
      ~ some_visible page CostcoAuthenticator.tfa_indicators ->
      ~ still_on_login page ->
      ~ form_check_raises page ->
      ~ some_visible page CostcoAuthenticator.success_indicators ->
      login_url (url page) ->
      result = Some (AuthResult.make false "Login status unclear"))
  /\ (error_shown page ->
      exists r text,
        result = Some r
        /\ AuthResult.success r = false
        /\ AuthResult.requires_2fa r = false
        /\ first_error_shown page text
        /\ AuthResult.message r = String.append "Login error: " text).
Proof.
  cbv zeta.
  assert (Hurl : ~ login_url (url page) ->
            CostcoAuthenticator.on_login_url (url page) = false).
  { intros Hn. destruct (CostcoAuthenticator.on_login_url _) eqn:E; [|reflexivity].
    exfalso. now apply Hn, on_login_url_spec. }
  repeat match goal with |- _ /\ _ => split end.
  - intros text [before [selector [after [Hlist [Hshow Hbefore]]]]].
    unfold CostcoAuthenticator._check_login_result.
    rewrite Hlist, (first_error_text_found page before after selector text) by assumption.
    reflexivity.
  - intros Herr Htfa. unfold CostcoAuthenticator._check_login_result.
    rewrite no_error_text by assumption.
    apply any_visible_spec in Htfa. rewrite Htfa. reflexivity.
  - intros Herr Htfa Hlogin. rewrite check_login_result_unseen by assumption.
    now apply form_check_still.
  - intros Herr Htfa Hraises. rewrite check_login_result_unseen by assumption.
    now apply form_check_raises_spec.
  - intros Herr Htfa Hlogin Hraises Hok.
    rewrite check_login_result_unseen, form_check_passed by assumption.
    unfold CostcoAuthenticator.success_or_unclear.
    apply any_visible_spec in Hok. now rewrite Hok.
  - intros Herr Htfa Hlogin Hraises Hok Haway.
    rewrite check_login_result_unseen, form_check_passed by assumption.
    unfold CostcoAuthenticator.success_or_unclear.
    rewrite any_visible_false by assumption. now rewrite Hurl by assumption.
  - intros Herr Htfa Hlogin Hraises Hok Hurl'.
    rewrite check_login_result_unseen, form_check_passed by assumption.
    unfold CostcoAuthenticator.success_or_unclear.
    rewrite any_visible_false by assumption.
    apply on_login_url_spec in Hurl'. now rewrite Hurl'.
  - intros [selector [text Hshown]].
    unfold CostcoAuthenticator._check_login_result.
    destruct (first_error_text_some page CostcoAuthenticator.error_indicators)
      as [t Ht]; [now exists selector, text|].
    rewrite Ht. eexists. exists t. split; [reflexivity|].
    split; [reflexivity|]. split; [reflexivity|]. split; [|reflexivity].
    clear - Ht. revert Ht. unfold first_error_shown.
    generalize CostcoAuthenticator.error_indicators as l.
    induction l as [|s rest IH]; cbn [CostcoAuthenticator.first_error_text];
      [discriminate|].
    intros Ht.
    assert (Hskip : CostcoAuthenticator.first_error_text page rest = Some t ->
              (~ exists t', shows page s t') ->
              exists before selector after,
                s :: rest = before ++ selector :: after /\ shows page selector t
                /\ forall x, In x before -> ~ exists t', shows page x t').
    { intros Hrest Hs. destruct (IH Hrest) as [b [x [a [Hl [Hx Hb]]]]].
      exists (s :: b), x, a. split; [cbn; now rewrite Hl|]. split; [exact Hx|].
      intros y [<-|Hy]; [exact Hs | now apply Hb]. }
    destruct (is_visible page s) as [[|]|] eqn:Hs.
    + destruct (inner_text page s) as [t'|] eqn:Ht'.
      * injection Ht as <-. exists [], s, rest. split; [reflexivity|].
        split; [now split | intros ? []].
      * apply Hskip; [exact Ht|]. intros [t' [_ Hx]]. congruence.
    + apply Hskip; [exact Ht|]. intros [t' [Hx _]]. congruence.
    + apply Hskip; [exact Ht|]. intros [t' [Hx _]]. congruence.
Qed.

Lemma login_result_decision_list_witness :
  error_shown banner_page
  /\ some_visible banner_page CostcoAuthenticator.success_indicators
  /\ ~ login_url (url banner_page)
  /\ CostcoAuthenticator._check_login_result banner_page
     = Some (AuthResult.make false "Login error: Invalid email or password").
Proof.
  assert (Hshow : shows banner_page ".alert-danger" "Invalid email or password")
    by (split; reflexivity).
  split.
  { exists ".alert-danger"%string, "Invalid email or password"%string.
    split; [cbn; tauto | exact Hshow]. }
  split.
  { exists ":has-text(Sign Out)"%string. split; [cbn; tauto | reflexivity]. }
  split.
  { intros [term [[<-|[<-|[<-|[]]]] H]]; vm_compute in H; discriminate H. }
  apply (proj1 (login_result_decision_list banner_page)).
  exists [".error"%string], ".alert-danger"%string,
    (tl (tl CostcoAuthenticator.error_indicators)).
  split; [reflexivity|]. split; [exact Hshow|].
  intros s [<-|[]] [t [Hvis _]]. vm_compute in Hvis. discriminate Hvis.
Defined.

(** An error indicator that is visible but whose text cannot be read is
    passed over, and a success indicator then decides; and at a login
    address the evaluation raises when the login-form fields cannot be
    counted. *)
Lemma login_result_decision_list_counterexample :
  some_visible unreadable_banner_page CostcoAuthenticator.error_indicators
  /\ CostcoAuthenticator._check_login_result unreadable_banner_page
     = Some (AuthResult.make true "Login successful")
  /\ login_url (url uncountable_form_page)
  /\ CostcoAuthenticator._check_login_result uncountable_form_page = None.
Proof.
  split.
  { exists ".error"%string. split; [cbn; tauto | reflexivity]. }
  split; [vm_compute; reflexivity|].
  split; [|vm_compute; reflexivity].
  exists "logon"%string. split; [cbn; tauto | vm_compute; reflexivity].
Qed.

(** The other rules at work. *)
Example login_result_examples :
  CostcoAuthenticator._check_login_result code_page = Some two_factor_result
  /\ CostcoAuthenticator._check_login_result form_page
     = Some (AuthResult.make false "Still on login page after submission").
Proof. by_evaluation. Qed.

(* ===================================================================== *)
(** ** The login loop *)
(* ===================================================================== *)

Lemma check_login_result_2fa (page : Page) (r : AuthResult.t) :
  CostcoAuthenticator._check_login_result page = Some r ->
  AuthResult.requires_2fa r = true -> AuthResult.success r = false.
Proof.
  unfold CostcoAuthenticator._check_login_result.
  destruct (CostcoAuthenticator.first_error_text _ _); [now intros [= <-]|].
  destruct (CostcoAuthenticator.any_visible page CostcoAuthenticator.tfa_indicators);
    [now intros [= <-]|].
  fold (form_check page). intros Hr.
  destruct (form_check_some page r Hr) as [[_ ->]|[_ [_ ->]]]; [reflexivity|].
  unfold CostcoAuthenticator.success_or_unclear.
  destruct (CostcoAuthenticator.any_visible _ _); [discriminate|].
  destruct (negb _); [discriminate | reflexivity].
Qed.

(** An attempt that asks for the second factor is not a success. *)
Lemma attempt_2fa_not_success (env : CostcoAuthenticator.attempt_env) (r : AuthResult.t) :
  CostcoAuthenticator._attempt_login env = Some r ->
  AuthResult.requires_2fa r = true -> AuthResult.success r = false.
Proof.
  unfold CostcoAuthenticator._attempt_login.
  destruct (CostcoAuthenticator.goto_raises env); [discriminate|].
  destruct (CostcoAuthenticator._is_logged_in _); [intros [= <-]; discriminate|].
  destruct (negb (CostcoAuthenticator._fill_login_form env));
    [intros [= <-]; discriminate|].
  destruct (negb (CostcoAuthenticator._submit_login_form env));
    [intros [= <-]; discriminate|].
  apply check_login_result_2fa.
Qed.

Section LoginLoop.

Variable max_retries : Z.
Variable envs : Z -> CostcoAuthenticator.attempt_env.

(** The loop, started at [attempt] with every earlier attempt below it,
    stops at the attempt that asks for the second factor. *)
Lemma login_from_two_factor (remaining : nat) :
  forall (attempt : Z) (trace0 : list CostcoAuthenticator.event),
    (forall j, In (CostcoAuthenticator.EAttempt j) trace0 -> j < attempt) ->
    forall (k : Z) (r : AuthResult.t),
      let run := CostcoAuthenticator.login_from remaining attempt max_retries envs trace0 in
      In (CostcoAuthenticator.EAttempt k) (snd run) ->
      attempt <= k ->
      CostcoAuthenticator._attempt_login (envs k) = Some r ->
      AuthResult.requires_2fa r = true ->
      fst run = r
      /\ (exists before, snd run = before ++ [CostcoAuthenticator.EAttempt k])
      /\ (forall j, In (CostcoAuthenticator.EAttempt j) (snd run) -> j <= k).
Proof.
  induction remaining as [|remaining IH]; intros attempt trace0 Hbelow k r;
    cbv zeta; cbn [CostcoAuthenticator.login_from fst snd].
  - intros Hin Hle. apply Hbelow in Hin. lia.
  - intros Hin Hle Hk H2fa.
    assert (Hbelow' : forall extra,
              (forall j, In (CostcoAuthenticator.EAttempt j) extra -> False) ->
              forall j,
                In (CostcoAuthenticator.EAttempt j)
                   ((trace0 ++ [CostcoAuthenticator.EAttempt attempt]) ++ extra) ->
                j < attempt + 1).
    { intros extra Hextra j Hj.
      rewrite !in_app_iff in Hj. cbn [In] in Hj.
      destruct Hj as [[Hj|[[= <-]|[]]]|Hj].
      - apply Hbelow in Hj. lia.
      - lia.
      - destruct (Hextra j Hj). }
    assert (Hless : forall extra,
              (forall j, In (CostcoAuthenticator.EAttempt j) extra -> False) ->
              forall j,
                In (CostcoAuthenticator.EAttempt j)
                   (trace0 ++ [CostcoAuthenticator.EAttempt attempt]) ->
                j < attempt + 1).
    { intros extra Hextra j Hj. apply (Hbelow' [] (fun _ H => H)).
      rewrite app_nil_r. exact Hj. }
    destruct (Z.eq_dec k attempt) as [->|Hne].
    + (* the attempt at hand is the one that asks for the second factor *)
      rewrite Hk in *. rewrite (attempt_2fa_not_success _ _ Hk H2fa) in *.
      rewrite H2fa in *. cbn [fst snd] in *.
      split; [reflexivity|]. split; [now exists trace0|].
      intros j Hj. assert (j < attempt + 1); [|lia].
      apply (Hless [] (fun _ H => H)), Hj.
    + (* a later one: the attempt at hand must have been passed over *)
      assert (Hlater : attempt + 1 <= k) by lia.
      destruct (CostcoAuthenticator._attempt_login (envs attempt)) as [res|].
      * destruct (AuthResult.success res).
        { cbn [fst snd] in Hin. exfalso.
          assert (k < attempt + 1); [|lia].
          apply (Hbelow' [CostcoAuthenticator.ESaveSession]); [|exact Hin].
          intros j [Hj|[]]. discriminate Hj. }
        destruct (AuthResult.requires_2fa res).
        { cbn [fst snd] in Hin. exfalso.
          assert (k < attempt + 1); [|lia].
          apply (Hless [] (fun _ H => H)), Hin. }
        apply (IH (attempt + 1)); try assumption.
        destruct (attempt <? max_retries).
        -- apply Hbelow'. intros j [Hj|[]]. discriminate Hj.
        -- apply (Hless [] (fun _ H => H)).
      * apply (IH (attempt + 1)); try assumption.
        destruct (attempt <? max_retries).
        -- apply Hbelow'. intros j [Hj|[]]. discriminate Hj.
        -- apply (Hless [] (fun _ H => H)).
Qed.

(** Attempts are numbered from the start of the loop on. *)
Lemma login_from_attempts_from (remaining : nat) :
  forall (attempt : Z) (trace0 : list CostcoAuthenticator.event) (k : Z),
    In (CostcoAuthenticator.EAttempt k)
       (snd (CostcoAuthenticator.login_from remaining attempt max_retries envs trace0)) ->
    In (CostcoAuthenticator.EAttempt k) trace0 \/ attempt <= k.
Proof.
  induction remaining as [|remaining IH]; intros attempt trace0 k;
    cbn [CostcoAuthenticator.login_from snd].
  - now left.
  - assert (Hstep : forall extra,
              (forall j, In (CostcoAuthenticator.EAttempt j) extra -> False) ->
              In (CostcoAuthenticator.EAttempt k)
                 ((trace0 ++ [CostcoAuthenticator.EAttempt attempt]) ++ extra) ->
              In (CostcoAuthenticator.EAttempt k) trace0 \/ attempt <= k).
    { intros extra Hextra Hj. rewrite !in_app_iff in Hj. cbn [In] in Hj.
      destruct Hj as [[Hj|[[= <-]|[]]]|Hj];
        [now left | right; lia | destruct (Hextra k Hj)]. }
    assert (Hstep0 : In (CostcoAuthenticator.EAttempt k)
                        (trace0 ++ [CostcoAuthenticator.EAttempt attempt]) ->
                     In (CostcoAuthenticator.EAttempt k) trace0 \/ attempt <= k).
    { intros Hj. apply (Hstep [] (fun _ H => H)). now rewrite app_nil_r. }
    assert (Hrec : forall t',
              (In (CostcoAuthenticator.EAttempt k) t' ->
               In (CostcoAuthenticator.EAttempt k) trace0 \/ attempt <= k) ->
              In (CostcoAuthenticator.EAttempt k)
                 (snd (CostcoAuthenticator.login_from remaining (attempt + 1)
                         max_retries envs t')) ->
              In (CostcoAuthenticator.EAttempt k) trace0 \/ attempt <= k).
    { intros t' Ht' Hj. apply IH in Hj as [Hj|Hj]; [now apply Ht' | right; lia]. }
    destruct (CostcoAuthenticator._attempt_login (envs attempt)) as [res|].
    + destruct (AuthResult.success res).
      { cbn [snd]. apply Hstep. intros j [Hj|[]]. discriminate Hj. }
      destruct (AuthResult.requires_2fa res); [cbn [snd]; exact Hstep0|].
      apply Hrec. destruct (attempt <? max_retries); [|exact Hstep0].
      apply Hstep. intros j [Hj|[]]. discriminate Hj.
    + apply Hrec. destruct (attempt <? max_retries); [|exact Hstep0].
      apply Hstep. intros j [Hj|[]]. discriminate Hj.
Qed.

End LoginLoop.

(** C7. Whatever its number, an attempt that [login] makes and that
    evaluates to a result asking for the second factor ends the loop:
    [login] returns that very result, the attempt is the last thing the
    loop did (no sleep and no attempt follows it), and the result has
    [success] false and [requires_2fa] true. *)
Theorem two_factor_is_terminal (max_retries : Z)
    (envs : Z -> CostcoAuthenticator.attempt_env) (k : Z) (r : AuthResult.t) :
  let run := CostcoAuthenticator.login max_retries envs in
  In (CostcoAuthenticator.EAttempt k) (snd run) ->
  CostcoAuthenticator._attempt_login (envs k) = Some r ->
  AuthResult.requires_2fa r = true ->
  fst run = r
  /\ AuthResult.success (fst run) = false
  /\ AuthResult.requires_2fa (fst run) = true
  /\ (exists before, snd run = before ++ [CostcoAuthenticator.EAttempt k])
  /\ (forall j, In (CostcoAuthenticator.EAttempt j) (snd run) -> j <= k).
Proof.
  cbv zeta. unfold CostcoAuthenticator.login. intros Hin Hk H2fa.
  assert (Hfrom : 1 <= k).
  { apply login_from_attempts_from in Hin as [[]|Hle]. exact Hle. }
  destruct (login_from_two_factor max_retries envs (Z.to_nat max_retries) 1 []
              (fun j (H : In _ []) => match H with end) k r Hin Hfrom Hk H2fa)
    as [Hres [Hlast Hmax]].
  split; [exact Hres|]. rewrite Hres.
  split; [eapply attempt_2fa_not_success; eassumption|].
  split; [exact H2fa|]. split; [exact Hlast | exact Hmax].
Qed.

Lemma two_factor_is_terminal_witness :
  snd (CostcoAuthenticator.login 5 three_attempts)
  = [CostcoAuthenticator.EAttempt 1; CostcoAuthenticator.EErrorSleep;
     CostcoAuthenticator.EAttempt 2; CostcoAuthenticator.EBackoffSleep 2;
     CostcoAuthenticator.EAttempt 3]
  /\ fst (CostcoAuthenticator.login 5 three_attempts) = two_factor_result.
Proof.
  split; [vm_compute; reflexivity|].
  apply (two_factor_is_terminal 5 three_attempts 3 two_factor_result).
  - vm_compute. tauto.
  - vm_compute. reflexivity.
  - reflexivity.
Defined.

(** The last permitted attempt may be the one that asks for the code, and
    a success or an exhausted loop ends as the source says. *)
Example login_other_endings :
  CostcoAuthenticator.login 3 three_attempts
  = (two_factor_result,
     [CostcoAuthenticator.EAttempt 1; CostcoAuthenticator.EErrorSleep;
      CostcoAuthenticator.EAttempt 2; CostcoAuthenticator.EBackoffSleep 2;
      CostcoAuthenticator.EAttempt 3])
  /\ CostcoAuthenticator.login 2 three_attempts
     = (AuthResult.make false "Login failed after 2 attempts",
        [CostcoAuthenticator.EAttempt 1; CostcoAuthenticator.EErrorSleep;
         CostcoAuthenticator.EAttempt 2])
  /\ CostcoAuthenticator.login 0 three_attempts
     = (AuthResult.make false "Login failed after 0 attempts", []).
Proof. by_evaluation. Qed.

(* ===================================================================== *)
(** ** Rate limiter *)
(* ===================================================================== *)





















(** The third call of the witness, effect by effect: it is entered 27 s
    after midnight, sleeps 43 s until the request of 10 s is 60 s old,
    sleeps its own delay, and records its entry time. *)
Example third_call_blocks :
  option_map (fun st => (RateLimiter.last_request_times (fst st), snd st))
    (RateLimiter.gated_calls (cap_two, midnight) [call_1; call_2; call_3])
  = Some ([new_year + clock_seconds 10; new_year + clock_seconds 18;
           new_year + clock_seconds 27],
          {| clock := new_year + clock_seconds 72;
             log := [Slept (clock_seconds 3); Recorded (new_year + clock_seconds 10);
                     Slept (clock_seconds 4); Recorded (new_year + clock_seconds 18);
                     Slept (clock_seconds 43); Slept (clock_seconds 2);
                     Recorded (new_year + clock_seconds 27)] |}).
Proof. vm_compute. reflexivity. Qed.

(** A cap of zero makes the first call fail: [min] of an empty list. *)
Example cap_zero_raises :
  RateLimiter.wait_if_needed
    {| RateLimiter.min_delay := clock_seconds 2;
       RateLimiter.max_delay := clock_seconds 8;
       RateLimiter.requests_per_minute := 0;
       RateLimiter.last_request_times := [] |}
    (clock_seconds 2) midnight = None.
Proof. reflexivity. Qed.

(** The times of the witness are times the clock can read. *)
Example witness_times_representable :
  representable new_year /\ representable (new_year + clock_seconds 72).
Proof. split; split; vm_compute; (reflexivity || discriminate). Qed.

(* ===================================================================== *)
(** ** Circuit breaker *)
(* ===================================================================== *)

(** What [should_continue] tests: the count has reached the threshold and
    the [seconds] field of the time since the last error is below the
    window. *)
Lemma should_continue_false (self : ErrorRecovery.t) (error_type : string)
    (max_errors time_window : Z) (now : Datetime.datetime) :
  ErrorRecovery.should_continue self error_type max_errors time_window now = false
  <-> max_errors <= default 0 (ErrorRecovery.error_counts self !! error_type)
      /\ exists last,
           ErrorRecovery.last_error_time self !! error_type = Some last
           /\ Datetime.seconds (Datetime.sub now last) < time_window.
Proof.
  unfold ErrorRecovery.should_continue.
  destruct (max_errors <=? _) eqn:Hcount.
  - apply Z.leb_le in Hcount.
    destruct (ErrorRecovery.last_error_time self !! error_type) as [last|].
    + destruct (Datetime.seconds (Datetime.sub now last) <? time_window) eqn:Hwin.
      * apply Z.ltb_lt in Hwin. split; [|reflexivity].
        intros _. split; [exact Hcount|]. now exists last.
      * apply Z.ltb_ge in Hwin. split; [discriminate|].
        intros [_ [l [[= <-] Hl]]]. lia.
    + split; [discriminate | intros [_ [l [Hl _]]]; discriminate Hl].
  - apply Z.leb_gt in Hcount. split; [discriminate | intros [Hle _]; lia].
Qed.

(** After [reset_error_count] the kind may continue, whatever the
    threshold, the window and the time. *)
Lemma reset_allows_continue (self : ErrorRecovery.t) (error_type : string)
    (max_errors time_window : Z) (now : Datetime.datetime) :
  ErrorRecovery.should_continue
    (ErrorRecovery.reset_error_count self error_type)
    error_type max_errors time_window now = true.
Proof.
  unfold ErrorRecovery.should_continue, ErrorRecovery.reset_error_count.
  cbn [ErrorRecovery.error_counts ErrorRecovery.last_error_time].
  rewrite lookup_delete_eq. now destruct (max_errors <=? _).
Qed.

(** Resetting one kind leaves the others as they were. *)
Lemma reset_other_kind (self : ErrorRecovery.t) (error_type other : string)
    (max_errors time_window : Z) (now : Datetime.datetime) :
  error_type <> other ->
  ErrorRecovery.should_continue
    (ErrorRecovery.reset_error_count self error_type)
    other max_errors time_window now
  = ErrorRecovery.should_continue self other max_errors time_window now.
Proof.
  intros Hne. unfold ErrorRecovery.should_continue, ErrorRecovery.reset_error_count.
  cbn [ErrorRecovery.error_counts ErrorRecovery.last_error_time].
  now rewrite lookup_insert_ne, lookup_delete_ne.
Qed.

(** Less than a day after the last error, the [seconds] field is the
    whole time elapsed. *)
Lemma seconds_within_a_day (now last : Datetime.datetime) :
  0 <= Datetime.to_microseconds now - Datetime.to_microseconds last < 86400000000 ->
  Datetime.seconds (Datetime.sub now last)
  = Datetime.whole_total_seconds (Datetime.sub now last).
Proof.
  intros Hgap. unfold Datetime.sub, Datetime.whole_total_seconds,
    Datetime.timedelta_of_microseconds.
  cbn [Datetime.days Datetime.seconds].
  rewrite (Z.div_small _ 86400000000) by exact Hgap. lia.
Qed.

(** So the breaker is the one the words describe as long as the last
    error of the kind is less than a day old. *)
Lemma should_continue_within_a_day (self : ErrorRecovery.t) (error_type : string)
    (max_errors time_window : Z) (now last : Datetime.datetime) :
  ErrorRecovery.last_error_time self !! error_type = Some last ->
  0 <= Datetime.to_microseconds now - Datetime.to_microseconds last < 86400000000 ->
  (ErrorRecovery.should_continue self error_type max_errors time_window now = false
   <-> max_errors <= default 0 (ErrorRecovery.error_counts self !! error_type)
       /\ within_window now last time_window).
Proof.
  intros Hlast Hgap. rewrite should_continue_false. unfold within_window.
  rewrite <- (seconds_within_a_day now last Hgap). split.
  - intros [Hcount [l [Hl Hwin]]]. split; [exact Hcount|]. congruence.
  - intros [Hcount Hwin]. split; [exact Hcount|]. now exists last.
Qed.

(** C9, as the code has it. Five "timeout" errors are recorded at noon.
    Ten seconds later [should_continue] is false for a threshold of five
    and a window of 300 seconds, and after [reset_error_count] it is true
    again. But one day and ten seconds after the last error, 86410
    seconds, which is outside the window, [should_continue] is still
    false: the source compares the [seconds] field of the elapsed time,
    which is 10, and not the elapsed time. *)
Theorem stale_errors_still_abort :
  default 0 (ErrorRecovery.error_counts five_timeouts !! "timeout"%string) = 5
  /\ ErrorRecovery.last_error_time five_timeouts !! "timeout"%string = Some noon
  /\ ErrorRecovery.should_continue five_timeouts "timeout" 5 300 ten_seconds_later
     = false
  /\ ErrorRecovery.should_continue
       (ErrorRecovery.reset_error_count five_timeouts "timeout")
       "timeout" 5 300 ten_seconds_later = true
  /\ Datetime.whole_total_seconds (Datetime.sub next_day noon) = 86410
  /\ ~ within_window next_day noon 300
  /\ Datetime.seconds (Datetime.sub next_day noon) = 10
  /\ ErrorRecovery.should_continue five_timeouts "timeout" 5 300 next_day = false.
Proof.
  split; [vm_compute; reflexivity|].
  split; [vm_compute; reflexivity|].
  split; [vm_compute; reflexivity|].
  split; [apply reset_allows_continue|].
  split; [vm_compute; reflexivity|].
  split; [unfold within_window; vm_compute; discriminate|].
  split; vm_compute; reflexivity.
Qed.

(** Below the threshold, and for a kind never recorded, the run goes on. *)
Example breaker_below_threshold :
  ErrorRecovery.should_continue
    (record_errors 4 ErrorRecovery.new "timeout" noon)
    "timeout" 5 300 ten_seconds_later = true
  /\ ErrorRecovery.should_continue five_timeouts "navigation" 5 300 ten_seconds_later
     = true.
Proof. by_evaluation. Qed.

(* ===================================================================== *)
(** ** Further properties of the batch and of the breaker *)
(* ===================================================================== *)

Lemma scrape_current_page_guards (receipt_data : list (ScrapedData * Z)) :
  Forall passed_guards (ReceiptScraper._scrape_current_page receipt_data).
Proof.
  induction receipt_data as [|[data now] rest IH];
    cbn [ReceiptScraper._scrape_current_page]; [apply List.Forall_nil|].
  destruct (ReceiptScraper._parse_receipt_data data now) as [r|] eqn:Hr; [|exact IH].
  apply List.Forall_cons; [|exact IH].
  exact (emitted_receipt_fields data now r Hr).
Qed.

Lemma scrape_time_range_guards (pages : list ReceiptScraper.page) :
  Forall passed_guards (ReceiptScraper._scrape_time_range pages).
Proof.
  induction pages as [|p rest IH]; cbn [ReceiptScraper._scrape_time_range];
    [apply List.Forall_nil|].
  pose proof (scrape_current_page_guards (ReceiptScraper.scan p)) as Hpage.
  destruct (ReceiptScraper._scrape_current_page (ReceiptScraper.scan p)) as [|r rs];
    [apply List.Forall_nil|].
  apply List.Forall_app. split; [exact Hpage|].
  destruct (ReceiptScraper.has_next p); [exact IH | apply List.Forall_nil].
Qed.

Lemma add_with_detection_guards (b : ReceiptBatch.t) (r : Receipt.t) :
  Forall passed_guards (ReceiptBatch.receipts b) -> passed_guards r ->
  Forall passed_guards
    (ReceiptBatch.receipts (ReceiptScraper.add_with_detection b r)).
Proof.
  intros Hb Hr. unfold ReceiptScraper.add_with_detection, ReceiptBatch.add_receipt.
  destruct (ReceiptScraper._is_duplicate_receipt b r);
    cbn [negb ReceiptBatch.receipts]; [exact Hb|].
  apply List.Forall_app. split; [exact Hb|].
  apply List.Forall_cons; [exact Hr | apply List.Forall_nil].
Qed.

Lemma fold_add_guards (rs : list Receipt.t) (b : ReceiptBatch.t) :
  Forall passed_guards (ReceiptBatch.receipts b) -> Forall passed_guards rs ->
  Forall passed_guards
    (ReceiptBatch.receipts (fold_left ReceiptScraper.add_with_detection rs b)).
Proof.
  revert b. induction rs as [|r rs IH]; intros b Hb Hrs; cbn [fold_left];
    [exact Hb|].
  inversion Hrs; subst. apply IH; [|assumption].
  now apply add_with_detection_guards.
Qed.

Lemma process_range_guards (b : ReceiptBatch.t) (run : ReceiptScraper.range_run) :
  Forall passed_guards (ReceiptBatch.receipts b) ->
  Forall passed_guards (ReceiptBatch.receipts (ReceiptScraper.process_range b run)).
Proof.
  intros Hb. unfold ReceiptScraper.process_range.
  destruct (ReceiptScraper.selected run).
  - destruct (ReceiptScraper.pages run) as [ps|]; [|exact Hb].
    assert (Hadded : Forall passed_guards
              (ReceiptBatch.receipts
                 (fold_left ReceiptScraper.add_with_detection
                    (ReceiptScraper._scrape_time_range ps) b)))
      by (apply fold_add_guards; [exact Hb | apply scrape_time_range_guards]).
    destruct (ReceiptScraper.delay_raises run); exact Hadded.
  - destruct (ReceiptScraper.delay_raises run); exact Hb.
Qed.

(** X1. Every receipt of a produced batch has a valid calendar date and an
    amount for which the comparison [total_amount <= 0] is false, and the
    counters of the batch are consistent. *)
Theorem produced_batch_guards (browser : string -> ReceiptScraper.range_run) :
  Forall passed_guards
    (ReceiptBatch.receipts (ReceiptScraper.discover_all_receipts browser))
  /\ counters_consistent (ReceiptScraper.discover_all_receipts browser).
Proof.
  unfold ReceiptScraper.discover_all_receipts.
  assert (Hinv : forall (ranges : list string) (b : ReceiptBatch.t),
            Forall passed_guards (ReceiptBatch.receipts b) /\ counters_consistent b ->
            let b' := fold_left (fun receipt_batch time_range =>
                         ReceiptScraper.process_range receipt_batch (browser time_range))
                        ranges b in
            Forall passed_guards (ReceiptBatch.receipts b') /\ counters_consistent b').
  { induction ranges as [|tr ranges IH]; intros b [Hb Hc]; cbn [fold_left];
      [now split|].
    apply IH. split; [now apply process_range_guards|].
    unfold ReceiptScraper.process_range.
    assert (Hfold : forall rs b0, counters_consistent b0 ->
              counters_consistent (fold_left ReceiptScraper.add_with_detection rs b0)).
    { induction rs as [|r rs IHr]; intros b0 Hb0; cbn [fold_left]; [exact Hb0|].
      apply IHr. now apply add_receipt_consistent. }
    destruct (ReceiptScraper.selected (browser tr)).
    - destruct (ReceiptScraper.pages (browser tr)) as [ps|];
        [|now apply add_failed_consistent].
      destruct (ReceiptScraper.delay_raises (browser tr));
        [apply add_failed_consistent|]; now apply Hfold.
    - destruct (ReceiptScraper.delay_raises (browser tr));
        [now apply add_failed_consistent | exact Hc]. }
  apply Hinv. split; [apply List.Forall_nil | apply empty_consistent].
Qed.

(** X2. [reset_error_count] clears the tracking of the kind: the count is
    0, no last occurrence is kept, and [should_continue] is true at once. *)
Theorem reset_reopens_breaker (self : ErrorRecovery.t) (error_type : string)
    (max_errors time_window : Z) (now : Datetime.datetime) :
  let self' := ErrorRecovery.reset_error_count self error_type in
  ErrorRecovery.error_counts self' !! error_type = Some 0
  /\ ErrorRecovery.last_error_time self' !! error_type = None
  /\ ErrorRecovery.should_continue self' error_type max_errors time_window now = true.
Proof.
  cbv zeta. unfold ErrorRecovery.reset_error_count.
  cbn [ErrorRecovery.error_counts ErrorRecovery.last_error_time].
  split; [apply lookup_insert_eq|]. split; [apply lookup_delete_eq|].
  apply (reset_allows_continue self).
Qed.

(** X3. While the last error of a kind is less than a day old,
    [should_continue] is false exactly when the count has reached the
    threshold and the last error lies within the window. *)
Theorem breaker_within_a_day (self : ErrorRecovery.t) (error_type : string)
    (max_errors time_window : Z) (now last : Datetime.datetime) :
  ErrorRecovery.last_error_time self !! error_type = Some last ->
  0 <= Datetime.to_microseconds now - Datetime.to_microseconds last < 86400000000 ->
  (ErrorRecovery.should_continue self error_type max_errors time_window now = false
   <-> max_errors <= default 0 (ErrorRecovery.error_counts self !! error_type)
       /\ within_window now last time_window).
Proof. apply should_continue_within_a_day. Qed.

Lemma breaker_within_a_day_witness :
  ErrorRecovery.should_continue five_timeouts "timeout" 5 300 ten_seconds_later = false
  <-> 5 <= default 0 (ErrorRecovery.error_counts five_timeouts !! "timeout"%string)
      /\ within_window ten_seconds_later noon 300.
Proof.
  apply (breaker_within_a_day five_timeouts "timeout" 5 300 ten_seconds_later noon).
  - vm_compute. reflexivity.
  - split; [apply Z.leb_le | apply Z.ltb_lt]; vm_compute; reflexivity.
Defined.

(* ===================================================================== *)
(** ** More on the login loop *)
(* ===================================================================== *)

(** No attempt returns a result that already claims a saved session. *)
Lemma attempt_session_not_saved (env : CostcoAuthenticator.attempt_env) (r : AuthResult.t) :
  CostcoAuthenticator._attempt_login env = Some r ->
  AuthResult.session_saved r = false.
Proof.
  unfold CostcoAuthenticator._attempt_login.
  destruct (CostcoAuthenticator.goto_raises env); [discriminate|].
  destruct (CostcoAuthenticator._is_logged_in _); [intros [= <-]; reflexivity|].
  destruct (negb (CostcoAuthenticator._fill_login_form env));
    [intros [= <-]; reflexivity|].
  destruct (negb (CostcoAuthenticator._submit_login_form env));
    [intros [= <-]; reflexivity|].
  unfold CostcoAuthenticator._check_login_result.
  destruct (CostcoAuthenticator.first_error_text _ _); [now intros [= <-]|].
  destruct (CostcoAuthenticator.any_visible (CostcoAuthenticator.after_submit env)
              CostcoAuthenticator.tfa_indicators); [now intros [= <-]|].
  fold (form_check (CostcoAuthenticator.after_submit env)). intros Hr.
  destruct (form_check_some _ r Hr) as [[_ ->]|[_ [_ ->]]]; [reflexivity|].
  unfold CostcoAuthenticator.success_or_unclear.
  destruct (CostcoAuthenticator.any_visible _ _); [reflexivity|].
  destruct (negb _); reflexivity.
Qed.

Section LoginLoopEndings.

Variable max_retries : Z.
Variable envs : Z -> CostcoAuthenticator.attempt_env.

Local Abbreviation run_from remaining attempt trace0 :=
  (CostcoAuthenticator.login_from remaining attempt max_retries envs trace0).

(** The loop stops at the attempt that succeeds, after saving the session. *)
Lemma login_from_success (remaining : nat) :
  forall (attempt : Z) (trace0 : list CostcoAuthenticator.event),
    (forall j, In (CostcoAuthenticator.EAttempt j) trace0 -> j < attempt) ->
    forall (k : Z) (r : AuthResult.t),
      In (CostcoAuthenticator.EAttempt k) (snd (run_from remaining attempt trace0)) ->
      attempt <= k ->
      CostcoAuthenticator._attempt_login (envs k) = Some r ->
      AuthResult.success r = true ->
      fst (run_from remaining attempt trace0) = AuthResult.with_session_saved r
      /\ (exists before,
            snd (run_from remaining attempt trace0)
            = before ++ [CostcoAuthenticator.EAttempt k;
                         CostcoAuthenticator.ESaveSession])
      /\ (forall j,
            In (CostcoAuthenticator.EAttempt j) (snd (run_from remaining attempt trace0)) ->
            j <= k).
Proof.
  induction remaining as [|remaining IH]; intros attempt trace0 Hbelow k r;
    cbn [CostcoAuthenticator.login_from fst snd].
  - intros Hin Hle. apply Hbelow in Hin. lia.
  - intros Hin Hle Hk Hok.
    assert (Hbelow' : forall extra,
              (forall j, In (CostcoAuthenticator.EAttempt j) extra -> False) ->
              forall j,
                In (CostcoAuthenticator.EAttempt j)
                   ((trace0 ++ [CostcoAuthenticator.EAttempt attempt]) ++ extra) ->
                j < attempt + 1).
    { intros extra Hextra j Hj.
      rewrite !in_app_iff in Hj. cbn [In] in Hj.
      destruct Hj as [[Hj|[[= <-]|[]]]|Hj].
      - apply Hbelow in Hj. lia.
      - lia.
      - destruct (Hextra j Hj). }
    assert (Hless : forall j,
                In (CostcoAuthenticator.EAttempt j)
                   (trace0 ++ [CostcoAuthenticator.EAttempt attempt]) ->
                j < attempt + 1).
    { intros j Hj. apply (Hbelow' [] (fun _ H => H)).
      rewrite app_nil_r. exact Hj. }
    assert (Hsave : forall j,
              In (CostcoAuthenticator.EAttempt j) [CostcoAuthenticator.ESaveSession] ->
              False)
      by (intros j [Hj|[]]; discriminate Hj).
    assert (Hsleep : forall e, is_sleep e = true ->
              forall j, In (CostcoAuthenticator.EAttempt j) [e] -> False)
      by (intros e He j [Heq|[]]; rewrite Heq in He; discriminate He).
    destruct (Z.eq_dec k attempt) as [->|Hne].
    + rewrite Hk in *. rewrite Hok in *. cbn [fst snd] in *.
      split; [reflexivity|]. split.
      * exists trace0. now rewrite <- app_assoc.
      * intros j Hj. assert (j < attempt + 1); [|lia].
        now apply (Hbelow' _ Hsave).
    + assert (Hlater : attempt + 1 <= k) by lia.
      destruct (CostcoAuthenticator._attempt_login (envs attempt)) as [res|].
      * destruct (AuthResult.success res).
        { cbn [fst snd] in Hin. exfalso.
          assert (k < attempt + 1); [|lia]. now apply (Hbelow' _ Hsave). }
        destruct (AuthResult.requires_2fa res).
        { cbn [fst snd] in Hin. exfalso.
          assert (k < attempt + 1); [|lia]. now apply Hless. }
        apply (IH (attempt + 1)); try assumption.
        destruct (attempt <? max_retries); [|exact Hless].
        apply Hbelow'. now apply Hsleep.
      * apply (IH (attempt + 1)); try assumption.
        destruct (attempt <? max_retries); [|exact Hless].
        apply Hbelow'. now apply Hsleep.
Qed.

(** When every attempt left is retryable the loop runs to its end: as many
    attempts as iterations, a sleep after each of them but the last, no
    session saved. *)
Lemma login_from_exhausted (remaining : nat) :
  forall (attempt : Z) (trace0 : list CostcoAuthenticator.event),
    attempt + Z.of_nat remaining = max_retries + 1 ->
    (forall k, attempt <= k <= max_retries -> retryable (envs k)) ->
    exists tail,
      run_from remaining attempt trace0
      = (AuthResult.make false (CostcoAuthenticator.failed_message max_retries),
         trace0 ++ tail)
      /\ count_events is_attempt tail = remaining
      /\ count_events is_sleep tail = pred remaining
      /\ ~ In CostcoAuthenticator.ESaveSession tail
      /\ (forall k, In (CostcoAuthenticator.EAttempt k) tail <->
                    attempt <= k <= max_retries).
Proof.
  induction remaining as [|remaining IH]; intros attempt trace0 Hend Hretry;
    cbn [CostcoAuthenticator.login_from].
  - exists []. rewrite app_nil_r. split; [reflexivity|].
    split; [reflexivity|]. split; [reflexivity|]. split; [intros []|].
    intros k. cbn [In]. split; [intros [] | lia].
  - assert (Hthis : retryable (envs attempt)) by (apply Hretry; lia).
    assert (Hnext : forall k, attempt + 1 <= k <= max_retries -> retryable (envs k))
      by (intros k Hk; apply Hretry; lia).
    assert (Hstep : forall sleep_event,
              is_sleep sleep_event = true ->
              exists tail,
                run_from remaining (attempt + 1)
                  (if attempt <? max_retries
                   then (trace0 ++ [CostcoAuthenticator.EAttempt attempt]) ++ [sleep_event]
                   else trace0 ++ [CostcoAuthenticator.EAttempt attempt])
                = (AuthResult.make false (CostcoAuthenticator.failed_message max_retries),
                   trace0 ++ tail)
                /\ count_events is_attempt tail = S remaining
                /\ count_events is_sleep tail = remaining
                /\ ~ In CostcoAuthenticator.ESaveSession tail
                /\ (forall k, In (CostcoAuthenticator.EAttempt k) tail <->
                              attempt <= k <= max_retries)).
    { intros sleep_event Hsleep.
      destruct (attempt <? max_retries) eqn:Hlast.
      - apply Z.ltb_lt in Hlast.
        destruct (IH (attempt + 1)
                    ((trace0 ++ [CostcoAuthenticator.EAttempt attempt]) ++ [sleep_event]))
          as [tail [Hrun [Hatt [Hsl [Hsave Hks]]]]]; [lia | exact Hnext|].
        exists (CostcoAuthenticator.EAttempt attempt :: sleep_event :: tail).
        split; [rewrite Hrun; f_equal; now rewrite <- !app_assoc|].
        unfold count_events in *. cbn [List.filter is_attempt].
        destruct sleep_event; try discriminate Hsleep;
          cbn [List.filter is_attempt is_sleep length];
          (split; [now rewrite Hatt|]);
          (split; [rewrite Hsl; destruct remaining; [lia | reflexivity]|]);
          (split; [intros [H|[H|H]]; [discriminate H | discriminate H | now apply Hsave]|]);
          intros k; cbn [In]; rewrite Hks; split.
        + intros [[= <-]|[H|H]]; [lia | discriminate H | lia].
        + intros Hk. destruct (Z.eq_dec k attempt) as [->|]; [now left | right; right; lia].
        + intros [[= <-]|[H|H]]; [lia | discriminate H | lia].
        + intros Hk. destruct (Z.eq_dec k attempt) as [->|]; [now left | right; right; lia].
      - apply Z.ltb_ge in Hlast.
        assert (remaining = O) by lia. subst remaining.
        cbn [CostcoAuthenticator.login_from].
        exists [CostcoAuthenticator.EAttempt attempt].
        split; [reflexivity|]. unfold count_events. cbn.
        split; [reflexivity|]. split; [reflexivity|].
        split; [intros [H|[]]; discriminate H|].
        intros k. split; [intros [[= <-]|[]]; lia | intros Hk; left; f_equal; lia]. }
    unfold retryable in Hthis.
    destruct (CostcoAuthenticator._attempt_login (envs attempt)) as [res|].
    + destruct Hthis as [-> ->].
      apply (Hstep (CostcoAuthenticator.EBackoffSleep attempt)). reflexivity.
    + apply (Hstep CostcoAuthenticator.EErrorSleep). reflexivity.
Qed.

(** Whatever the attempts do: attempts are numbered from [attempt] on,
    the session is saved exactly when the result is a success, and the
    result carries [session_saved] exactly then. *)
Lemma login_from_bounds (remaining : nat) :
  forall (attempt : Z) (trace0 : list CostcoAuthenticator.event),
    ~ In CostcoAuthenticator.ESaveSession trace0 ->
    let run := run_from remaining attempt trace0 in
    (forall k, In (CostcoAuthenticator.EAttempt k) (snd run) ->
               In (CostcoAuthenticator.EAttempt k) trace0
               \/ attempt <= k < attempt + Z.of_nat remaining)
    /\ (In CostcoAuthenticator.ESaveSession (snd run) <->
        AuthResult.success (fst run) = true)
    /\ AuthResult.session_saved (fst run) = AuthResult.success (fst run).
Proof.
  induction remaining as [|remaining IH]; intros attempt trace0 Hclean;
    cbv zeta; cbn [CostcoAuthenticator.login_from fst snd].
  - split; [intros k Hk; now left|]. split; [|reflexivity].
    cbn. split; [intros H; destruct (Hclean H) | discriminate].
  - assert (Hrec : forall extra,
              ~ In CostcoAuthenticator.ESaveSession extra ->
              (forall k, In (CostcoAuthenticator.EAttempt k) extra -> False) ->
              let run := run_from remaining (attempt + 1)
                          ((trace0 ++ [CostcoAuthenticator.EAttempt attempt]) ++ extra) in
              (forall k, In (CostcoAuthenticator.EAttempt k) (snd run) ->
                         In (CostcoAuthenticator.EAttempt k) trace0
                         \/ attempt <= k < attempt + Z.of_nat (S remaining))
              /\ (In CostcoAuthenticator.ESaveSession (snd run) <->
                  AuthResult.success (fst run) = true)
              /\ AuthResult.session_saved (fst run) = AuthResult.success (fst run)).
    { intros extra Hextra Hnoatt. cbv zeta.
      destruct (IH (attempt + 1)
                  ((trace0 ++ [CostcoAuthenticator.EAttempt attempt]) ++ extra))
        as [Hks [Hsave Hflag]].
      { rewrite !in_app_iff. cbn [In]. intros [[H|[H|[]]]|H];
          [now apply Hclean | discriminate H | now apply Hextra]. }
      split; [|split; assumption].
      intros k Hk. apply Hks in Hk as [Hk|Hk]; [|right; lia].
      rewrite !in_app_iff in Hk. cbn [In] in Hk.
      destruct Hk as [[Hk|[[= <-]|[]]]|Hk];
        [now left | right; lia | destruct (Hnoatt k Hk)]. }
    assert (Hrec0 :
              let run := run_from remaining (attempt + 1)
                          (trace0 ++ [CostcoAuthenticator.EAttempt attempt]) in
              (forall k, In (CostcoAuthenticator.EAttempt k) (snd run) ->
                         In (CostcoAuthenticator.EAttempt k) trace0
                         \/ attempt <= k < attempt + Z.of_nat (S remaining))
              /\ (In CostcoAuthenticator.ESaveSession (snd run) <->
                  AuthResult.success (fst run) = true)
              /\ AuthResult.session_saved (fst run) = AuthResult.success (fst run)).
    { pose proof (Hrec [] (fun H => H) (fun _ H => H)) as H.
      rewrite app_nil_r in H. exact H. }
    assert (Hhere : forall k,
              In (CostcoAuthenticator.EAttempt k)
                 (trace0 ++ [CostcoAuthenticator.EAttempt attempt]) ->
              In (CostcoAuthenticator.EAttempt k) trace0
              \/ attempt <= k < attempt + Z.of_nat (S remaining)).
    { intros k Hk. rewrite in_app_iff in Hk. cbn [In] in Hk.
      destruct Hk as [Hk|[[= <-]|[]]]; [now left | right; lia]. }
    destruct (CostcoAuthenticator._attempt_login (envs attempt)) as [res|] eqn:Hres.
    + destruct (AuthResult.success res) eqn:Hok.
      { cbn [fst snd AuthResult.with_session_saved AuthResult.success
             AuthResult.session_saved].
        split; [|split].
        - intros k Hk. rewrite in_app_iff in Hk. cbn [In] in Hk.
          destruct Hk as [Hk|[Hk|[]]]; [now apply Hhere | discriminate Hk].
        - split; [intros _; exact Hok|]. intros _. rewrite in_app_iff. right. now left.
        - now rewrite Hok. }
      destruct (AuthResult.requires_2fa res).
      { cbn [fst snd]. split; [exact Hhere|]. split.
        - rewrite Hok. split; [|discriminate]. rewrite in_app_iff. cbn [In].
          intros [H|[H|[]]]; [destruct (Hclean H) | discriminate H].
        - rewrite Hok. eapply attempt_session_not_saved, Hres. }
      destruct (attempt <? max_retries); [|exact Hrec0].
      apply Hrec; [intros [H|[]]; discriminate H | intros k [H|[]]; discriminate H].
    + destruct (attempt <? max_retries); [|exact Hrec0].
      apply Hrec; [intros [H|[]]; discriminate H | intros k [H|[]]; discriminate H].
Qed.

(** When every attempt fails, the trace is the attempts in order, each
    followed by its sleep but the last. *)
Lemma login_from_failing_trace (remaining : nat) :
  forall (attempt : Z) (trace0 : list CostcoAuthenticator.event),
    (forall k, attempt <= k <= max_retries -> retryable (envs k)) ->
    attempt + Z.of_nat remaining = max_retries + 1 ->
    snd (run_from remaining attempt trace0)
    = trace0 ++ failing_trace remaining attempt max_retries envs.
Proof.
  induction remaining as [|remaining IH]; intros attempt trace0 Hretry Hend;
    cbn [CostcoAuthenticator.login_from failing_trace].
  - cbn [snd]. now rewrite app_nil_r.
  - assert (Hthis : retryable (envs attempt)) by (apply Hretry; lia).
    assert (Hnext : forall k, attempt + 1 <= k <= max_retries -> retryable (envs k))
      by (intros k Hk; apply Hretry; lia).
    unfold retryable in Hthis. unfold sleep_after.
    destruct (CostcoAuthenticator._attempt_login (envs attempt)) as [res|].
    + destruct Hthis as [-> ->]. rewrite IH by (assumption || lia).
      destruct (attempt <? max_retries); cbn [app]; now rewrite <- !app_assoc.
    + rewrite IH by (assumption || lia).
      destruct (attempt <? max_retries); cbn [app]; now rewrite <- !app_assoc.
Qed.

Lemma failing_trace_sleeps_between (remaining : nat) :
  forall (attempt k : Z),
    attempt + Z.of_nat remaining = max_retries + 1 ->
    attempt <= k < max_retries ->
    exists before after,
      failing_trace remaining attempt max_retries envs
      = before ++ [CostcoAuthenticator.EAttempt k; sleep_after envs k;
                   CostcoAuthenticator.EAttempt (k + 1)] ++ after.
Proof.
  induction remaining as [|remaining IH]; intros attempt k Hend Hk; [lia|].
  cbn [failing_trace].
  destruct (Z.eq_dec k attempt) as [->|Hne].
  - destruct (attempt <? max_retries) eqn:Hlt; [|apply Z.ltb_ge in Hlt; lia].
    destruct remaining as [|remaining]; [lia|]. cbn [failing_trace app].
    exists []. eexists. reflexivity.
  - destruct (IH (attempt + 1) k) as [before [after Htrace]]; [lia | lia|].
    rewrite Htrace.
    exists (CostcoAuthenticator.EAttempt attempt
            :: (if attempt <? max_retries then [sleep_after envs attempt] else [])
            ++ before), after.
    cbn [app]. now rewrite <- !app_assoc.
Qed.

Lemma failing_trace_ends (remaining : nat) :
  forall (attempt : Z),
    attempt + Z.of_nat remaining = max_retries + 1 ->
    (1 <= remaining)%nat ->
    exists before,
      failing_trace remaining attempt max_retries envs
      = before ++ [CostcoAuthenticator.EAttempt max_retries].
Proof.
  induction remaining as [|remaining IH]; intros attempt Hend Hpos; [lia|].
  cbn [failing_trace].
  destruct remaining as [|remaining].
  - assert (attempt = max_retries) by lia. subst attempt.
    rewrite Z.ltb_irrefl. cbn [failing_trace app]. now exists [].
  - destruct (IH (attempt + 1)) as [before Htrace]; [lia | lia|].
    rewrite Htrace.
    exists (CostcoAuthenticator.EAttempt attempt
            :: (if attempt <? max_retries then [sleep_after envs attempt] else [])
            ++ before).
    cbn [app]. now rewrite <- !app_assoc.
Qed.

End LoginLoopEndings.

(** X4. An attempt that [login] makes and that succeeds ends the loop:
    [login] saves the session right after it, returns its result with
    [session_saved] set, and makes no further attempt. *)
Theorem success_is_terminal (max_retries : Z)
    (envs : Z -> CostcoAuthenticator.attempt_env) (k : Z) (r : AuthResult.t) :
  let run := CostcoAuthenticator.login max_retries envs in
  In (CostcoAuthenticator.EAttempt k) (snd run) ->
  CostcoAuthenticator._attempt_login (envs k) = Some r ->
  AuthResult.success r = true ->
  fst run = AuthResult.with_session_saved r
  /\ AuthResult.success (fst run) = true
  /\ AuthResult.session_saved (fst run) = true
  /\ AuthResult.message (fst run) = AuthResult.message r
  /\ (exists before,
        snd run = before ++ [CostcoAuthenticator.EAttempt k;
                             CostcoAuthenticator.ESaveSession])
  /\ (forall j, In (CostcoAuthenticator.EAttempt j) (snd run) -> j <= k).
Proof.
  cbv zeta. unfold CostcoAuthenticator.login. intros Hin Hk Hok.
  assert (Hfrom : 1 <= k).
  { apply login_from_attempts_from in Hin as [[]|Hle]. exact Hle. }
  destruct (login_from_success max_retries envs (Z.to_nat max_retries) 1 []
              (fun j (H : In _ []) => match H with end) k r Hin Hfrom Hk Hok)
    as [Hres [Hlast Hmax]].
  rewrite Hres. cbn [AuthResult.with_session_saved AuthResult.success
                     AuthResult.session_saved AuthResult.message].
  repeat split; try assumption.
Qed.

Lemma success_is_terminal_witness :
  CostcoAuthenticator.login 5 third_time_lucky
  = ({| AuthResult.success := true;
        AuthResult.message := "Login successful";
        AuthResult.requires_2fa := false;
        AuthResult.session_saved := true |},
     [CostcoAuthenticator.EAttempt 1; CostcoAuthenticator.EErrorSleep;
      CostcoAuthenticator.EAttempt 2; CostcoAuthenticator.EBackoffSleep 2;
      CostcoAuthenticator.EAttempt 3; CostcoAuthenticator.ESaveSession])
  /\ fst (CostcoAuthenticator.login 5 third_time_lucky)
     = AuthResult.with_session_saved (AuthResult.make true "Login successful").
Proof.
  split; [vm_compute; reflexivity|].
  apply (success_is_terminal 5 third_time_lucky 3
           (AuthResult.make true "Login successful")).
  - vm_compute. tauto.
  - vm_compute. reflexivity.
  - reflexivity.
Defined.

(** X5. When each of the attempts 1 to [max_retries] raises or is rejected
    without asking for the second factor, [login] makes exactly
    [max_retries] attempts (none when [max_retries] is not positive),
    sleeps after each of them but the last, never saves the session, and
    returns the failure that names the number of attempts. The trace is
    the attempts in order, every attempt before the last followed at once
    by its sleep and then by the next attempt, and the last attempt by
    nothing. *)
Theorem exhausted_login_fails (max_retries : Z)
    (envs : Z -> CostcoAuthenticator.attempt_env) :
  (forall k, 1 <= k <= max_retries -> retryable (envs k)) ->
  let run := CostcoAuthenticator.login max_retries envs in
  fst run = AuthResult.make false (CostcoAuthenticator.failed_message max_retries)
  /\ count_events is_attempt (snd run) = Z.to_nat max_retries
  /\ count_events is_sleep (snd run) = pred (Z.to_nat max_retries)
  /\ ~ In CostcoAuthenticator.ESaveSession (snd run)
  /\ (forall k, In (CostcoAuthenticator.EAttempt k) (snd run) <->
                1 <= k <= max_retries)
  /\ snd run = failing_trace (Z.to_nat max_retries) 1 max_retries envs
  /\ (forall k, 1 <= k < max_retries ->
        is_sleep (sleep_after envs k) = true
        /\ exists before after,
             snd run
             = before ++ [CostcoAuthenticator.EAttempt k; sleep_after envs k;
                          CostcoAuthenticator.EAttempt (k + 1)] ++ after)
  /\ (1 <= max_retries ->
      exists before,
        snd run = before ++ [CostcoAuthenticator.EAttempt max_retries]).
Proof.
  intros Hretry. cbv zeta. unfold CostcoAuthenticator.login.
  destruct (Z_lt_le_dec max_retries 0) as [Hneg|Hpos].
  - replace (Z.to_nat max_retries) with O by lia.
    cbn [CostcoAuthenticator.login_from failing_trace fst snd].
    split; [reflexivity|]. split; [reflexivity|]. split; [reflexivity|].
    split; [intros []|]. split; [intros k; cbn [In]; split; [intros [] | lia]|].
    split; [reflexivity|]. split; [intros k Hk; lia | intros Hk; lia].
  - assert (Hend : 1 + Z.of_nat (Z.to_nat max_retries) = max_retries + 1) by lia.
    pose proof (login_from_failing_trace max_retries envs (Z.to_nat max_retries)
                  1 [] Hretry Hend) as Htrace.
    cbn [app] in Htrace.
    destruct (login_from_exhausted max_retries envs (Z.to_nat max_retries) 1 [])
      as [tail [Hrun [Hatt [Hsl [Hsave Hks]]]]]; [lia | exact Hretry|].
    rewrite Htrace. rewrite Hrun in Htrace |- *. cbn [fst snd app] in Htrace |- *.
    rewrite <- Htrace.
    split; [reflexivity|]. split; [exact Hatt|]. split; [exact Hsl|].
    split; [exact Hsave|]. split; [intros k; apply Hks|].
    split; [reflexivity|]. rewrite Htrace. split.
    + intros k Hk. split.
      * unfold sleep_after.
        now destruct (CostcoAuthenticator._attempt_login (envs k)).
      * apply (failing_trace_sleeps_between max_retries envs); lia.
    + intros Hone. apply (failing_trace_ends max_retries envs); lia.
Qed.

Lemma exhausted_login_fails_witness :
  CostcoAuthenticator.login 3 always_rejected
  = (AuthResult.make false "Login failed after 3 attempts",
     [CostcoAuthenticator.EAttempt 1; CostcoAuthenticator.EBackoffSleep 1;
      CostcoAuthenticator.EAttempt 2; CostcoAuthenticator.EErrorSleep;
      CostcoAuthenticator.EAttempt 3])
  /\ count_events is_sleep (snd (CostcoAuthenticator.login 3 always_rejected)) = 2%nat.
Proof.
  split; [vm_compute; reflexivity|].
  destruct (exhausted_login_fails 3 always_rejected) as [_ [_ [Hsleeps _]]];
    [|exact Hsleeps].
  intros k Hk. assert (Hcases : k = 1 \/ k = 2 \/ k = 3) by lia.
  destruct Hcases as [Hk1 | [Hk2 | Hk3]]; subst k; vm_compute; tauto.
Defined.

(** X6. Whatever the attempts do, [login] numbers its attempts from 1 to
    [max_retries] at most, saves the session exactly when it returns a
    success, and returns [session_saved] true exactly then. *)
Theorem login_bounds (max_retries : Z) (envs : Z -> CostcoAuthenticator.attempt_env) :
  let run := CostcoAuthenticator.login max_retries envs in
  (forall k, In (CostcoAuthenticator.EAttempt k) (snd run) -> 1 <= k <= max_retries)
  /\ (In CostcoAuthenticator.ESaveSession (snd run) <->
      AuthResult.success (fst run) = true)
  /\ AuthResult.session_saved (fst run) = AuthResult.success (fst run).
Proof.
  cbv zeta. unfold CostcoAuthenticator.login.
  destruct (login_from_bounds max_retries envs (Z.to_nat max_retries) 1 []
              (fun H : In _ [] => H)) as [Hks [Hsave Hflag]].
  split; [|split; assumption].
  intros k Hk. apply Hks in Hk as [[]|Hk]. lia.
Qed.

(** X7. [_check_login_result] never reports a success while an error
    indicator or a two-factor indicator is visible or while the login form
    is still shown at a login address, and it asks for the second factor
    only when no error indicator is visible. *)
Theorem success_excludes_errors (page : Page) (result : AuthResult.t) :
  CostcoAuthenticator._check_login_result page = Some result ->
  (AuthResult.success result = true ->
   ~ error_shown page
   /\ ~ some_visible page CostcoAuthenticator.tfa_indicators
   /\ ~ still_on_login page
   /\ (some_visible page CostcoAuthenticator.success_indicators
       \/ ~ login_url (url page)))
  /\ (AuthResult.requires_2fa result = true ->
      ~ error_shown page
      /\ some_visible page CostcoAuthenticator.tfa_indicators
      /\ AuthResult.success result = false).
Proof.
  unfold CostcoAuthenticator._check_login_result.
  destruct (CostcoAuthenticator.first_error_text page
              CostcoAuthenticator.error_indicators) as [t|] eqn:Herr.
  { intros [= <-]. split; intros H; discriminate H. }
  assert (Hnoerr : ~ error_shown page).
  { intros [s [t Hs]].
    destruct (first_error_text_some page CostcoAuthenticator.error_indicators)
      as [t' Ht']; [now exists s, t | congruence]. }
  destruct (CostcoAuthenticator.any_visible page CostcoAuthenticator.tfa_indicators)
    eqn:Htfa.
  { intros [= <-]. split; [intros H; discriminate H|]. intros _.
    split; [exact Hnoerr|]. split; [now apply any_visible_spec | reflexivity]. }
  assert (Hnotfa : ~ some_visible page CostcoAuthenticator.tfa_indicators).
  { intros H. apply any_visible_spec in H. congruence. }
  fold (form_check page). intros Hr.
  destruct (form_check_some page result Hr) as [[_ ->]|[Hnostill [_ ->]]].
  { split; intros H; discriminate H. }
  unfold CostcoAuthenticator.success_or_unclear.
  destruct (CostcoAuthenticator.any_visible page
              CostcoAuthenticator.success_indicators) eqn:Hok.
  { split; [|intros H; discriminate H]. intros _.
    repeat split; try assumption. left. now apply any_visible_spec. }
  destruct (CostcoAuthenticator.on_login_url (url page)) eqn:Hurl; cbn [negb].
  { split; intros H; discriminate H. }
  split; [|intros H; discriminate H]. intros _.
  repeat split; try assumption. right. intros H.
  apply on_login_url_spec in H. congruence.
Qed.

Lemma success_excludes_errors_witness :
  ~ error_shown welcome_page
  /\ ~ some_visible welcome_page CostcoAuthenticator.tfa_indicators.
Proof.
  destruct (proj1 (success_excludes_errors welcome_page
                     (AuthResult.make true "Login successful") eq_refl))
    as [H1 [H2 _]]; [reflexivity|].
  split; assumption.
Defined.

(* ===================================================================== *)
(** ** More on the batch and on pagination *)
(* ===================================================================== *)

Lemma add_receipt_spans (b : ReceiptBatch.t) (r : Receipt.t) (d : bool)
    (dates : list Datetime.datetime) :
  spans b dates ->
  spans (ReceiptBatch.add_receipt b r d) (dates ++ [Receipt.date r]).
Proof.
  unfold spans. destruct dates as [|d0 dates]; cbn [app].
  - intros [Hs He]. unfold ReceiptBatch.add_receipt.
    cbn [ReceiptBatch.date_range_start ReceiptBatch.date_range_end].
    rewrite Hs, He. exists (Receipt.date r), (Receipt.date r).
    repeat split; try (now left); destruct H as [<-|[]]; lia.
  - intros [s [e [Hs [He [Hins [Hine Hall]]]]]].
    unfold ReceiptBatch.add_receipt.
    cbn [ReceiptBatch.date_range_start ReceiptBatch.date_range_end].
    rewrite Hs, He. unfold Datetime.ltb.
    change (d0 :: dates ++ [Receipt.date r])
      with ((d0 :: dates) ++ [Receipt.date r]).
    destruct (Hall s Hins) as [_ Hse].
    destruct (Datetime.to_microseconds (Receipt.date r)
              <? Datetime.to_microseconds s) eqn:Hlow;
      destruct (Datetime.to_microseconds e
                <? Datetime.to_microseconds (Receipt.date r)) eqn:Hhigh;
      try apply Z.ltb_lt in Hlow; try apply Z.ltb_ge in Hlow;
      try apply Z.ltb_lt in Hhigh; try apply Z.ltb_ge in Hhigh.
    + lia.
    + exists (Receipt.date r), e. split; [reflexivity|]. split; [reflexivity|].
      split; [apply in_app_iff; right; now left|].
      split; [apply in_app_iff; now left|].
      intros x Hx. apply in_app_iff in Hx as [Hx|[<-|[]]];
        [destruct (Hall x Hx); lia | lia].
    + exists s, (Receipt.date r). split; [reflexivity|]. split; [reflexivity|].
      split; [apply in_app_iff; now left|].
      split; [apply in_app_iff; right; now left|].
      intros x Hx. apply in_app_iff in Hx as [Hx|[<-|[]]];
        [destruct (Hall x Hx); lia | lia].
    + exists s, e. split; [reflexivity|]. split; [reflexivity|].
      split; [apply in_app_iff; now left|].
      split; [apply in_app_iff; now left|].
      intros x Hx. apply in_app_iff in Hx as [Hx|[<-|[]]];
        [now apply Hall | lia].
Qed.

Lemma fold_apply_spans (ops : list ReceiptBatch.op) :
  forall (b : ReceiptBatch.t) (dates : list Datetime.datetime),
    spans b dates ->
    spans (fold_left ReceiptBatch.apply ops b) (dates ++ added_dates ops).
Proof.
  induction ops as [|o ops IH]; intros b dates Hb; cbn [fold_left added_dates].
  - now rewrite app_nil_r.
  - destruct o as [r d|]; cbn [ReceiptBatch.apply].
    + replace (dates ++ Receipt.date r :: added_dates ops)
        with ((dates ++ [Receipt.date r]) ++ added_dates ops)
        by (now rewrite <- app_assoc).
      apply IH. now apply add_receipt_spans.
    + apply IH. unfold spans in *. destruct dates; exact Hb.
Qed.

(** X8. From the empty batch, after any sequence of [add_receipt] and
    [add_failed] calls, the date range is unset if no receipt was added
    and otherwise runs from the earliest to the latest date among all the
    receipts added, the duplicates included. *)
Theorem date_range_spans_added (ops : list ReceiptBatch.op) :
  spans (ReceiptBatch.run ops) (added_dates ops).
Proof.
  unfold ReceiptBatch.run.
  apply (fold_apply_spans ops ReceiptBatch.empty []). split; reflexivity.
Qed.

Lemma no_earlier_same_snoc (l : list Receipt.t) (r : Receipt.t) :
  no_earlier_same l ->
  (forall e, In e l -> ~ same_purchase e r) ->
  no_earlier_same (l ++ [r]).
Proof.
  intros Hl Hr before x after Hsplit e He.
  destruct after as [|y after] using rev_ind.
  - apply app_inj_tail in Hsplit as [<- <-]. now apply Hr.
  - clear IHafter.
    change (before ++ x :: after ++ [y]) with (before ++ (x :: after) ++ [y]) in Hsplit.
    rewrite app_assoc in Hsplit. apply app_inj_tail in Hsplit as [Hsplit _].
    now apply (Hl before x after Hsplit).
Qed.

Lemma add_with_detection_distinct (b : ReceiptBatch.t) (r : Receipt.t) :
  no_earlier_same (ReceiptBatch.receipts b) ->
  no_earlier_same (ReceiptBatch.receipts (ReceiptScraper.add_with_detection b r)).
Proof.
  intros Hb. unfold ReceiptScraper.add_with_detection, ReceiptBatch.add_receipt.
  destruct (ReceiptScraper._is_duplicate_receipt b r) eqn:Hdup;
    cbn [negb ReceiptBatch.receipts]; [exact Hb|].
  apply no_earlier_same_snoc; [exact Hb|].
  intros e He Hsame.
  assert (ReceiptScraper._is_duplicate_receipt b r = true); [|congruence].
  apply any_same_spec. now exists e.
Qed.

Lemma fold_add_distinct (rs : list Receipt.t) (b : ReceiptBatch.t) :
  no_earlier_same (ReceiptBatch.receipts b) ->
  no_earlier_same
    (ReceiptBatch.receipts (fold_left ReceiptScraper.add_with_detection rs b)).
Proof.
  revert b. induction rs as [|r rs IH]; intros b Hb; cbn [fold_left]; [exact Hb|].
  apply IH. now apply add_with_detection_distinct.
Qed.

(** X9. In a batch produced by [discover_all_receipts] no accepted receipt
    is the same purchase (same calendar date, identical location, amounts
    less than 0.01 apart) as an accepted receipt before it. *)
Theorem produced_batch_distinct (browser : string -> ReceiptScraper.range_run) :
  no_earlier_same
    (ReceiptBatch.receipts (ReceiptScraper.discover_all_receipts browser)).
Proof.
  unfold ReceiptScraper.discover_all_receipts.
  assert (Hinv : forall (ranges : list string) (b : ReceiptBatch.t),
            no_earlier_same (ReceiptBatch.receipts b) ->
            no_earlier_same
              (ReceiptBatch.receipts
                 (fold_left (fun receipt_batch time_range =>
                    ReceiptScraper.process_range receipt_batch (browser time_range))
                    ranges b))).
  { induction ranges as [|tr ranges IH]; intros b Hb; cbn [fold_left]; [exact Hb|].
    apply IH. unfold ReceiptScraper.process_range.
    destruct (ReceiptScraper.selected (browser tr)).
    - destruct (ReceiptScraper.pages (browser tr)) as [ps|]; [|exact Hb].
      destruct (ReceiptScraper.delay_raises (browser tr));
        cbn [ReceiptBatch.add_failed ReceiptBatch.receipts];
        now apply fold_add_distinct.
    - destruct (ReceiptScraper.delay_raises (browser tr)); exact Hb. }
  apply Hinv. intros before r after Hsplit.
  destruct before; discriminate Hsplit.
Qed.

Lemma add_with_detection_grows (b : ReceiptBatch.t) (r e : Receipt.t) :
  In e (ReceiptBatch.receipts b) ->
  In e (ReceiptBatch.receipts (ReceiptScraper.add_with_detection b r)).
Proof.
  intros He. unfold ReceiptScraper.add_with_detection, ReceiptBatch.add_receipt.
  destruct (ReceiptScraper._is_duplicate_receipt b r);
    cbn [negb ReceiptBatch.receipts]; [exact He|].
  apply in_app_iff. now left.
Qed.

Lemma fold_add_grows (rs : list Receipt.t) (b : ReceiptBatch.t) (e : Receipt.t) :
  In e (ReceiptBatch.receipts b) ->
  In e (ReceiptBatch.receipts (fold_left ReceiptScraper.add_with_detection rs b)).
Proof.
  revert b. induction rs as [|r rs IH]; intros b He; cbn [fold_left]; [exact He|].
  apply IH. now apply add_with_detection_grows.
Qed.

(** Once added, a receipt that is the same purchase as itself is detected
    in the batch. *)
Lemma fold_add_detects (rs : list Receipt.t) (b : ReceiptBatch.t) (r : Receipt.t) :
  In r rs -> same_purchase r r ->
  ReceiptScraper._is_duplicate_receipt
    (fold_left ReceiptScraper.add_with_detection rs b) r = true.
Proof.
  revert b. induction rs as [|x rs IH]; intros b Hin Hself; [destruct Hin|].
  cbn [fold_left]. destruct Hin as [->|Hin]; [|now apply IH].
  apply any_same_spec.
  assert (Hfound : exists e,
            In e (ReceiptBatch.receipts (ReceiptScraper.add_with_detection b r))
            /\ same_purchase e r).
  { unfold ReceiptScraper.add_with_detection, ReceiptBatch.add_receipt.
    destruct (ReceiptScraper._is_duplicate_receipt b r) eqn:Hdup;
      cbn [negb ReceiptBatch.receipts].
    - now apply any_same_spec.
    - exists r. split; [apply in_app_iff; right; now left | exact Hself]. }
  destruct Hfound as [e [He Hsame]]. exists e. split; [|exact Hsame].
  now apply fold_add_grows.
Qed.

Lemma fold_add_all_duplicates (rs : list Receipt.t) (b : ReceiptBatch.t) :
  (forall r, In r rs -> ReceiptScraper._is_duplicate_receipt b r = true) ->
  let b' := fold_left ReceiptScraper.add_with_detection rs b in
  ReceiptBatch.receipts b' = ReceiptBatch.receipts b
  /\ ReceiptBatch.scraped_count b' = ReceiptBatch.scraped_count b
  /\ ReceiptBatch.duplicate_count b'
     = ReceiptBatch.duplicate_count b + Z.of_nat (length rs)
  /\ ReceiptBatch.total_count b'
     = ReceiptBatch.total_count b + Z.of_nat (length rs).
Proof.
  revert b. induction rs as [|r rs IH]; intros b Hall; cbv zeta; cbn [fold_left length].
  - repeat split; lia.
  - assert (Hr : ReceiptScraper._is_duplicate_receipt b r = true)
      by (apply Hall; now left).
    destruct (IH (ReceiptScraper.add_with_detection b r)) as [Hl [Hs [Hd Ht]]].
    { intros x Hx. unfold ReceiptScraper._is_duplicate_receipt,
        ReceiptScraper.add_with_detection. rewrite Hr. cbn [ReceiptBatch.add_receipt
          negb ReceiptBatch.receipts]. apply Hall. now right. }
    rewrite Hl, Hs, Hd, Ht.
    unfold ReceiptScraper.add_with_detection. rewrite Hr.
    cbn [ReceiptBatch.add_receipt negb ReceiptBatch.receipts
         ReceiptBatch.scraped_count ReceiptBatch.duplicate_count
         ReceiptBatch.total_count].
    repeat split; lia.
Qed.

(** X10. Adding the same receipts a second time accepts nothing: when each
    of them is the same purchase as itself, the second pass leaves the
    accepted list and [scraped_count] unchanged and counts every one of
    them as a duplicate. *)
Theorem second_pass_all_duplicates (rs : list Receipt.t) (b : ReceiptBatch.t) :
  (forall r, In r rs -> same_purchase r r) ->
  let first := fold_left ReceiptScraper.add_with_detection rs b in
  let second := fold_left ReceiptScraper.add_with_detection rs first in
  ReceiptBatch.receipts second = ReceiptBatch.receipts first
  /\ ReceiptBatch.scraped_count second = ReceiptBatch.scraped_count first
  /\ ReceiptBatch.duplicate_count second
     = ReceiptBatch.duplicate_count first + Z.of_nat (length rs)
  /\ ReceiptBatch.total_count second
     = ReceiptBatch.total_count first + Z.of_nat (length rs).
Proof.
  intros Hself. cbv zeta. apply fold_add_all_duplicates.
  intros r Hr. apply fold_add_detects; [exact Hr | now apply Hself].
Qed.

Lemma second_pass_all_duplicates_witness :
  let first := fold_left ReceiptScraper.add_with_detection
                 [seattle_receipt] ReceiptBatch.empty in
  let second := fold_left ReceiptScraper.add_with_detection [seattle_receipt] first in
  ReceiptBatch.receipts second = [seattle_receipt]
  /\ ReceiptBatch.duplicate_count second = 1.
Proof.
  destruct (second_pass_all_duplicates [seattle_receipt] ReceiptBatch.empty)
    as [Hlist [_ [Hdup _]]].
  { intros r [<-|[]]. split; [reflexivity|]. split; [reflexivity|].
    vm_compute. reflexivity. }
  cbv zeta. split; [rewrite Hlist; reflexivity | rewrite Hdup; reflexivity].
Defined.

(** An amount beyond the range of binary64 reads as infinity, and such a
    receipt is not the same purchase as itself: the difference of the
    amounts is not a number. *)
Example infinite_amount_not_self_duplicate :
  let r := Receipt.create "r" march_15_2024 "Seattle" infinity worded_date in
  ReceiptScraper.same_receipt r r = false.
Proof. vm_compute. reflexivity. Qed.

Lemma scrape_time_range_stops (before after : list ReceiptScraper.page)
    (p : ReceiptScraper.page) :
  ReceiptScraper._scrape_current_page (ReceiptScraper.scan p) = [] ->
  ReceiptScraper._scrape_time_range (before ++ p :: after)
  = ReceiptScraper._scrape_time_range before.
Proof.
  intros Hempty. induction before as [|q before IH];
    cbn [app ReceiptScraper._scrape_time_range].
  - now rewrite Hempty.
  - destruct (ReceiptScraper._scrape_current_page (ReceiptScraper.scan q));
      [reflexivity|].
    destruct (ReceiptScraper.has_next q); [now rewrite IH | reflexivity].
Qed.

(** X11. Pagination of a time range ends at the first page on which no
    container parses into a receipt: the pages after it are not read,
    whatever they hold and even when a next-page control is there. *)
Theorem empty_page_ends_pagination (before after : list ReceiptScraper.page)
    (p : ReceiptScraper.page) :
  ReceiptScraper._scrape_current_page (ReceiptScraper.scan p) = [] ->
  ReceiptScraper._scrape_time_range (before ++ p :: after)
  = ReceiptScraper._scrape_time_range before
  /\ forall after',
       ReceiptScraper._scrape_time_range (before ++ p :: after)
       = ReceiptScraper._scrape_time_range (before ++ p :: after').
Proof.
  intros Hempty. split; [now apply scrape_time_range_stops|].
  intros after'. now rewrite !scrape_time_range_stops.
Qed.

Lemma empty_page_ends_pagination_witness :
  ReceiptScraper._scrape_time_range
    [banner_listing true; blank_page; banner_listing false]
  = ReceiptScraper._scrape_time_range [banner_listing true].
Proof.
  destruct (empty_page_ends_pagination [banner_listing true]
              [banner_listing false] blank_page) as [Hstop _];
    [vm_compute; reflexivity | exact Hstop].
Defined.

(** X12. A container whose date text and text hold no decimal digit, or
    whose amount text and text hold none, is never emitted as a receipt. *)
Theorem digit_free_container_rejected (data : ScrapedData) (now : Z) :
  digit_free
    (Text.chars (ReceiptScraper.combine
                   (ReceiptScraper.text_or_empty (sd_dateText data)) (sd_text data)))
  \/ digit_free
       (Text.chars (ReceiptScraper.combine
                      (ReceiptScraper.text_or_empty (sd_amountText data))
                      (sd_text data))) ->
  ReceiptScraper._parse_receipt_data data now = None.
Proof.
  intros [Hdate|Hamount].
  - now apply digit_free_date_rejected.
  - apply zero_amount_rejected. now apply digit_free_amount_is_zero.
Qed.

Lemma digit_free_container_rejected_witness :
  ReceiptScraper._parse_receipt_data
    {| sd_index := 3;
       sd_html := "<div class=order-row>Order pending</div>";
       sd_text := "Order pending";
       sd_attributes := ∅;
       sd_dateText := None;
       sd_amountText := None;
       sd_locationText := None |} 1700000000 = None.
Proof.
  apply digit_free_container_rejected. left.
  repeat (apply List.Forall_cons; [reflexivity|]). apply List.Forall_nil.
Defined.

(* ===================================================================== *)
(** ** The shape of a normalized location *)
(* ===================================================================== *)

Lemma is_suffix_refl (s : list ascii) : is_suffix s s.
Proof. now exists []. Qed.

Lemma is_suffix_trans (a b c : list ascii) :
  is_suffix a b -> is_suffix b c -> is_suffix a c.
Proof.
  intros [p ->] [q ->]. exists (q ++ p). now rewrite app_assoc.
Qed.

Lemma is_suffix_tail (a : ascii) (s : list ascii) : is_suffix s (a :: s).
Proof. now exists [a]. Qed.

Lemma is_suffix_length (a b : list ascii) :
  is_suffix a b -> (length a <= length b)%nat.
Proof. intros [p ->]. rewrite length_app. lia. Qed.

(** A match hands its continuation a text that ends the subject. *)
Lemma rmatch_suffix {A : Type} (ic : bool) (total : nat) (r : Re.regex) :
  forall (s : list ascii) (cs : Re.caps)
         (k : list ascii -> Re.caps -> option A) (x : A),
    Re.rmatch ic total r s cs k = Some x ->
    exists s' cs', is_suffix s' s /\ k s' cs' = Some x.
Proof.
  induction r as [|c|neg items|r1 IH1 r2 IH2|r1 IH1 r2 IH2|r1 IH1|n r1 IH1| |];
    intros s cs k x; cbn [Re.rmatch].
  - intros H. exists s, cs. split; [apply is_suffix_refl | exact H].
  - destruct s as [|a s']; [discriminate|].
    destruct (Re.char_eq ic c a); [|discriminate].
    intros H. exists s', cs. split; [apply is_suffix_tail | exact H].
  - destruct s as [|a s']; [discriminate|].
    destruct (xorb neg (Re.in_class ic items a)); [|discriminate].
    intros H. exists s', cs. split; [apply is_suffix_tail | exact H].
  - intros H. apply IH1 in H as [s1 [cs1 [Hs1 H]]].
    apply IH2 in H as [s2 [cs2 [Hs2 H]]].
    exists s2, cs2. split; [eapply is_suffix_trans; eassumption | exact H].
  - destruct (Re.rmatch ic total r1 s cs k) eqn:H1.
    + intros [= <-]. now apply IH1 in H1.
    + intros H. now apply IH2 in H.
  - generalize (length s) as fuel. intros fuel. revert s cs.
    induction fuel as [|fuel IHf]; intros s cs.
    + intros H. exists s, cs. split; [apply is_suffix_refl | exact H].
    + destruct (Re.rmatch ic total r1 s cs _) eqn:H1.
      * intros [= <-]. apply IH1 in H1 as [s1 [cs1 [Hs1 H1]]].
        destruct (length s1 <? length s)%nat; [|discriminate].
        apply IHf in H1 as [s2 [cs2 [Hs2 H2]]].
        exists s2, cs2. split; [eapply is_suffix_trans; eassumption | exact H2].
      * intros H. exists s, cs. split; [apply is_suffix_refl | exact H].
  - intros H. apply IH1 in H as [s1 [cs1 [Hs1 H]]]. eauto.
  - destruct (length s =? total)%nat; [|discriminate].
    intros H. exists s, cs. split; [apply is_suffix_refl | exact H].
  - destruct (Re.at_eol s); [|discriminate].
    intros H. exists s, cs. split; [apply is_suffix_refl | exact H].
Qed.

Lemma match_here_suffix (p : Re.pattern) (total : nat) (s s' : list ascii)
    (cs : Re.caps) :
  Re.match_here p total s = Some (s', cs) -> is_suffix s' s.
Proof.
  unfold Re.match_here. intros H.
  apply rmatch_suffix in H as [s1 [cs1 [Hs1 [= <- <-]]]]. exact Hs1.
Qed.

(** The prefix pattern is anchored: it matches at the start only. *)
Lemma prefix_pattern_anchored (total : nat) (s : list ascii) :
  length s <> total -> Re.match_here Receipt.prefix_pattern total s = None.
Proof.
  intros Hlen. unfold Re.match_here, Receipt.prefix_pattern.
  cbn [Re.expr Re.ignorecase Re.rmatch].
  apply Nat.eqb_neq in Hlen. now rewrite Hlen.
Qed.

Lemma sub_prefix_inside (total fuel : nat) :
  forall s, (length s < total)%nat ->
            Re.sub_from fuel Receipt.prefix_pattern [] total s = s.
Proof.
  induction fuel as [|fuel IH]; intros s Hlen; cbn [Re.sub_from]; [reflexivity|].
  rewrite prefix_pattern_anchored by lia.
  destruct s as [|c t]; [reflexivity|]. f_equal. apply IH. cbn [length] in Hlen. lia.
Qed.

(** Removing the prefix leaves an end of the text. *)
Lemma sub_prefix_is_suffix (s : list ascii) :
  is_suffix (Re.sub_from (S (length s)) Receipt.prefix_pattern [] (length s) s) s.
Proof.
  cbn [Re.sub_from].
  destruct (Re.match_here Receipt.prefix_pattern (length s) s) as [[s' cs]|] eqn:Hm.
  - pose proof (match_here_suffix _ _ _ _ _ Hm) as Hsuf.
    destruct (length s' <? length s)%nat eqn:Hlt.
    + apply Nat.ltb_lt in Hlt. cbn [app]. now rewrite sub_prefix_inside.
    + cbn [app]. destruct s as [|c t]; [apply is_suffix_refl|].
      rewrite sub_prefix_inside by (cbn [length]; lia). apply is_suffix_refl.
  - destruct s as [|c t]; [apply is_suffix_refl|].
    rewrite sub_prefix_inside by (cbn [length]; lia). apply is_suffix_refl.
Qed.

Lemma rmatch_cat_inv {A : Type} (ic : bool) (total : nat) (r1 r2 : Re.regex)
    (s : list ascii) (cs : Re.caps)
    (k : list ascii -> Re.caps -> option A) (x : A) :
  Re.rmatch ic total (Re.Cat r1 r2) s cs k = Some x ->
  exists s1 cs1, is_suffix s1 s /\ Re.rmatch ic total r2 s1 cs1 k = Some x.
Proof.
  change (Re.rmatch ic total (Re.Cat r1 r2) s cs k)
    with (Re.rmatch ic total r1 s cs
            (fun s' cs' => Re.rmatch ic total r2 s' cs' k)).
  apply rmatch_suffix.
Qed.

(** A match of the suffix pattern reaches the end of the text, or the
    newline that ends it. *)
Lemma suffix_pattern_at_end (total : nat) (s s' : list ascii) (cs : Re.caps) :
  Re.match_here Receipt.suffix_pattern total s = Some (s', cs) ->
  Re.at_eol s' = true.
Proof.
  unfold Re.match_here, Receipt.suffix_pattern.
  cbn [Re.expr Re.ignorecase]. intros H.
  apply rmatch_cat_inv in H as [s1 [cs1 [_ H]]].
  apply rmatch_cat_inv in H as [s2 [cs2 [_ H]]].
  apply rmatch_cat_inv in H as [s3 [cs3 [_ H]]].
  change (Re.rmatch true total Re.Eol s3 cs3 (fun s0 cs0 => Some (s0, cs0)))
    with (if Re.at_eol s3 then Some (s3, cs3) else None) in H.
  destruct (Re.at_eol s3) eqn:Heol; [|discriminate].
  now injection H as <- _.
Qed.

Lemma sub_suffix_empty (total fuel : nat) :
  Re.sub_from fuel Receipt.suffix_pattern [] total [] = [].
Proof.
  destruct fuel as [|fuel]; cbn [Re.sub_from]; [reflexivity|].
  destruct (Re.match_here Receipt.suffix_pattern total []) as [[s' cs]|] eqn:Hm;
    [|reflexivity].
  apply match_here_suffix in Hm as [p Hp].
  destruct p; [|discriminate]. cbn [app] in Hp. subst s'.
  cbn [length Nat.ltb Nat.leb app]. reflexivity.
Qed.

(** On a text without whitespace other than plain spaces, removing the
    suffix leaves a start of the text. *)
Lemma sub_suffix_is_prefix (total fuel : nat) :
  forall s, only_plain_spaces s ->
            exists after,
              s = Re.sub_from fuel Receipt.suffix_pattern [] total s ++ after.
Proof.
  induction fuel as [|fuel IH]; intros s Hs; cbn [Re.sub_from].
  - exists []. now rewrite app_nil_r.
  - assert (Hstep : exists after,
              s = match s with
                  | [] => []
                  | c :: t => c :: Re.sub_from fuel Receipt.suffix_pattern [] total t
                  end ++ after).
    { destruct s as [|c t]; [now exists []|].
      destruct (IH t) as [after Hafter]; [now inversion Hs|].
      exists after. cbn [app]. now rewrite <- Hafter. }
    destruct (Re.match_here Receipt.suffix_pattern total s) as [[s' cs]|] eqn:Hm;
      [|exact Hstep].
    pose proof (suffix_pattern_at_end _ _ _ _ Hm) as Heol.
    pose proof (match_here_suffix _ _ _ _ _ Hm) as [p Hp].
    assert (Hend : s' = []).
    { destruct s' as [|c [|? ?]]; [reflexivity | | discriminate Heol].
      cbn [Re.at_eol] in Heol. apply Ascii.eqb_eq in Heol. subst c.
      exfalso. unfold only_plain_spaces in Hs. rewrite Hp in Hs.
      apply Forall_app in Hs as [_ Hs]. inversion Hs as [|? ? Hnl _]; subst.
      discriminate (Hnl eq_refl). }
    subst s'. destruct (length [] <? length s)%nat.
    + cbn [app]. rewrite sub_suffix_empty. now exists s.
    + cbn [app]. exact Hstep.
Qed.

Lemma lstrip_is_suffix (s : list ascii) : is_suffix (Text.lstrip_chars s) s.
Proof.
  induction s as [|c s IH]; cbn [Text.lstrip_chars]; [apply is_suffix_refl|].
  destruct (Text.is_space c); [|apply is_suffix_refl].
  eapply is_suffix_trans; [exact IH | apply is_suffix_tail].
Qed.

Lemma lstrip_head (s : list ascii) (c : ascii) (rest : list ascii) :
  Text.lstrip_chars s = c :: rest -> Text.is_space c = false.
Proof.
  induction s as [|a s IH]; cbn [Text.lstrip_chars]; [discriminate|].
  destruct (Text.is_space a) eqn:Ha; [exact IH|].
  intros [= <- _]. exact Ha.
Qed.

Lemma strip_is_part (s : list ascii) : is_part (Text.strip_chars s) s.
Proof.
  unfold Text.strip_chars.
  destruct (lstrip_is_suffix s) as [p Hp].
  destruct (lstrip_is_suffix (rev (Text.lstrip_chars s))) as [q Hq].
  exists p, (rev q). rewrite Hp at 1. f_equal.
  remember (Text.lstrip_chars s) as l eqn:Hl. clear Hl Hp.
  rewrite <- (rev_involutive l) at 1. rewrite Hq at 1.
  apply rev_app_distr.
Qed.

Lemma strip_trimmed (s : list ascii) : trimmed (Text.strip_chars s).
Proof.
  unfold Text.strip_chars. split.
  - intros c rest Hc.
    destruct (lstrip_is_suffix (rev (Text.lstrip_chars s))) as [q Hq].
    remember (Text.lstrip_chars s) as l eqn:Hl.
    assert (Hl' : l = rev (Text.lstrip_chars (rev l)) ++ rev q).
    { rewrite <- (rev_involutive l) at 1. rewrite Hq at 1.
      apply rev_app_distr. }
    rewrite Hc in Hl'. cbn [app] in Hl'. rewrite Hl in Hl'.
    eapply lstrip_head, Hl'.
  - intros init c Hc.
    apply (f_equal (@rev ascii)) in Hc.
    rewrite rev_involutive, rev_app_distr in Hc. cbn [rev app] in Hc.
    eapply lstrip_head, Hc.
Qed.

Lemma split_chars_words (s : list ascii) :
  forall word,
    Forall (fun c => Text.is_space c = false) word ->
    Forall (Forall (fun c => Text.is_space c = false)) (Text.split_chars word s).
Proof.
  induction s as [|c s IH]; intros word Hword; cbn [Text.split_chars].
  - destruct word; [apply List.Forall_nil|].
    apply List.Forall_cons; [|apply List.Forall_nil].
    now apply Forall_rev.
  - destruct (Text.is_space c) eqn:Hc.
    + destruct word.
      * apply IH, List.Forall_nil.
      * apply List.Forall_cons; [now apply Forall_rev | apply IH, List.Forall_nil].
    + apply IH. now apply List.Forall_cons.
Qed.

Lemma join_plain_spaces (words : list (list ascii)) :
  Forall (Forall (fun c => Text.is_space c = false)) words ->
  only_plain_spaces (Text.join_chars [" "%char] words).
Proof.
  unfold only_plain_spaces.
  assert (Hword : forall w, Forall (fun c => Text.is_space c = false) w ->
                            Forall (fun c => Text.is_space c = true -> c = " "%char) w).
  { intros w Hw. eapply List.Forall_impl; [|exact Hw]. intros c Hc Hc'. congruence. }
  induction 1 as [|w ws Hw Hws IH]; cbn [Text.join_chars]; [apply List.Forall_nil|].
  destruct ws as [|w' ws']; [now apply Hword|].
  apply Forall_app. split; [now apply Hword|].
  cbn [app]. apply List.Forall_cons; [reflexivity | exact IH].
Qed.

Lemma join_split_length (s word : list ascii) :
  (length (Text.join_chars [" "%char] (Text.split_chars word s))
   <= length word + length s)%nat.
Proof.
  revert word. induction s as [|c s IH]; intros word; cbn [Text.split_chars].
  - destruct word; cbn [Text.join_chars];
      rewrite ?length_app, ?length_rev; cbn [length]; lia.
  - destruct (Text.is_space c).
    + specialize (IH []). destruct word as [|a word].
      * cbn [length] in *. lia.
      * cbn [Text.join_chars].
        destruct (Text.split_chars [] s) as [|w ws];
          rewrite ?length_app, ?length_rev; cbn [length app] in *; lia.
    + specialize (IH (c :: word)). cbn [length] in *. lia.
Qed.

Lemma chars_str (l : list ascii) : Text.chars (Text.str l) = l.
Proof. apply list_ascii_of_string_of_list_ascii. Qed.

Lemma map_chars_str (ws : list (list ascii)) : map Text.chars (map Text.str ws) = ws.
Proof.
  induction ws as [|w ws IH]; cbn [map]; [reflexivity|].
  now rewrite chars_str, IH.
Qed.

(** X13. The normalized location is a run of consecutive characters of the
    text with its whitespace collapsed, and it neither starts nor ends
    with whitespace. *)
Theorem clean_location_shape (location : string) :
  is_part (Text.chars (Receipt._clean_location location))
    (Text.chars (Text.join " " (Text.split location)))
  /\ trimmed (Text.chars (Receipt._clean_location location))
  /\ only_plain_spaces (Text.chars (Receipt._clean_location location))
  /\ (length (Text.chars (Receipt._clean_location location))
      <= length (Text.chars location))%nat.
Proof.
  unfold Receipt._clean_location, Re.sub, Text.strip, Text.join, Text.split.
  rewrite !chars_str, map_chars_str. cbn [Text.chars list_ascii_of_string].
  set (joined := Text.join_chars [" "%char] (Text.split_chars [] (Text.chars location))).
  assert (Hjoined : only_plain_spaces joined).
  { apply join_plain_spaces, split_chars_words, List.Forall_nil. }
  set (cut := Re.sub_from (S (length joined)) Receipt.prefix_pattern [] (length joined) joined).
  destruct (sub_prefix_is_suffix joined) as [p Hp]. fold cut in Hp.
  assert (Hcut : only_plain_spaces cut).
  { unfold only_plain_spaces in *. rewrite Hp in Hjoined.
    now apply Forall_app in Hjoined as [_ H]. }
  destruct (sub_suffix_is_prefix (length cut) (S (length cut)) cut Hcut) as [q Hq].
  set (kept := Re.sub_from (S (length cut)) Receipt.suffix_pattern [] (length cut) cut) in *.
  destruct (strip_is_part kept) as [a [b Hab]].
  assert (Hpart : is_part (Text.strip_chars kept) joined).
  { exists (p ++ a), (b ++ q). rewrite Hp, Hq. rewrite Hab at 1.
    now rewrite <- !app_assoc. }
  split; [exact Hpart|]. split; [apply strip_trimmed|]. split.
  - unfold only_plain_spaces in *. rewrite Hq in Hcut.
    apply Forall_app in Hcut as [Hkept _]. rewrite Hab in Hkept.
    apply Forall_app in Hkept as [_ Hkept]. now apply Forall_app in Hkept as [H _].
  - destruct Hpart as [x [y Hxy]].
    pose proof (join_split_length (Text.chars location) []) as Hlen.
    fold joined in Hlen. rewrite Hxy, !length_app in Hlen. cbn [length] in Hlen. lia.
Qed.

Lemma clean_location_shape_witness :
  is_part (Text.chars "Seattle North") (Text.chars "Costco Seattle North Store")
  /\ Receipt._clean_location "  Costco   Seattle North  Store " = "Seattle North"%string.
Proof.
  pose proof (proj1 (clean_location_shape "  Costco   Seattle North  Store "))
    as Hpart.
  assert (Hclean : Receipt._clean_location "  Costco   Seattle North  Store "
                   = "Seattle North"%string) by (vm_compute; reflexivity).
  rewrite Hclean in Hpart.
  split; [exact Hpart | exact Hclean].
Defined.

(* ===================================================================== *)
(** ** The retry loop, the exception decorators and the error tracking *)

Section RetryShape.

Context {V : Type}.
Variable max_retries delay : Z.
Variable exponential_backoff : bool.
Variable catches : exception -> bool.
Variable func : nat -> outcome V.
Variable jitter : nat -> Z.

Local Abbreviation wait := (wait_before_retry delay exponential_backoff jitter).
Local Abbreviation loop :=
  (retry_from max_retries delay exponential_backoff catches func jitter).

(** The loop ends at a call [n]: the calls before it raised caught
    exceptions and were followed by accepted sleeps, and either call [n]
    ends the retrying and gives the outcome, or the sleep after it is
    refused. *)
Lemma retry_from_shape (remaining : nat) :
  forall attempt last sleeps,
    Z.of_nat (attempt + remaining) = max_retries + 1 ->
    (1 <= remaining)%nat ->
    exists n,
      (attempt <= n)%nat /\ Z.of_nat n <= max_retries /\
      retry_calls (loop remaining attempt last sleeps) = S n /\
      retry_sleeps (loop remaining attempt last sleeps)
      = sleeps ++ map wait (seq attempt (n - attempt)) /\
      (forall i, (attempt <= i < n)%nat ->
                 (exists e, func i = Raised e /\ catches e = true)
                 /\ 0 <= wait i) /\
      ((ends_retrying max_retries catches func n
        /\ retry_outcome (loop remaining attempt last sleeps) = func n)
       \/ (sleep_refused max_retries delay exponential_backoff catches func jitter n
           /\ retry_outcome (loop remaining attempt last sleeps)
              = Raised sleep_error)).
Proof.
  induction remaining as [|remaining IH]; intros attempt last sleeps Hsum Hpos.
  - lia.
  - assert (Hstop : forall o,
              Z.of_nat attempt <= max_retries ->
              (ends_retrying max_retries catches func attempt /\ o = func attempt)
              \/ (sleep_refused max_retries delay exponential_backoff catches
                    func jitter attempt /\ o = Raised sleep_error) ->
              exists n,
                (attempt <= n)%nat /\ Z.of_nat n <= max_retries /\
                retry_calls (mk_retry_run o (S attempt) sleeps) = S n /\
                retry_sleeps (mk_retry_run o (S attempt) sleeps)
                = sleeps ++ map wait (seq attempt (n - attempt)) /\
                (forall i, (attempt <= i < n)%nat ->
                           (exists e, func i = Raised e /\ catches e = true)
                           /\ 0 <= wait i) /\
                ((ends_retrying max_retries catches func n
                  /\ retry_outcome (mk_retry_run o (S attempt) sleeps) = func n)
                 \/ (sleep_refused max_retries delay exponential_backoff catches
                       func jitter n
                     /\ retry_outcome (mk_retry_run o (S attempt) sleeps)
                        = Raised sleep_error))).
    { intros o Hle Hend. exists attempt.
      split; [lia|]. split; [exact Hle|]. split; [reflexivity|]. split; [|split].
      - rewrite Nat.sub_diag. cbn. now rewrite app_nil_r.
      - intros i Hi. lia.
      - exact Hend. }
    cbn [retry_from].
    destruct (func attempt) as [v|e] eqn:Hcall.
    + apply Hstop; [lia|]. left. split; [|reflexivity].
      unfold ends_retrying. now rewrite Hcall.
    + destruct (catches e) eqn:Hcatch.
      * destruct (Z.eqb_spec (Z.of_nat attempt) max_retries) as [Hlast|Hmore].
        -- apply Hstop; [lia|]. left. split; [|reflexivity].
           unfold ends_retrying. rewrite Hcall. now right.
        -- cbv zeta. destruct (Z.ltb_spec (wait attempt) 0) as [Hneg|Hok].
           ++ apply Hstop; [lia|]. right. split; [|reflexivity].
              split; [now exists e|]. split; [lia | exact Hneg].
           ++ destruct (IH (S attempt) (Some e) (sleeps ++ [wait attempt]))
                as (n & Hle & Hmax & Hcalls & Hsleeps & Hbefore & Hend); try lia.
              exists n.
              split; [lia|]. split; [exact Hmax|]. split; [exact Hcalls|].
              split; [|split].
              ** rewrite Hsleeps.
                 replace (n - attempt)%nat with (S (n - S attempt)) by lia.
                 cbn [seq map]. now rewrite <- app_assoc.
              ** intros i Hi.
                 destruct (Nat.eq_dec i attempt) as [->|Hne].
                 --- split; [now exists e | exact Hok].
                 --- apply Hbefore. lia.
              ** exact Hend.
      * apply Hstop; [lia|]. left. split; [|reflexivity].
        unfold ends_retrying. rewrite Hcall. now left.
Qed.

Lemma retry_on_failure_shape :
  0 <= max_retries ->
  let run :=
    retry_on_failure max_retries delay exponential_backoff catches func jitter in
  exists n,
    Z.of_nat n <= max_retries /\
    retry_calls run = S n /\
    retry_sleeps run = backoff_sleeps delay exponential_backoff jitter n /\
    caught_before catches func n /\
    waits_accepted delay exponential_backoff jitter n /\
    ((ends_retrying max_retries catches func n /\ retry_outcome run = func n)
     \/ (sleep_refused max_retries delay exponential_backoff catches func jitter n
         /\ retry_outcome run = Raised sleep_error)).
Proof.
  intros Hmax. cbv zeta. unfold retry_on_failure.
  destruct (retry_from_shape (Z.to_nat (max_retries + 1)) 0%nat None [])
    as (n & _ & Hle & Hcalls & Hsleeps & Hbefore & Hend); try lia.
  exists n. split; [exact Hle|]. split; [exact Hcalls|]. split; [|split; [|split]].
  - rewrite Hsleeps. now rewrite Nat.sub_0_r.
  - intros i Hi. apply Hbefore. lia.
  - intros i Hi. apply Hbefore. lia.
  - exact Hend.
Qed.

Lemma backoff_sleeps_total (n : nat) :
  0 <= delay ->
  jitter_in_range delay exponential_backoff jitter ->
  planned_wait delay exponential_backoff n
    <= total_slept (backoff_sleeps delay exponential_backoff jitter n) /\
  10 * total_slept (backoff_sleeps delay exponential_backoff jitter n)
    <= 11 * planned_wait delay exponential_backoff n.
Proof.
  intros Hdelay Hjit. unfold backoff_sleeps.
  induction n as [|n IH].
  - unfold planned_wait. cbn. destruct exponential_backoff; cbn; lia.
  - rewrite seq_S, map_app. cbn [map Nat.add].
    unfold total_slept in *. rewrite fold_right_app. cbn [fold_right].
    assert (Hshift : forall l x, fold_right Z.add x l = fold_right Z.add 0 l + x).
    { induction l as [|y l IHl]; intros x; cbn; [lia | rewrite IHl; lia]. }
    rewrite Hshift.
    specialize (Hjit n). unfold wait_before_retry, planned_wait in *.
    destruct exponential_backoff.
    + rewrite Nat2Z.inj_succ, Z.pow_succ_r by lia. nia.
    + rewrite Nat2Z.inj_succ. nia.
Qed.

End RetryShape.

Lemma retry_negative_budget {V : Type} (max_retries delay : Z)
    (exponential_backoff : bool) (catches : exception -> bool)
    (func : nat -> outcome V) (jitter : nat -> Z) :
  max_retries < 0 ->
  retry_on_failure max_retries delay exponential_backoff catches func jitter
  = mk_retry_run (Raised raise_none) 0 [].
Proof.
  intros Hneg. unfold retry_on_failure.
  destruct (Z.to_nat (max_retries + 1)) eqn:Hn; [reflexivity | lia].
Qed.




(** X16. With a jitter inside its range, the time [retry_on_failure]
    sleeps before [n] retries lies between the planned wait,
    [delay * (2^n - 1)] with exponential backoff and [delay * n] without,
    and that wait plus a tenth. *)
Theorem retry_total_wait {V : Type} (max_retries delay : Z)
    (exponential_backoff : bool) (catches : exception -> bool)
    (func : nat -> outcome V) (jitter : nat -> Z) :
  0 <= delay ->
  jitter_in_range delay exponential_backoff jitter ->
  let run :=
    retry_on_failure max_retries delay exponential_backoff catches func jitter in
  let planned :=
    planned_wait delay exponential_backoff (pred (retry_calls run)) in
  planned <= total_slept (retry_sleeps run)
  /\ 10 * total_slept (retry_sleeps run) <= 11 * planned.
Proof.
  intros Hdelay Hjit. cbv zeta.
  assert (Hsleeps :
    retry_sleeps (retry_on_failure max_retries delay exponential_backoff catches
                    func jitter)
    = backoff_sleeps delay exponential_backoff jitter
        (pred (retry_calls (retry_on_failure max_retries delay exponential_backoff
                              catches func jitter)))).
  { destruct (Z.lt_ge_cases max_retries 0) as [Hneg|Hpos].
    - now rewrite retry_negative_budget by exact Hneg.
    - destruct (retry_on_failure_shape max_retries delay exponential_backoff
                  catches func jitter Hpos) as (n & _ & Hcalls & Hs & _).
      now rewrite Hcalls, Hs. }
  rewrite Hsleeps. now apply backoff_sleeps_total.
Qed.

Lemma retry_total_wait_witness :
  3000000 <= total_slept [1000000; 2000000]
  /\ 10 * total_slept [1000000; 2000000] <= 11 * 3000000.
Proof.
  apply (retry_total_wait 3 (seconds 1) true catches_all third_call_returns no_jitter).
  - vm_compute. discriminate.
  - intros attempt. unfold no_jitter, seconds. split; [lia|].
    assert (0 <= 2 ^ Z.of_nat attempt) by (apply Z.pow_nonneg; lia). lia.
Defined.

Lemma chars_append (a b : string) :
  Text.chars (String.append a b) = Text.chars a ++ Text.chars b.
Proof.
  unfold Text.chars. induction a as [|c a IH]; [reflexivity|].
  simpl. rewrite IH. reflexivity.
Qed.

Lemma append_assoc (a b c : string) :
  String.append (String.append a b) c = String.append a (String.append b c).
Proof.
  induction a as [|x a IH]; [reflexivity|].
  change (String x (String.append (String.append a b) c)
          = String x (String.append a (String.append b c))).
  now rewrite IH.
Qed.

Lemma chars_lower (s : string) :
  Text.chars (Text.lower s) = map Text.lower_char (Text.chars s).
Proof. unfold Text.lower. apply chars_str. Qed.

Lemma contains_chars_after (p x s : list ascii) :
  Text.contains_chars p s = true -> Text.contains_chars p (x ++ s) = true.
Proof.
  intros H. induction x as [|c x IH]; [exact H|].
  cbn [app Text.contains_chars]. rewrite IH. apply orb_true_r.
Qed.

Lemma mentions_after (word prefix message : string) :
  mentions word message = true ->
  mentions word (String.append prefix message) = true.
Proof.
  unfold mentions, Text.contains. rewrite !chars_lower, chars_append, map_app.
  apply contains_chars_after.
Qed.

Lemma bot_like_after (prefix message : string) :
  bot_like message -> bot_like (String.append prefix message).
Proof.
  unfold bot_like, mentions_any. rewrite !existsb_exists.
  intros (w & Hin & Hw). exists w. split; [exact Hin|].
  now apply (mentions_after w prefix message).
Qed.

Lemma mentions_bot_prefix (word message : string) :
  In word ["timeout"; "not found"; "element not found"; "navigation"]%string ->
  mentions word (String.append "Bot detection triggered: " message)
  = mentions word message.
Proof.
  intros Hin. unfold mentions, Text.contains.
  rewrite !chars_lower, chars_append, map_app.
  generalize (map Text.lower_char (Text.chars message)) as l. intros l.
  cbn in Hin.
  destruct Hin as [<-|[<-|[<-|[<-|[]]]]]; vm_compute; reflexivity.
Qed.

Lemma starts_with_contains (p s : list ascii) :
  Text.starts_with p s = true -> Text.contains_chars p s = true.
Proof. intros H. destruct s; cbn [Text.contains_chars]; now rewrite H. Qed.

Lemma starts_with_longer (x q : list ascii) :
  forall s, Text.starts_with (x ++ q) s = true -> Text.contains_chars q s = true.
Proof.
  induction x as [|a x IH]; intros s H.
  - now apply starts_with_contains.
  - destruct s as [|b s]; [discriminate H|].
    cbn [app Text.starts_with] in H. apply andb_true_iff in H as [_ H].
    cbn [Text.contains_chars]. rewrite (IH s H). apply orb_true_r.
Qed.

Lemma contains_chars_longer (x q s : list ascii) :
  Text.contains_chars (x ++ q) s = true -> Text.contains_chars q s = true.
Proof.
  induction s as [|b s IH]; intros H.
  - cbn [Text.contains_chars] in H. rewrite orb_false_r in H.
    now apply (starts_with_longer x q).
  - cbn [Text.contains_chars] in H. apply orb_true_iff in H as [H|H].
    + now apply (starts_with_longer x q).
    + cbn [Text.contains_chars]. rewrite (IH H). apply orb_true_r.
Qed.

Lemma element_not_found_redundant (message : string) :
  mentions "not found" message || mentions "element not found" message
  = mentions "not found" message.
Proof.
  destruct (mentions "not found" message) eqn:Hnf; [reflexivity|].
  destruct (mentions "element not found" message) eqn:Henf; [|reflexivity].
  unfold mentions, Text.contains in *.
  change (Text.chars "element not found")
    with (Text.chars "element " ++ Text.chars "not found") in Henf.
  apply contains_chars_longer in Henf. congruence.
Qed.



Lemma safe_page_operation_raises {V : Type} (timeout elapsed : Z) (e : exception) :
  exists prefix,
    safe_page_operation timeout elapsed (@Raised V e)
    = Raised {| exc_class := page_error_class timeout elapsed (exc_class e) (exc_message e);
                exc_message := String.append prefix (exc_message e) |}.
Proof.
  unfold safe_page_operation, page_error_class.
  fold (mentions "timeout" (exc_message e)).
  fold (mentions "not found" (exc_message e)).
  fold (mentions "element not found" (exc_message e)).
  fold (mentions "navigation" (exc_message e)).
  rewrite element_not_found_redundant.
  destruct (seconds timeout <=? elapsed).
  { exists (String.append "Operation timed out after "
              (String.append (Text.str_of_int timeout) "s: ")).
    now rewrite !append_assoc. }
  destruct (mentions "timeout" (exc_message e)); [eexists; reflexivity|].
  destruct (mentions "not found" (exc_message e)); [eexists; reflexivity|].
  destruct (mentions "navigation" (exc_message e)); [eexists; reflexivity|].
  exists ""%string. now destruct e.
Qed.

Lemma handle_bot_detection_raises {V : Type} (e : exception) :
  bot_like (exc_message e) ->
  handle_bot_detection (@Raised V e)
  = Raised {| exc_class := BotDetectionError;
              exc_message := String.append "Bot detection triggered: " (exc_message e) |}.
Proof. unfold bot_like, handle_bot_detection. now intros ->. Qed.

(** X17. With [handle_bot_detection] outermost, an exception whose message
    names a bot indicator always leaves as a [BotDetectionError] that ends
    with the original message: whether [safe_page_operation] inside has
    rewrapped it or not, and also when [handle_bot_detection] is applied
    twice, which then prefixes the message twice. *)
Theorem bot_detection_outermost_wins {V : Type} (e : exception) (timeout elapsed : Z) :
  bot_like (exc_message e) ->
  (exists prefix,
     handle_bot_detection (safe_page_operation timeout elapsed (@Raised V e))
     = Raised {| exc_class := BotDetectionError;
                 exc_message := String.append prefix (exc_message e) |})
  /\ handle_bot_detection (handle_bot_detection (@Raised V e))
     = Raised {| exc_class := BotDetectionError;
                 exc_message :=
                   String.append "Bot detection triggered: "
                     (String.append "Bot detection triggered: " (exc_message e)) |}.
Proof.
  intros Hbot. split.
  - destruct (safe_page_operation_raises (V := V) timeout elapsed e) as [prefix ->].
    rewrite handle_bot_detection_raises by now apply bot_like_after.
    cbn [exc_message].
    exists (String.append "Bot detection triggered: " prefix).
    now rewrite append_assoc.
  - rewrite (handle_bot_detection_raises e Hbot).
    rewrite handle_bot_detection_raises by now apply bot_like_after.
    reflexivity.
Qed.

(** X18. With [safe_page_operation] outermost the [BotDetectionError] of
    [handle_bot_detection] is classified again by the original message: it
    stays a [BotDetectionError] only if the call took less than the
    timeout and the message names none of timeout, not found and
    navigation. *)
Theorem page_wrapper_reclassifies_bot_errors {V : Type} (e : exception)
    (timeout elapsed : Z) :
  bot_like (exc_message e) ->
  raised_class (safe_page_operation timeout elapsed (handle_bot_detection (@Raised V e)))
  = Some (page_error_class timeout elapsed BotDetectionError (exc_message e)).
Proof.
  intros Hbot. rewrite (handle_bot_detection_raises e Hbot).
  destruct (safe_page_operation_raises (V := V) timeout elapsed
              {| exc_class := BotDetectionError;
                 exc_message := String.append "Bot detection triggered: " (exc_message e) |})
    as [prefix ->].
  cbn [raised_class exc_class exc_message].
  unfold page_error_class.
  rewrite !mentions_bot_prefix by (cbn; tauto).
  reflexivity.
Qed.

Lemma bot_detection_outermost_wins_witness :
  (exists prefix,
     handle_bot_detection (safe_page_operation 30 0 (@Raised Z denied_on_timeout))
     = Raised {| exc_class := BotDetectionError;
                 exc_message :=
                   String.append prefix "Access denied: navigation timeout" |})
  /\ handle_bot_detection (handle_bot_detection (@Raised Z denied_on_timeout))
     = Raised {| exc_class := BotDetectionError;
                 exc_message :=
                   "Bot detection triggered: Bot detection triggered: Access denied: navigation timeout" |}.
Proof.
  apply (bot_detection_outermost_wins (V := Z) denied_on_timeout 30 0).
  vm_compute. reflexivity.
Defined.

Lemma page_wrapper_reclassifies_bot_errors_witness :
  raised_class
    (safe_page_operation 30 0 (handle_bot_detection (@Raised Z denied_on_timeout)))
  = Some PageNavigationError.
Proof.
  apply (page_wrapper_reclassifies_bot_errors (V := Z) denied_on_timeout 30 0).
  vm_compute. reflexivity.
Defined.

(** X19. [record_error] tracks each kind on its own: after any sequence of
    recorded errors the count of a kind is its count before plus the
    number of recorded errors of that kind, and its last time is the time
    of the last of them, or the time kept before if there was none. *)
Theorem error_tracking_per_kind (self : ErrorRecovery.t)
    (events : list (string * Datetime.datetime)) (error_type : string) :
  default 0 (ErrorRecovery.error_counts (record_all self events) !! error_type)
  = default 0 (ErrorRecovery.error_counts self !! error_type)
    + Z.of_nat (occurrences error_type events)
  /\ ErrorRecovery.last_error_time (record_all self events) !! error_type
     = match last_occurrence error_type events with
       | Some t => Some t
       | None => ErrorRecovery.last_error_time self !! error_type
       end.
Proof.
  revert self. induction events as [|[k t] rest IH]; intros self.
  - cbn. split; [lia | reflexivity].
  - unfold record_all in *. cbn [fold_left fst snd].
    destruct (IH (ErrorRecovery.record_error self k t)) as [Hcount Hlast].
    rewrite Hcount, Hlast. clear IH Hcount Hlast.
    unfold occurrences. cbn [List.filter last_occurrence fst snd].
    unfold ErrorRecovery.record_error.
    cbn [ErrorRecovery.error_counts ErrorRecovery.last_error_time].
    destruct (String.eqb_spec k error_type) as [->|Hne].
    + rewrite !lookup_insert_eq. unfold default. cbn [from_option id length].
      split; [lia|]. now destruct (last_occurrence error_type rest).
    + rewrite !lookup_insert_ne by exact Hne.
      split; [reflexivity|]. now destruct (last_occurrence error_type rest).
Qed.

(* ===================================================================== *)
(** ** The SQLite store *)
(* ===================================================================== *)

Lemma save_receipt_cases (self : ReceiptDatabase.t) (raises : bool) (receipt : Receipt.t) :
  (ReceiptDatabase.save_receipt self raises receipt = (self, false)
   /\ (raises = true \/ is_Some (ReceiptDatabase.receipts self !! Receipt.id receipt)
       \/ ~ storable receipt))
  \/ (ReceiptDatabase.save_receipt self raises receipt
      = ({| ReceiptDatabase.receipts := <[Receipt.id receipt := ReceiptDatabase.row_of receipt]> (ReceiptDatabase.receipts self);
            ReceiptDatabase.receipt_items :=
              ReceiptDatabase.receipt_items self
              ++ map (ReceiptDatabase.item_row_of (Receipt.id receipt)) (Receipt.items receipt) |},
         true)
      /\ raises = false /\ ReceiptDatabase.receipts self !! Receipt.id receipt = None
      /\ storable receipt).
Proof.
  unfold ReceiptDatabase.save_receipt, storable.
  destruct raises; [left; split; [reflexivity | now left]|].
  destruct (ReceiptDatabase.receipts self !! Receipt.id receipt) as [row|] eqn:Hrow.
  { left. split; [reflexivity|]. right. left. now exists row. }
  destruct (PrimFloat.is_nan (Receipt.total_amount receipt)) eqn:Hnan.
  { left. split; [reflexivity|]. right. right. congruence. }
  right. repeat split; reflexivity.
Qed.

Lemma save_from_accounting (rs : list Receipt.t) :
  forall (self : ReceiptDatabase.t) (raises : nat -> bool) (i : nat) (st : ReceiptDatabase.stats),
    let result := ReceiptDatabase.save_from self raises i rs st in
    ReceiptDatabase.saved (snd result) + ReceiptDatabase.skipped (snd result)
    = ReceiptDatabase.saved st + ReceiptDatabase.skipped st + Z.of_nat (length rs)
    /\ ReceiptDatabase.failed (snd result) = ReceiptDatabase.failed st
    /\ ReceiptDatabase.saved st <= ReceiptDatabase.saved (snd result)
    /\ Z.of_nat (size (ReceiptDatabase.receipts (fst result)))
       = Z.of_nat (size (ReceiptDatabase.receipts self)) + (ReceiptDatabase.saved (snd result) - ReceiptDatabase.saved st)
    /\ (forall id row, ReceiptDatabase.receipts self !! id = Some row ->
                       ReceiptDatabase.receipts (fst result) !! id = Some row)
    /\ (forall id, is_Some (ReceiptDatabase.receipts (fst result) !! id) ->
                   is_Some (ReceiptDatabase.receipts self !! id) \/ In id (map Receipt.id rs)).
Proof.
  induction rs as [|r rs IH]; intros self raises i st; cbv zeta.
  - cbn [ReceiptDatabase.save_from fst snd length map In].
    split; [lia|]. split; [reflexivity|]. split; [lia|]. split; [lia|].
    split; [now intros|]. intros id H. now left.
  - cbn [ReceiptDatabase.save_from].
    destruct (save_receipt_cases self (raises i) r) as [[-> _]|[-> (_ & Hnew & _)]].
    + specialize (IH self raises (S i)
                    {| ReceiptDatabase.saved := ReceiptDatabase.saved st; ReceiptDatabase.skipped := ReceiptDatabase.skipped st + 1;
                       ReceiptDatabase.failed := ReceiptDatabase.failed st |}).
      cbv zeta in IH. cbn [ReceiptDatabase.saved ReceiptDatabase.skipped ReceiptDatabase.failed] in IH.
      destruct IH as (Hsum & Hfail & Hmono & Hsize & Hkeep & Hfrom).
      cbn [length map In].
      split; [lia|]. split; [exact Hfail|]. split; [exact Hmono|].
      split; [exact Hsize|]. split; [exact Hkeep|].
      intros id Hid. destruct (Hfrom id Hid) as [H|H]; [now left | right; now right].
    + specialize (IH {| ReceiptDatabase.receipts := <[Receipt.id r := ReceiptDatabase.row_of r]> (ReceiptDatabase.receipts self);
                        ReceiptDatabase.receipt_items :=
                          ReceiptDatabase.receipt_items self
                          ++ map (ReceiptDatabase.item_row_of (Receipt.id r)) (Receipt.items r) |}
                    raises (S i)
                    {| ReceiptDatabase.saved := ReceiptDatabase.saved st + 1; ReceiptDatabase.skipped := ReceiptDatabase.skipped st;
                       ReceiptDatabase.failed := ReceiptDatabase.failed st |}).
      cbv zeta in IH. cbn [ReceiptDatabase.saved ReceiptDatabase.skipped ReceiptDatabase.failed ReceiptDatabase.receipts] in IH.
      destruct IH as (Hsum & Hfail & Hmono & Hsize & Hkeep & Hfrom).
      rewrite map_size_insert_None in Hsize by exact Hnew.
      cbn [length map In].
      split; [lia|]. split; [exact Hfail|]. split; [lia|].
      split; [lia|]. split.
      * intros id row Hrow. apply Hkeep.
        rewrite lookup_insert_ne; [exact Hrow|]. intros Heq. rewrite Heq in Hnew. congruence.
      * intros id Hid. destruct (Hfrom id Hid) as [H|H]; [|right; now right].
        apply lookup_insert_is_Some in H as [H|[_ H]];
          [right; now left | now left].
Qed.

(** X20. The statistics of [save_batch] add up and nothing stored is
    lost: every receipt of the batch is counted as saved or skipped and
    none as failed, the table grows by the number saved, every row stored
    before is still stored unchanged, and every id stored afterwards was
    stored before or is the id of a receipt of the batch. *)
Theorem save_batch_accounting (self : ReceiptDatabase.t) (raises : nat -> bool)
    (batch : ReceiptBatch.t) :
  let result := ReceiptDatabase.save_batch self raises batch in
  ReceiptDatabase.saved (snd result) + ReceiptDatabase.skipped (snd result)
  = Z.of_nat (length (ReceiptBatch.receipts batch))
  /\ ReceiptDatabase.failed (snd result) = 0
  /\ 0 <= ReceiptDatabase.saved (snd result)
  /\ Z.of_nat (size (ReceiptDatabase.receipts (fst result)))
     = Z.of_nat (size (ReceiptDatabase.receipts self)) + ReceiptDatabase.saved (snd result)
  /\ (forall id row, ReceiptDatabase.receipts self !! id = Some row ->
                     ReceiptDatabase.receipts (fst result) !! id = Some row)
  /\ (forall id, is_Some (ReceiptDatabase.receipts (fst result) !! id) ->
                 is_Some (ReceiptDatabase.receipts self !! id)
                 \/ In id (map Receipt.id (ReceiptBatch.receipts batch))).
Proof.
  cbv zeta. unfold ReceiptDatabase.save_batch.
  destruct (save_from_accounting (ReceiptBatch.receipts batch) self raises 0
              {| ReceiptDatabase.saved := 0; ReceiptDatabase.skipped := 0; ReceiptDatabase.failed := 0 |})
    as (Hsum & Hfail & Hmono & Hsize & Hkeep & Hfrom).
  cbn [ReceiptDatabase.saved ReceiptDatabase.skipped ReceiptDatabase.failed] in *.
  split; [lia|]. split; [exact Hfail|]. split; [exact Hmono|].
  split; [lia|]. split; [exact Hkeep | exact Hfrom].
Qed.

(** Receipts whose ids are all stored are all ReceiptDatabase.skipped. *)
Lemma save_from_stored (rs : list Receipt.t) :
  forall (self : ReceiptDatabase.t) (raises : nat -> bool) (i : nat) (st : ReceiptDatabase.stats),
    (forall r, In r rs -> is_Some (ReceiptDatabase.receipts self !! Receipt.id r)) ->
    ReceiptDatabase.save_from self raises i rs st
    = (self, {| ReceiptDatabase.saved := ReceiptDatabase.saved st;
                ReceiptDatabase.skipped := ReceiptDatabase.skipped st + Z.of_nat (length rs);
                ReceiptDatabase.failed := ReceiptDatabase.failed st |}).
Proof.
  induction rs as [|r rs IH]; intros self raises i st Hstored.
  - cbn [ReceiptDatabase.save_from length]. f_equal. destruct st. cbn. f_equal. lia.
  - cbn [ReceiptDatabase.save_from].
    destruct (save_receipt_cases self (raises i) r)
      as [[-> _]|[_ (_ & Hnew & _)]].
    + rewrite IH by (intros x Hx; apply Hstored; now right).
      cbn [ReceiptDatabase.saved ReceiptDatabase.skipped ReceiptDatabase.failed length]. f_equal. f_equal. lia.
    + destruct (Hstored r (or_introl eq_refl)) as [row Hrow]. congruence.
Qed.

(** After a pass without database errors every storable receipt of the
    list is stored. *)
Lemma save_from_stores (rs : list Receipt.t) :
  forall (self : ReceiptDatabase.t) (raises : nat -> bool) (i : nat) (st : ReceiptDatabase.stats),
    (forall j, (j < length rs)%nat -> raises (i + j)%nat = false) ->
    (forall r, In r rs -> storable r) ->
    forall r, In r rs ->
      is_Some (ReceiptDatabase.receipts (fst (ReceiptDatabase.save_from self raises i rs st)) !! Receipt.id r).
Proof.
  induction rs as [|x rs IH]; intros self raises i st Hquiet Hok r Hr; [destruct Hr|].
  cbn [ReceiptDatabase.save_from].
  assert (Hquiet' : forall j, (j < length rs)%nat -> raises (S i + j)%nat = false).
  { intros j Hj. replace (S i + j)%nat with (i + S j)%nat by lia.
    apply Hquiet. cbn [length]. lia. }
  assert (Hok' : forall y, In y rs -> storable y)
    by (intros y Hy; apply Hok; now right).
  assert (Hi : raises i = false).
  { replace i with (i + 0)%nat by lia. apply Hquiet. cbn [length]. lia. }
  destruct (save_receipt_cases self (raises i) x)
    as [[-> Hwhy]|[-> _]].
  - destruct Hr as [<-|Hr]; [|now apply IH].
    destruct Hwhy as [Hwhy|[[row Hrow]|Hwhy]];
      [congruence | | exfalso; apply Hwhy, Hok; now left].
    exists row.
    now apply (save_from_accounting rs self raises (S i)
                 {| ReceiptDatabase.saved := ReceiptDatabase.saved st; ReceiptDatabase.skipped := ReceiptDatabase.skipped st + 1;
                    ReceiptDatabase.failed := ReceiptDatabase.failed st |}).
  - destruct Hr as [<-|Hr]; [|now apply IH].
    exists (ReceiptDatabase.row_of x).
    apply (save_from_accounting rs _ raises (S i)
             {| ReceiptDatabase.saved := ReceiptDatabase.saved st + 1; ReceiptDatabase.skipped := ReceiptDatabase.skipped st; ReceiptDatabase.failed := ReceiptDatabase.failed st |}).
    cbn [ReceiptDatabase.receipts]. apply lookup_insert_eq.
Qed.

(** X21. Saving a batch a second time saves nothing: after a pass that met
    no database error, every receipt of the batch exists in the store, and
    a second [save_batch] of the same batch, whatever errors it meets,
    skips every receipt and leaves the database as it was. *)
Theorem saved_batch_is_skipped (self : ReceiptDatabase.t) (quiet raises : nat -> bool)
    (batch : ReceiptBatch.t) :
  (forall i, (i < length (ReceiptBatch.receipts batch))%nat -> quiet i = false) ->
  (forall r, In r (ReceiptBatch.receipts batch) -> storable r) ->
  let first := ReceiptDatabase.save_batch self quiet batch in
  let second := ReceiptDatabase.save_batch (fst first) raises batch in
  fst second = fst first
  /\ ReceiptDatabase.saved (snd second) = 0
  /\ ReceiptDatabase.skipped (snd second) = Z.of_nat (length (ReceiptBatch.receipts batch))
  /\ (forall r, In r (ReceiptBatch.receipts batch) ->
                ReceiptDatabase.receipt_exists (fst first) false (Receipt.id r) = true).
Proof.
  intros Hquiet Hok. cbv zeta. unfold ReceiptDatabase.save_batch.
  assert (Hstored : forall r, In r (ReceiptBatch.receipts batch) ->
            is_Some (ReceiptDatabase.receipts
                       (fst (ReceiptDatabase.save_from self quiet 0 (ReceiptBatch.receipts batch)
                               {| ReceiptDatabase.saved := 0; ReceiptDatabase.skipped := 0; ReceiptDatabase.failed := 0 |}))
                     !! Receipt.id r)).
  { apply save_from_stores; [|exact Hok]. intros j Hj. now apply Hquiet. }
  rewrite save_from_stored by exact Hstored.
  cbn [fst snd ReceiptDatabase.saved ReceiptDatabase.skipped].
  split; [reflexivity|]. split; [reflexivity|]. split; [lia|].
  intros r Hr. unfold ReceiptDatabase.receipt_exists.
  destruct (Hstored r Hr) as [row ->]. reflexivity.
Qed.

Lemma save_receipt_owned (self : ReceiptDatabase.t) (raises : bool) (receipt : Receipt.t) :
  items_owned self -> items_owned (fst (ReceiptDatabase.save_receipt self raises receipt)).
Proof.
  intros Howned.
  destruct (save_receipt_cases self raises receipt) as [[-> _]|[-> _]];
    [exact Howned|].
  unfold items_owned in *. cbn [fst ReceiptDatabase.receipts ReceiptDatabase.receipt_items].
  apply List.Forall_app. split.
  - eapply List.Forall_impl; [|exact Howned].
    intros item Hitem. apply lookup_insert_is_Some'. now right.
  - apply List.Forall_forall. intros item Hin.
    apply in_map_iff in Hin as (x & <- & _). cbn [ReceiptDatabase.item_receipt_id ReceiptDatabase.item_row_of].
    apply lookup_insert_is_Some'. now left.
Qed.

Lemma delete_receipt_owned (self : ReceiptDatabase.t) (raises : bool) (receipt_id : string) :
  items_owned self -> items_owned (fst (ReceiptDatabase.delete_receipt self raises receipt_id)).
Proof.
  intros Howned. unfold ReceiptDatabase.delete_receipt.
  destruct raises; [exact Howned|].
  destruct (ReceiptDatabase.receipts self !! receipt_id); [|exact Howned].
  unfold items_owned in *. cbn [fst ReceiptDatabase.receipts ReceiptDatabase.receipt_items].
  apply List.Forall_forall. intros item Hin.
  apply List.filter_In in Hin as [Hin Hne].
  apply negb_true_iff, String.eqb_neq in Hne.
  rewrite List.Forall_forall in Howned.
  rewrite lookup_delete_ne by congruence. now apply Howned.
Qed.

Lemma run_owned (ops : list ReceiptDatabase.op) : items_owned (ReceiptDatabase.run ops).
Proof.
  unfold ReceiptDatabase.run.
  assert (Hinv : forall self, items_owned self -> items_owned (fold_left ReceiptDatabase.apply ops self)).
  { induction ops as [|o ops IH]; intros self Hself; [exact Hself|].
    cbn [fold_left]. apply IH. destruct o as [raises r|raises id]; cbn [ReceiptDatabase.apply].
    - now apply save_receipt_owned.
    - now apply delete_receipt_owned. }
  apply Hinv. apply List.Forall_nil.
Qed.

Lemma filter_other_ids (receipt_id : string) (items : list ReceiptDatabase.item_row)
    (added : list (gmap string string)) :
  Forall (fun item => ReceiptDatabase.item_receipt_id item <> receipt_id) items ->
  List.filter (fun item => negb (String.eqb (ReceiptDatabase.item_receipt_id item) receipt_id))
    (items ++ map (ReceiptDatabase.item_row_of receipt_id) added)
  = items.
Proof.
  intros Hother. rewrite List.filter_app.
  assert (Hadded :
    List.filter (fun item => negb (String.eqb (ReceiptDatabase.item_receipt_id item) receipt_id))
      (map (ReceiptDatabase.item_row_of receipt_id) added) = []).
  { induction added as [|x added IH]; [reflexivity|].
    cbn [map List.filter ReceiptDatabase.item_receipt_id ReceiptDatabase.item_row_of].
    now rewrite String.eqb_refl. }
  rewrite Hadded, app_nil_r.
  induction Hother as [|item items Hitem _ IH]; [reflexivity|].
  cbn [List.filter]. apply String.eqb_neq in Hitem. rewrite Hitem. cbn [negb].
  now rewrite IH.
Qed.

(** X23. Saving a receipt whose id is not stored and deleting it again
    gives back the database as it was, the rows of its items included;
    both calls return true and the receipt exists in between. *)
Theorem save_then_delete_restores (ops : list ReceiptDatabase.op) (receipt : Receipt.t) :
  ReceiptDatabase.receipts (ReceiptDatabase.run ops) !! Receipt.id receipt = None ->
  storable receipt ->
  let stored := ReceiptDatabase.save_receipt (ReceiptDatabase.run ops) false receipt in
  let deleted := ReceiptDatabase.delete_receipt (fst stored) false (Receipt.id receipt) in
  snd stored = true
  /\ ReceiptDatabase.receipt_exists (fst stored) false (Receipt.id receipt) = true
  /\ snd deleted = true
  /\ fst deleted = ReceiptDatabase.run ops.
Proof.
  intros Hnew Hok. cbv zeta.
  pose proof (run_owned ops) as Howned.
  destruct (save_receipt_cases (ReceiptDatabase.run ops) false receipt)
    as [[_ [Hwhy|[[row Hrow]|Hwhy]]]|[-> _]];
    [discriminate Hwhy | congruence | contradiction|].
  cbn [fst snd]. unfold ReceiptDatabase.receipt_exists, ReceiptDatabase.delete_receipt. cbn [ReceiptDatabase.receipts ReceiptDatabase.receipt_items].
  rewrite lookup_insert_eq. cbn [fst snd].
  split; [reflexivity|]. split; [reflexivity|]. split; [reflexivity|].
  rewrite delete_insert_id by exact Hnew.
  rewrite filter_other_ids.
  - now destruct (ReceiptDatabase.run ops).
  - unfold items_owned in Howned.
    eapply List.Forall_impl; [|exact Howned].
    intros item [row Hrow] Heq. rewrite Heq in Hrow. congruence.
Qed.

Lemma save_receipt_keyed (self : ReceiptDatabase.t) (raises : bool) (receipt : Receipt.t) :
  rows_keyed self -> rows_keyed (fst (ReceiptDatabase.save_receipt self raises receipt)).
Proof.
  intros Hkeyed.
  destruct (save_receipt_cases self raises receipt) as [[-> _]|[-> _]];
    [exact Hkeyed|].
  unfold rows_keyed in *. cbn [fst ReceiptDatabase.receipts].
  intros id row Hrow.
  apply lookup_insert_Some in Hrow as [[<- <-]|[_ Hrow]];
    [reflexivity | now apply Hkeyed].
Qed.

Lemma delete_receipt_keyed (self : ReceiptDatabase.t) (raises : bool)
    (receipt_id : string) :
  rows_keyed self ->
  rows_keyed (fst (ReceiptDatabase.delete_receipt self raises receipt_id)).
Proof.
  intros Hkeyed. unfold ReceiptDatabase.delete_receipt.
  destruct raises; [exact Hkeyed|].
  destruct (ReceiptDatabase.receipts self !! receipt_id); [|exact Hkeyed].
  unfold rows_keyed in *. cbn [fst ReceiptDatabase.receipts].
  intros id row Hrow. apply lookup_delete_Some in Hrow as [_ Hrow].
  now apply Hkeyed.
Qed.

(** X22. The store keeps its tables consistent: after any sequence of
    [save_receipt] and [delete_receipt] calls on a new database, whether
    they meet database errors or not, every row of [receipt_items]
    belongs to a stored receipt and every receipt is stored under its own
    id. *)
Theorem store_stays_consistent (ops : list ReceiptDatabase.op) :
  items_owned (ReceiptDatabase.run ops) /\ rows_keyed (ReceiptDatabase.run ops).
Proof.
  split; [apply run_owned|].
  unfold ReceiptDatabase.run.
  assert (Hinv : forall self, rows_keyed self ->
                   rows_keyed (fold_left ReceiptDatabase.apply ops self)).
  { induction ops as [|o ops IH]; intros self Hself; [exact Hself|].
    cbn [fold_left]. apply IH.
    destruct o as [raises r|raises id]; cbn [ReceiptDatabase.apply].
    - now apply save_receipt_keyed.
    - now apply delete_receipt_keyed. }
  apply Hinv. intros id row Hrow. cbn in Hrow.
  rewrite lookup_empty in Hrow. discriminate Hrow.
Qed.

Lemma saved_batch_is_skipped_witness :
  ReceiptDatabase.saved
    (snd (ReceiptDatabase.save_batch
            (fst (ReceiptDatabase.save_batch ReceiptDatabase.empty never_raises
                    seattle_twice))
            never_raises seattle_twice)) = 0
  /\ ReceiptDatabase.skipped
       (snd (ReceiptDatabase.save_batch
               (fst (ReceiptDatabase.save_batch ReceiptDatabase.empty never_raises
                       seattle_twice))
               never_raises seattle_twice)) = 2.
Proof.
  destruct (saved_batch_is_skipped ReceiptDatabase.empty never_raises never_raises
              seattle_twice) as (_ & Hsaved & Hskipped & _).
  - intros i _. reflexivity.
  - intros r Hr. vm_compute in Hr.
    destruct Hr as [<-|[<-|[]]]; vm_compute; reflexivity.
  - split; [exact Hsaved | exact Hskipped].
Defined.

Lemma save_then_delete_restores_witness :
  fst (ReceiptDatabase.delete_receipt
         (fst (ReceiptDatabase.save_receipt ReceiptDatabase.empty false seattle_receipt))
         false "r-1001")
  = ReceiptDatabase.empty.
Proof.
  destruct (save_then_delete_restores [] seattle_receipt) as (_ & _ & _ & Hback).
  - vm_compute. reflexivity.
  - vm_compute. reflexivity.
  - exact Hback.
Defined.

(* ===================================================================== *)
(** ** From the scraped batch to the store *)
(* ===================================================================== *)

Lemma fold_add_consistent (rs : list Receipt.t) :
  forall b, counters_consistent b ->
    counters_consistent (fold_left ReceiptScraper.add_with_detection rs b).
Proof.
  induction rs as [|r rs IH]; intros b Hb; cbn [fold_left]; [exact Hb|].
  apply IH. now apply add_receipt_consistent.
Qed.

Lemma fold_add_failed_count (rs : list Receipt.t) :
  forall b,
    ReceiptBatch.failed_count (fold_left ReceiptScraper.add_with_detection rs b)
    = ReceiptBatch.failed_count b.
Proof.
  induction rs as [|r rs IH]; intros b; cbn [fold_left]; [reflexivity|].
  now rewrite IH.
Qed.

Lemma process_range_counters (b : ReceiptBatch.t) (run : ReceiptScraper.range_run) :
  counters_consistent b ->
  counters_consistent (ReceiptScraper.process_range b run)
  /\ ReceiptBatch.failed_count b
     <= ReceiptBatch.failed_count (ReceiptScraper.process_range b run)
     <= ReceiptBatch.failed_count b + 1.
Proof.
  intros Hb. unfold ReceiptScraper.process_range.
  destruct (ReceiptScraper.selected run).
  - destruct (ReceiptScraper.pages run) as [ps|].
    + pose proof (fold_add_consistent (ReceiptScraper._scrape_time_range ps) b Hb)
        as Hfold.
      pose proof (fold_add_failed_count (ReceiptScraper._scrape_time_range ps) b)
        as Hfailed.
      destruct (ReceiptScraper.delay_raises run).
      * split; [now apply add_failed_consistent|].
        cbn [ReceiptBatch.add_failed ReceiptBatch.failed_count]. lia.
      * split; [exact Hfold | lia].
    + split; [now apply add_failed_consistent|].
      cbn [ReceiptBatch.add_failed ReceiptBatch.failed_count]. lia.
  - destruct (ReceiptScraper.delay_raises run).
    + split; [now apply add_failed_consistent|].
      cbn [ReceiptBatch.add_failed ReceiptBatch.failed_count]. lia.
    + split; [exact Hb | lia].
Qed.

Lemma discover_counters (browser : string -> ReceiptScraper.range_run) :
  counters_consistent (ReceiptScraper.discover_all_receipts browser)
  /\ 0 <= ReceiptBatch.failed_count (ReceiptScraper.discover_all_receipts browser)
     <= Z.of_nat (length ReceiptScraper.time_ranges).
Proof.
  unfold ReceiptScraper.discover_all_receipts.
  assert (Hinv : forall (ranges : list string) (b : ReceiptBatch.t),
            counters_consistent b ->
            let b' := fold_left (fun receipt_batch time_range =>
                         ReceiptScraper.process_range receipt_batch (browser time_range))
                        ranges b in
            counters_consistent b'
            /\ ReceiptBatch.failed_count b <= ReceiptBatch.failed_count b'
               <= ReceiptBatch.failed_count b + Z.of_nat (length ranges)).
  { induction ranges as [|tr ranges IH]; intros b Hb; cbn [fold_left length].
    - split; [exact Hb | lia].
    - destruct (process_range_counters b (browser tr) Hb) as [Hc Hf].
      destruct (IH _ Hc) as [Hc' Hf']. cbv zeta in Hc', Hf'.
      split; [exact Hc' | lia]. }
  destruct (Hinv ReceiptScraper.time_ranges ReceiptBatch.empty empty_consistent)
    as [Hc Hf].
  cbv zeta in Hc, Hf. split; [exact Hc|].
  cbn [ReceiptBatch.failed_count ReceiptBatch.empty] in Hf. exact Hf.
Qed.

(** X24. The numbers of the final report of [main] add up, whatever the
    site shows and whatever database errors occur: the receipts
    processed are those scraped, the duplicates and the failures; at most
    one failure is counted for each of the six time ranges; when receipts
    were found, those saved and those skipped are together the receipts
    scraped, no save failure is reported, and the table has grown by the
    number saved; when none was found nothing is saved. *)
Theorem report_numbers_add_up (browser : string -> ReceiptScraper.range_run)
    (db : ReceiptDatabase.t) (raises : nat -> bool) :
  let batch := fst (scrape_and_save browser db raises) in
  ReceiptBatch.total_count batch
  = ReceiptBatch.scraped_count batch + ReceiptBatch.duplicate_count batch
    + ReceiptBatch.failed_count batch
  /\ 0 <= ReceiptBatch.failed_count batch <= 6
  /\ match snd (scrape_and_save browser db raises) with
     | None => ReceiptBatch.scraped_count batch = 0
     | Some (db', st) =>
         0 < ReceiptBatch.scraped_count batch
         /\ ReceiptDatabase.saved st + ReceiptDatabase.skipped st
            = ReceiptBatch.scraped_count batch
         /\ ReceiptDatabase.failed st = 0
         /\ Z.of_nat (size (ReceiptDatabase.receipts db'))
            = Z.of_nat (size (ReceiptDatabase.receipts db)) + ReceiptDatabase.saved st
     end.
Proof.
  cbv zeta. unfold scrape_and_save.
  destruct (discover_counters browser) as [[Htotal Hlen] Hfailed].
  change (Z.of_nat (length ReceiptScraper.time_ranges)) with 6 in Hfailed.
  set (batch := ReceiptScraper.discover_all_receipts browser) in *.
  destruct (Nat.eqb_spec (length (ReceiptBatch.receipts batch)) 0) as [Hnone|Hsome];
    cbn [fst snd].
  - split; [exact Htotal|]. split; [exact Hfailed|]. lia.
  - split; [exact Htotal|]. split; [exact Hfailed|].
    unfold ReceiptDatabase.save_batch.
    destruct (save_from_accounting (ReceiptBatch.receipts batch) db raises 0
                {| ReceiptDatabase.saved := 0; ReceiptDatabase.skipped := 0;
                   ReceiptDatabase.failed := 0 |})
      as (Hsum & Hfail & _ & Hsize & _).
    destruct (ReceiptDatabase.save_from db raises 0 (ReceiptBatch.receipts batch) _)
      as [db' st].
    cbn [fst snd ReceiptDatabase.saved ReceiptDatabase.skipped
         ReceiptDatabase.failed] in *.
    split; [lia|]. split; [lia|]. split; [exact Hfail | lia].
Qed.
